(** * Project discovery and lifecycle pipeline of the Personal OS scripts

    A shallow embedding of [project-discovery-service.py] and
    [lifecycle-manager.py]: the directory tree the scripts inspect, the two
    registry documents, the classification heuristics, the discovery scans,
    the suggestion generator and the move operation, followed by the
    properties of the specification that concern them.

    Conventions of the embedding.
    - A [Path] is the list of its components, leaf first: [path / n] is
      [n :: path], [path.name] is the head and [path.parent] the tail.
      [str(path)] and [Path(str)] are inverse to each other and are both
      the identity here.
    - Instants ([datetime.now()], [st_mtime], ISO-8601 strings) are seconds
      as [Z]; [isoformat]/[fromisoformat] are the identity.
    - Python floats that the scripts compute (activity score, size in MB)
      are exact rationals [Q]; the weights 10.0, 5.0, 2.0, 1.0 are integers.
    - A raised exception is [None] in an [option] result. *)

From Stdlib Require Import Ascii QArith.
From stdpp Require Import gmap strings list fin_maps.

Local Open Scope string_scope.
Local Open Scope Z_scope.
Local Open Scope list_scope.

(** ** Strings *)

(** [str.lower()] on the ASCII range. *)
Definition lower_ascii (c : ascii) : ascii :=
  let n := N_of_ascii c in
  if ((65 <=? n) && (n <=? 90))%N then ascii_of_N (n + 32) else c.

Fixpoint lower (s : string) : string :=
  match s with
  | EmptyString => EmptyString
  | String c r => String (lower_ascii c) (lower r)
  end.

(** [needle in hay]. *)
Fixpoint contains (needle hay : string) : bool :=
  String.prefix needle hay ||
  match hay with
  | EmptyString => false
  | String _ r => contains needle r
  end.

(** [s.endswith(suf)], the test behind [glob("*" + suf)]. *)
Definition ends_with (suf s : string) : bool :=
  let n := String.length s in
  let k := String.length suf in
  (k <=? n)%nat && String.eqb (String.substring (n - k) k s) suf.

(** [name.rfind('.')], as an index from the left. *)
Fixpoint rfind_dot (s : string) (i : nat) (last : option nat) : option nat :=
  match s with
  | EmptyString => last
  | String c r =>
      rfind_dot r (S i) (if Ascii.eqb c "."%char then Some i else last)
  end.

(** [PurePath.suffix]: the part of the name from its last dot, unless the
    dot opens or closes the name. *)
Definition suffix_of_name (name : string) : string :=
  match rfind_dot name 0 None with
  | Some i =>
      if ((0 <? i) && (i <? String.length name - 1))%nat
      then String.substring i (String.length name - i) name
      else ""
  | None => ""
  end.

Definition str_in (s : string) (l : list string) : bool :=
  bool_decide (s ∈ l).

(** ** Paths *)

Abbreviation Path := (list string).

Definition path_name (p : Path) : string := hd "" p.
Definition path_parent (p : Path) : Path := tl p.

(** [str(path)] for the substring tests on whole paths. *)
Definition path_str (p : Path) : string :=
  foldl (fun acc c => acc +:+ "/" +:+ c) "" (reverse p).

(** ** The directory tree *)

Record FileStat := { st_mtime : Z; st_size : Z }.

(** A directory carries its modification time. A file carries the result
    of [stat()] on it: [None] when the call raises [OSError] although
    [is_file()] has just answered for it (the file was removed or made
    unreadable in between). *)
Inductive Node :=
| Dir (mtime : Z)
| File (st : option FileStat).

Abbreviation FS := (gmap (list string) Node).

Definition path_exists (fs : FS) (p : Path) : bool :=
  match fs !! p with Some _ => true | None => false end.

Definition is_dir (fs : FS) (p : Path) : bool :=
  match fs !! p with Some (Dir _) => true | _ => false end.

Definition is_file_node (n : Node) : bool :=
  match n with File _ => true | Dir _ => false end.

Definition child_of (p q : Path) : bool :=
  match q with
  | [] => false
  | _ :: r => bool_decide (r = p)
  end.

Definition below (p q : Path) : bool :=
  bool_decide (p `suffix_of` q) && negb (bool_decide (q = p)).

(** [path.iterdir()]: the entries of a directory, in the order the store
    yields them; raises on anything that is not a directory. *)
Definition iterdir (fs : FS) (p : Path) : option (list Path) :=
  if is_dir fs p
  then Some (filter (fun q => child_of p q = true) (map fst (map_to_list fs)))
  else None.

(** [path.rglob('*')]: every entry below [p], with its node. *)
Definition rglob (fs : FS) (p : Path) : list (Path * Node) :=
  filter (fun e => below p (fst e) = true) (map_to_list fs).

(** [path.glob("*" + suf)]: direct entries whose name ends in [suf]. *)
Definition glob_suffix (fs : FS) (p : Path) (suf : string) : list Path :=
  filter (fun q => child_of p q && ends_with suf (path_name q) = true)
         (map fst (map_to_list fs)).

(** [path.stat().st_mtime]. *)
Definition stat_mtime (fs : FS) (p : Path) : option Z :=
  match fs !! p with
  | Some (Dir t) => Some t
  | Some (File (Some st)) => Some (st_mtime st)
  | _ => None
  end.

(** A JSON state file: missing, present but not parseable, or holding a
    document. [json.load] raises on the second. *)
Inductive JsonFile (A : Type) :=
| Absent
| Garbled
| Stored (doc : A).
Arguments Absent {A}.
Arguments Garbled {A}.
Arguments Stored {A} doc.

(** [open(file, 'w')] creates or replaces a file, never a directory. A new
    entry also stamps the directory that receives it. *)
Definition write_file (now : Z) (fs : FS) (p : Path) (size : Z) : option FS :=
  let node := File (Some {| st_mtime := now; st_size := size |}) in
  match fs !! p with
  | Some (Dir _) => None
  | Some (File _) => Some (<[p := node]> fs)
  | None =>
      match fs !! path_parent p with
      | Some (Dir _) => Some (<[p := node]> (<[path_parent p := Dir now]> fs))
      | _ => None
      end
  end.

(** [path.unlink()] guarded by [path.exists()]. *)
Definition unlink_if_exists (fs : FS) (p : Path) : option FS :=
  match fs !! p with
  | None => Some fs
  | Some (File _) => Some (delete p fs)
  | Some (Dir _) => None
  end.

(** A [for] loop whose body may raise. *)
Fixpoint foldlM {A B : Type} (f : A → B → option A) (a : A) (l : list B)
  : option A :=
  match l with
  | [] => Some a
  | x :: rest => a' ← f a x; foldlM f a' rest
  end.

(** ** project-discovery-service.py *)

Module Discovery.

(** A record of the registry: the seven keys that
    [analyze_project_quick] sets, the [last_updated] stamp of a refresh,
    and under [pi_other] the keys that other scripts add to it (title,
    priority, notes and the like by [data-migration-tool.py]), each with
    the text of its value. *)
Record ProjectInfo := {
  pi_id : string;
  pi_name : string;
  pi_path : Path;
  pi_discovered_at : Z;
  pi_type : string;
  pi_status : string;
  pi_last_modified : Z;
  pi_last_updated : option Z;
  pi_other : gmap string string
}.

Record DiscoverySettings := {
  auto_discovery : bool;
  sync_frequency_minutes : Z;
  watch_patterns : list string
}.

Record Registry := {
  projects : gmap string ProjectInfo;
  last_updated : Z;
  discovery_settings : DiscoverySettings
}.

Record SyncEntry := {
  se_project_id : string;
  se_action : string;
  se_data : ProjectInfo;
  se_timestamp : Z
}.

Record SyncData := {
  pending_updates : list SyncEntry;
  last_sync : Z
}.

(** The service object together with the part of the disk it touches:
    [registry], [known_projects] and [update_queue] live in memory,
    [fs], [registry_file] and [dashboard_sync_file] on disk. *)
Record State := {
  base_path : Path;
  registry : Registry;
  known_projects : gset string;
  update_queue : gset string;
  fs : FS;
  registry_file : JsonFile Registry;
  dashboard_sync_file : JsonFile SyncData
}.

Definition systems_dir (s : State) : Path := "systems" :: base_path s.

Definition watch_dirs (s : State) : list Path :=
  [ base_path s;
    "active" :: base_path s;
    "staging" :: base_path s;
    "archive" :: base_path s ].

Definition default_registry (now : Z) : Registry :=
  {| projects := ∅;
     last_updated := now;
     discovery_settings :=
       {| auto_discovery := true;
          sync_frequency_minutes := 5;
          watch_patterns :=
            ["CLAUDE.md"; "TODO.md"; "package.json"; "requirements.txt"] |} |}.

(** [load_registry]: the document read from the file, or the default one
    when there is no file. Nothing is written back. *)
Definition load_registry (now : Z) (file : JsonFile Registry) : option Registry :=
  match file with
  | Stored doc => Some doc
  | Garbled => None
  | Absent => Some (default_registry now)
  end.

(** [ProjectDiscoveryService.__init__], as far as the state goes. *)
Definition init (now : Z) (base : Path) (disk : FS)
    (file : JsonFile Registry) (sync : JsonFile SyncData) : option State :=
  reg ← load_registry now file;
  Some {| base_path := base;
          registry := reg;
          known_projects := dom (projects reg);
          update_queue := ∅;
          fs := disk;
          registry_file := file;
          dashboard_sync_file := sync |}.

Definition save_registry (now : Z) (s : State) : State :=
  let reg :=
    {| projects := projects (registry s);
       last_updated := now;
       discovery_settings := discovery_settings (registry s) |} in
  {| base_path := base_path s;
     registry := reg;
     known_projects := known_projects s;
     update_queue := update_queue s;
     fs := fs s;
     registry_file := Stored reg;
     dashboard_sync_file := dashboard_sync_file s |}.

Definition skip_dirs : list string :=
  [".git"; ".venv"; "node_modules"; "__pycache__"; ".DS_Store";
   "systems"; ".vault"; "backups"].

Definition project_indicators : list string :=
  ["CLAUDE.md"; "package.json"; "requirements.txt"; "Cargo.toml"; "go.mod";
   "README.md"; "index.html"; ".gitignore"].

Definition key_indicators : list string :=
  ["CLAUDE.md"; "package.json"; "requirements.txt"].

Definition indicators_found (disk : FS) (path : Path) : nat :=
  length (filter (fun ind => path_exists disk (ind :: path) = true)
                 project_indicators).

Definition has_key_indicator (disk : FS) (path : Path) : bool :=
  existsb (fun ind => path_exists disk (ind :: path)) key_indicators.

Definition is_project_directory (disk : FS) (path : Path) : bool :=
  if negb (is_dir disk path) then false
  else if str_in (path_name path) skip_dirs then false
  else (2 <=? indicators_found disk path)%nat || has_key_indicator disk path.

(** The type cascade of [analyze_project_quick]. *)
Definition quick_type (disk : FS) (path : Path) : string :=
  if path_exists disk ("CLAUDE.md" :: path) then "claude-project"
  else if path_exists disk ("package.json" :: path) then "development-nodejs"
  else if path_exists disk ("requirements.txt" :: path) then "development-python"
  else if path_exists disk ("index.html" :: path) then "web-project"
  else if (0 <? length (glob_suffix disk path ".csv"))%nat then "data-analysis"
  else if existsb (fun word => contains word (lower (path_name path)))
                  ["scraper"; "bot"; "crawler"] then "automation"
  else
    let py_files := length (glob_suffix disk path ".py") in
    let js_files := length (glob_suffix disk path ".js") in
    if (js_files <? py_files)%nat then "development-python"
    else if (0 <? js_files)%nat then "development-web"
    else "general".

(** The stage read off the parent directory's name. *)
Definition quick_status (path : Path) : string :=
  let parent_name := path_name (path_parent path) in
  if String.eqb parent_name "active" then "active"
  else if String.eqb parent_name "staging" then "staging"
  else if String.eqb parent_name "archive" then "archived"
  else "discovered".

Definition analyze_project_quick (now : Z) (disk : FS) (path : Path)
  : option ProjectInfo :=
  mtime ← stat_mtime disk path;
  Some {| pi_id := path_name path;
          pi_name := path_name path;
          pi_path := path;
          pi_discovered_at := now;
          pi_type := quick_type disk path;
          pi_status := quick_status path;
          pi_last_modified := mtime;
          pi_last_updated := None;
          pi_other := ∅ |}.

(** The template chooser of the same file; it feeds the template
    generator, not the registry. *)
Definition detect_project_type (disk : FS) (project_path : Path) : string :=
  if path_exists disk ("package.json" :: project_path) then "nodejs"
  else if path_exists disk ("requirements.txt" :: project_path)
          || (0 <? length (glob_suffix disk project_path ".py"))%nat then "python"
  else if path_exists disk ("Cargo.toml" :: project_path) then "rust"
  else if path_exists disk ("go.mod" :: project_path) then "golang"
  else if (0 <? length (glob_suffix disk project_path ".html"))%nat
          || (0 <? length (glob_suffix disk project_path ".css"))%nat
          || (0 <? length (glob_suffix disk project_path ".js"))%nat then "web"
  else if (0 <? length (glob_suffix disk project_path ".md"))%nat then "documentation"
  else "general".

(** *** Registration *)

Definition with_fs (s : State) (disk : FS) : State :=
  {| base_path := base_path s;
     registry := registry s;
     known_projects := known_projects s;
     update_queue := update_queue s;
     fs := disk;
     registry_file := registry_file s;
     dashboard_sync_file := dashboard_sync_file s |}.

Definition with_sync (s : State) (sync : JsonFile SyncData) : State :=
  {| base_path := base_path s;
     registry := registry s;
     known_projects := known_projects s;
     update_queue := update_queue s;
     fs := fs s;
     registry_file := registry_file s;
     dashboard_sync_file := sync |}.

(** [self.registry["projects"][project_id] = project_info] followed by
    [self.known_projects.add(project_id)]. *)
Definition record_project (s : State) (project_id : string) (info : ProjectInfo)
  : State :=
  {| base_path := base_path s;
     registry :=
       {| projects := <[project_id := info]> (projects (registry s));
          last_updated := last_updated (registry s);
          discovery_settings := discovery_settings (registry s) |};
     known_projects := {[project_id]} ∪ known_projects s;
     update_queue := update_queue s;
     fs := fs s;
     registry_file := registry_file s;
     dashboard_sync_file := dashboard_sync_file s |}.

(** [queue_dashboard_sync]: append to the pending updates; an unreadable
    queue file is logged and left alone. *)
Definition queue_dashboard_sync (now : Z) (s : State) (info : ProjectInfo) : State :=
  let entry :=
    {| se_project_id := pi_id info; se_action := "update";
       se_data := info; se_timestamp := now |} in
  match dashboard_sync_file s with
  | Garbled => s
  | Absent =>
      with_sync s (Stored {| pending_updates := [entry]; last_sync := now |})
  | Stored d =>
      with_sync s (Stored {| pending_updates := pending_updates d ++ [entry];
                             last_sync := last_sync d |})
  end.

(** The tail shared by both branches of [check_new_project]. The call of
    [track_discovery_operation] that ends it is taken to return: its token
    ledger is not part of the state, and a call that raises (the ledger is
    read without a guard) would end [check_new_project] with an exception
    after the record has been stored and saved. What is stated about the
    scan is stated for calls that return. *)
Definition register_project (now : Z) (s : State) (project_id : string)
    (info : ProjectInfo) : State :=
  queue_dashboard_sync now (save_registry now (record_project s project_id info)) info.

(** *** Template inheritance *)

(** What one call of the template generator's [apply_project_template]
    leaves in the project folder: the files it writes, in order, with their
    sizes, and whether it ends by removing the selection prompt. *)
Record TemplateWrites := {
  written : list (string * Z);
  prompt_removed : bool
}.

Fixpoint write_all (now : Z) (disk : FS) (dir : Path) (files : list (string * Z))
  : FS * bool :=
  match files with
  | [] => (disk, true)
  | (n, size) :: rest =>
      match write_file now disk (n :: dir) size with
      | Some disk' => write_all now disk' dir rest
      | None => (disk, false)
      end
  end.

Section with_template_generator.

(** The generator lives in [secure-template-generator.py]; the scan only
    sees what it leaves in the folder it is applied to, which is any list
    of files. *)
Variable apply_project_template : FS → Path → string → TemplateWrites.

(** [apply_template_inheritance]: everything runs under one
    [try]/[except], so a failing write keeps the files written before it. *)
Definition apply_template_inheritance (now : Z) (s : State) (project_path : Path)
  : State :=
  if path_exists (fs s) ("secure-template-generator.py" :: systems_dir s) then
    let project_type := detect_project_type (fs s) project_path in
    let tw := apply_project_template (fs s) project_path project_type in
    match write_all now (fs s) project_path (written tw) with
    | (disk, true) =>
        if prompt_removed tw then
          match unlink_if_exists disk (".template-selection-prompt.md" :: project_path) with
          | Some disk' => with_fs s disk'
          | None => with_fs s disk
          end
        else with_fs s disk
    | (disk, false) => with_fs s disk
    end
  else s.

(** The "existing logic" tail of [check_new_project]. *)
Definition check_existing_project (now : Z) (s : State) (path : Path)
  : option (bool * State) :=
  if negb (is_project_directory (fs s) path) then Some (false, s)
  else
    let project_id := path_name path in
    if bool_decide (project_id ∈ known_projects s) then Some (false, s)
    else
      project_info ← analyze_project_quick now (fs s) path;
      Some (true, register_project now s project_id project_info).

Definition check_new_project (now : Z) (s : State) (path : Path)
  : option (bool * State) :=
  if is_dir (fs s) path
     && str_in (path_name (path_parent path)) ["active"; "staging"; "archive"]
  then
    let project_id := path_name path in
    if negb (bool_decide (project_id ∈ known_projects s)) then
      let s1 := apply_template_inheritance now s path in
      if is_project_directory (fs s1) path then
        project_info ← analyze_project_quick now (fs s1) path;
        Some (true, register_project now s1 project_id project_info)
      else Some (false, s1)
    else check_existing_project now s path
  else check_existing_project now s path.

(** *** The full scan *)

Definition scan_item (now : Z) (acc : nat * State) (item : Path)
  : option (nat * State) :=
  let '(discovered, s) := acc in
  if is_dir (fs s) item && is_project_directory (fs s) item then
    match check_new_project now s item with
    | Some (true, s') => Some (S discovered, s')
    | Some (false, s') => Some (discovered, s')
    | None => None
    end
  else Some (discovered, s).

Definition scan_watch_dir (now : Z) (acc : nat * State) (watch_dir : Path)
  : option (nat * State) :=
  if negb (path_exists (fs (snd acc)) watch_dir) then Some acc
  else
    match iterdir (fs (snd acc)) watch_dir with
    | Some items => foldlM (scan_item now) acc items
    | None => None
    end.

(** [discover_all_projects]: the number of projects registered by this
    scan, and the state it leaves. *)
Definition discover_all_projects (now : Z) (s : State) : option (nat * State) :=
  foldlM (scan_watch_dir now) (0%nat, s) (watch_dirs s).

End with_template_generator.

(** *** The update queue *)


Definition with_queue (s : State) (queue : gset string) : State :=
  {| base_path := base_path s;
     registry := registry s;
     known_projects := known_projects s;
     update_queue := queue;
     fs := fs s;
     registry_file := registry_file s;
     dashboard_sync_file := dashboard_sync_file s |}.

Definition with_registry_projects (s : State) (ps : gmap string ProjectInfo)
  : State :=
  {| base_path := base_path s;
     registry :=
       {| projects := ps;
          last_updated := last_updated (registry s);
          discovery_settings := discovery_settings (registry s) |};
     known_projects := known_projects s;
     update_queue := update_queue s;
     fs := fs s;
     registry_file := registry_file s;
     dashboard_sync_file := dashboard_sync_file s |}.



(** [record.update(updated_info)] followed by
    [record["last_updated"] = now]: the seven keys that
    [analyze_project_quick] sets are overwritten, the stamp is set, and
    every other key of the stored record is kept. *)
Definition refreshed (record updated_info : ProjectInfo) (now : Z)
  : ProjectInfo :=
  {| pi_id := pi_id updated_info;
     pi_name := pi_name updated_info;
     pi_path := pi_path updated_info;
     pi_discovered_at := pi_discovered_at updated_info;
     pi_type := pi_type updated_info;
     pi_status := pi_status updated_info;
     pi_last_modified := pi_last_modified updated_info;
     pi_last_updated := Some now;
     pi_other := pi_other record |}.

(** One turn of the loop of [process_update_queue]. *)
Definition refresh_project (now : Z) (s : State) (project_id : string)
  : option State :=
  match projects (registry s) !! project_id with
  | Some old =>
      let project_path := pi_path old in
      if path_exists (fs s) project_path then
        updated_info ← analyze_project_quick now (fs s) project_path;
        let merged := refreshed old updated_info now in
        Some (queue_dashboard_sync now
                (with_registry_projects s
                   (<[project_id := merged]> (projects (registry s))))
                merged)
      else Some s
  | None => Some s
  end.

(** [process_update_queue]: nothing at all on an empty queue; otherwise
    the queued ids are refreshed in the order the set yields them, the
    queue is cleared and the registry saved. *)
Definition process_update_queue (now : Z) (s : State) : option State :=
  if bool_decide (update_queue s = ∅) then Some s
  else
    s' ← foldlM (refresh_project now) s (elements (update_queue s));
    Some (save_registry now (with_queue s' ∅)).

(** *** The dashboard mirror *)

(** An entry of the idea backlog, with the keys [update_dashboard_data]
    writes. *)
Record Idea := {
  idea_id : string;
  idea_title : string;
  idea_category : string;
  idea_priority : string;
  idea_effort : string;
  idea_status : string;
  idea_description : string;
  idea_tags : list string;
  idea_created_date : Z;
  idea_phase : string;
  idea_auto_discovered : bool
}.

Definition dashboard_project (project_data : ProjectInfo) : Idea :=
  {| idea_id := pi_id project_data;
     idea_title := pi_name project_data;
     idea_category := pi_type project_data;
     idea_priority := "medium";
     idea_effort := "medium";
     idea_status := pi_status project_data;
     idea_description :=
       "Auto-discovered " +:+ pi_type project_data +:+ " project";
     idea_tags := [pi_type project_data];
     idea_created_date := pi_discovered_at project_data;
     idea_phase := "discovery";
     idea_auto_discovered := true |}.

(** The first idea of the same id is updated in place; without one the
    new idea is appended. *)
Fixpoint merge_idea (ideas : list Idea) (new : Idea) : list Idea :=
  match ideas with
  | [] => [new]
  | idea :: rest =>
      if String.eqb (idea_id idea) (idea_id new)
      then new :: rest
      else idea :: merge_idea rest new
  end.

Definition dashboard_locations (s : State) : list Path :=
  [ "dashboard" :: "Project Management" :: base_path s;
    "dashboard" :: "Project Management" :: "active" :: base_path s;
    "dashboard" :: "Project Management" :: "staging" :: base_path s ].

Definition backlog_locations (s : State) : list Path :=
  [ "idea-backlog.json" :: "project-management" :: "Personal-OS" :: base_path s;
    "idea-backlog.json" :: "project-management" :: "Personal-OS"
      :: "active" :: base_path s;
    "idea-backlog.json" :: "systems" :: base_path s ].

(** The backlog files, by path: a path is bound when the file exists, to
    [None] when it does not parse and to its ideas otherwise. Like the
    registry file they are kept apart from the directory tree. *)
Abbreviation Backlogs := (gmap (list string) (option (list Idea))).

Definition first_that {A : Type} (f : A → bool) (l : list A) : option A :=
  head (filter (fun x => f x = true) l).

(** [update_dashboard_data]: [None] when reading the backlog raises. *)
Definition update_dashboard_data (s : State) (backlogs : Backlogs)
    (pending : list SyncEntry) : option Backlogs :=
  match first_that (path_exists (fs s)) (dashboard_locations s) with
  | None => Some backlogs
  | Some _ =>
      let backlog_file :=
        default ("idea-backlog.json" :: systems_dir s)
                (first_that (fun p => bool_decide (is_Some (backlogs !! p)))
                            (backlog_locations s)) in
      backlog ← match backlogs !! backlog_file with
                | Some (Some ideas) => Some ideas
                | Some None => None
                | None => Some []
                end;
      Some (<[backlog_file :=
                Some (foldl (fun ideas update =>
                               merge_idea ideas (dashboard_project (se_data update)))
                            backlog pending)]> backlogs)
  end.

(** [sync_with_dashboard]: everything after the existence test runs under
    one [try]/[except]. *)
Definition sync_with_dashboard (now : Z) (s : State) (backlogs : Backlogs)
  : State * Backlogs :=
  match dashboard_sync_file s with
  | Stored sync_data =>
      match pending_updates sync_data with
      | [] => (s, backlogs)
      | pending =>
          match update_dashboard_data s backlogs pending with
          | Some backlogs' =>
              (with_sync s (Stored {| pending_updates := []; last_sync := now |}),
               backlogs')
          | None => (s, backlogs)
          end
      end
  | _ => (s, backlogs)
  end.

(** [manual_sync]; the queue is processed outside any [try]. *)
Definition manual_sync (now : Z) (s : State) (backlogs : Backlogs)
  : option (State * Backlogs) :=
  s' ← process_update_queue now s;
  Some (sync_with_dashboard now s' backlogs).

End Discovery.

(** ** lifecycle-manager.py *)

Module Lifecycle.

Record Settings := {
  auto_archive_days : Z;
  cleanup_check_interval : Z;
  backup_retention_days : Z
}.

(** A record of the registry, with the keys this script reads or writes.
    [analyze_project] sets the first ten. The file is shared with
    [project-discovery-service.py], whose records carry [id], [name],
    [path], [discovered_at], [type] and [last_modified] but neither
    [size_mb], [file_count], [activity_score] nor [lifecycle_stage]: these
    are optional, and so is [last_modified], which is [None] also when its
    text is no ISO date. [title] and [description] may hold JSON [null].
    Keys that this script never reads or writes are left out; every
    operation leaves them as they are. *)
Record ProjectInfo := {
  pi_id : string;
  pi_name : string;
  pi_path : Path;
  pi_discovered_at : Z;
  pi_last_modified : option Z;
  pi_size_mb : option Q;
  pi_file_count : option nat;
  pi_type : string;
  pi_activity_score : option Q;
  pi_lifecycle_stage : option string;
  pi_title : option (option string);
  pi_tags : option (list string);
  pi_description : option (option string);
  pi_moved_at : option Z
}.

(** The registry document. A file that the discovery service created has
    no [settings] key. *)
Record Registry := {
  projects : gmap string ProjectInfo;
  last_updated : Z;
  settings : option Settings
}.

(** The manager object ([base_path], [project_registry]) and the disk it
    works on ([fs], [metadata_file]). *)
Record Manager := {
  base_path : Path;
  project_registry : Registry;
  fs : FS;
  metadata_file : JsonFile Registry
}.

Definition active_dir (m : Manager) : Path := "active" :: base_path m.
Definition staging_dir (m : Manager) : Path := "staging" :: base_path m.
Definition archive_dir (m : Manager) : Path := "archive" :: base_path m.
Definition systems_dir (m : Manager) : Path := "systems" :: base_path m.

Definition default_registry (now : Z) : Registry :=
  {| projects := ∅;
     last_updated := now;
     settings := Some {| auto_archive_days := 30;
                         cleanup_check_interval := 7;
                         backup_retention_days := 30 |} |}.

Definition stamp (now : Z) (reg : Registry) : Registry :=
  {| projects := projects reg; last_updated := now; settings := settings reg |}.

(** [save_project_registry] when the file can be written. A write that
    fails raises; where the caller catches that, in [move_project] and in
    [execute_lifecycle_action], the call goes through
    [try_save_project_registry] below. *)
Definition save_project_registry (now : Z) (m : Manager) : Manager :=
  let reg := stamp now (project_registry m) in
  {| base_path := base_path m;
     project_registry := reg;
     fs := fs m;
     metadata_file := Stored reg |}.

(** [load_project_registry] as run by [__init__]: read or default, then
    save. [json.load] is not guarded. *)
Definition load_project_registry (now : Z) (base : Path) (disk : FS)
    (file : JsonFile Registry) : option Manager :=
  reg ← match file with
        | Stored doc => Some doc
        | Garbled => None
        | Absent => Some (default_registry now)
        end;
  Some (save_project_registry now
          {| base_path := base; project_registry := reg;
             fs := disk; metadata_file := file |}).

(** *** Classification *)

Definition files_only (entries : list (Path * Node)) : list (Path * Node) :=
  filter (fun e => is_file_node (snd e) = true) entries.

Definition any_in (names pool : list string) : bool :=
  existsb (fun n => str_in n pool) names.

Definition classify_project_type (disk : FS) (project_path : Path) : string :=
  let files := rglob disk project_path in
  let file_extensions :=
    map (fun e => lower (suffix_of_name (path_name (fst e)))) (files_only files) in
  let file_names :=
    map (fun e => lower (path_name (fst e))) (files_only files) in
  let mentions word :=
    existsb (fun e => contains word (lower (path_str (fst e)))) files in
  if any_in ["package.json"; "requirements.txt"; "cargo.toml"; "go.mod"] file_names
  then "development"
  else if any_in ["claude.md"; "project-notes.md"; "todo.md"] file_names
  then "claude-project"
  else if str_in ".py" file_extensions && mentions "scraper"
  then "scraper"
  else if any_in [".csv"; ".xlsx"; ".json"] file_extensions
          && (length files <? 50)%nat
  then "data-analysis"
  else if any_in ["dashboard.html"; "index.html"] file_names
  then "dashboard"
  else if (length files <? 10)%nat then "one-off"
  else if mentions "system" || mentions "tool" then "system-tool"
  else "ongoing".

(** [(now - mod_time).days]: whole days, rounded towards minus infinity. *)
Definition days_between (now then_ : Z) : Z := (now - then_) / 86400.

Definition recency_weight (days_ago : Z) : Z :=
  if days_ago =? 0 then 10
  else if days_ago <=? 7 then 5
  else if days_ago <=? 30 then 2
  else if days_ago <=? 90 then 1
  else 0.

(** The loop of [calculate_activity_score] over the entries that [rglob]
    yields: [stat()] is not guarded, so the first file on which it raises
    ends the computation. *)
Fixpoint activity_walk (now : Z) (entries : list (Path * Node))
    (total_score file_count : Z) : option (Z * Z) :=
  match entries with
  | [] => Some (total_score, file_count)
  | (_, Dir _) :: rest => activity_walk now rest total_score file_count
  | (_, File None) :: _ => None
  | (_, File (Some st)) :: rest =>
      activity_walk now rest
        (total_score + recency_weight (days_between now (st_mtime st)))
        (file_count + 1)
  end.

(** [total_score / max(file_count, 1)]. *)
Definition score_of (total_score file_count : Z) : Q :=
  total_score # Z.to_pos (Z.max file_count 1).

Definition calculate_activity_score (now : Z) (disk : FS) (project_path : Path)
  : option Q :=
  r ← activity_walk now (rglob disk project_path) 0 0;
  Some (score_of r.1 r.2).

Definition q_gt (a b : Q) : bool := negb (Qle_bool a b).

Definition determine_lifecycle_stage (now : Z) (disk : FS) (project_path : Path)
  : option string :=
  let parent_dir := path_name (path_parent project_path) in
  if String.eqb parent_dir "active" then Some "active"
  else if String.eqb parent_dir "staging" then Some "staging"
  else if String.eqb parent_dir "archive" then Some "archived"
  else if String.eqb parent_dir "systems" then Some "system"
  else
    activity_score ← calculate_activity_score now disk project_path;
    if q_gt activity_score 5 then Some "should_be_active"
    else if q_gt activity_score 1 then Some "should_be_staging"
    else Some "should_be_archived".

(** The loop of [get_directory_size]: the whole loop sits in one
    [try]/[except], so the first failing [stat()] ends the walk and the
    bytes counted so far are kept. *)
Fixpoint size_walk (entries : list (Path * Node)) (total_size : Z) : Z :=
  match entries with
  | [] => total_size
  | (_, Dir _) :: rest => size_walk rest total_size
  | (_, File None) :: _ => total_size
  | (_, File (Some st)) :: rest => size_walk rest (total_size + st_size st)
  end.

(** [round(num / den, 2)] in hundredths, ties to even. *)
Definition round_hundredths (num den : Z) : Z :=
  let q := (100 * num) / den in
  let r := (100 * num) mod den in
  if 2 * r <? den then q
  else if den <? 2 * r then q + 1
  else if Z.even q then q else q + 1.

Definition get_directory_size (disk : FS) (path : Path) : Q :=
  round_hundredths (size_walk (rglob disk path) 0) (1024 * 1024) # 100.

(** *** Analysis and discovery *)

(** The keys [extract_project_metadata] may add to a record. *)
Record Metadata := {
  md_title : option (option string);
  md_tags : option (list string);
  md_description : option (option string)
}.

Definition or_old {A : Type} (new old : option A) : option A :=
  match new with Some _ => new | None => old end.

(** [old.update(new)]: a key that [new] carries replaces the old value, a
    key that it lacks keeps it. A freshly analysed [new] never carries
    [moved_at]. *)
Definition update_info (old new : ProjectInfo) : ProjectInfo :=
  {| pi_id := pi_id new;
     pi_name := pi_name new;
     pi_path := pi_path new;
     pi_discovered_at := pi_discovered_at new;
     pi_last_modified := or_old (pi_last_modified new) (pi_last_modified old);
     pi_size_mb := or_old (pi_size_mb new) (pi_size_mb old);
     pi_file_count := or_old (pi_file_count new) (pi_file_count old);
     pi_type := pi_type new;
     pi_activity_score := or_old (pi_activity_score new) (pi_activity_score old);
     pi_lifecycle_stage :=
       or_old (pi_lifecycle_stage new) (pi_lifecycle_stage old);
     pi_title := or_old (pi_title new) (pi_title old);
     pi_tags := or_old (pi_tags new) (pi_tags old);
     pi_description := or_old (pi_description new) (pi_description old);
     pi_moved_at := or_old (pi_moved_at new) (pi_moved_at old) |}.

Definition with_projects (m : Manager) (ps : gmap string ProjectInfo) : Manager :=
  {| base_path := base_path m;
     project_registry :=
       {| projects := ps;
          last_updated := last_updated (project_registry m);
          settings := settings (project_registry m) |};
     fs := fs m;
     metadata_file := metadata_file m |}.

Definition with_fs (m : Manager) (disk : FS) : Manager :=
  {| base_path := base_path m;
     project_registry := project_registry m;
     fs := disk;
     metadata_file := metadata_file m |}.

Section with_file_contents.

(** [extract_project_metadata] reads the text of [CLAUDE.md] and
    [package.json]; file contents are not part of [FS], so its result is
    taken as given. It guards its own reads and only ever sets the three
    keys of [Metadata]. *)
Variable extract_project_metadata : FS → Path → Metadata.

Definition analyze_project (now : Z) (disk : FS) (project_path : Path)
  : option ProjectInfo :=
  last_modified ← stat_mtime disk project_path;
  let size_mb := get_directory_size disk project_path in
  let file_count := length (rglob disk project_path) in
  let project_type := classify_project_type disk project_path in
  activity_score ← calculate_activity_score now disk project_path;
  current_stage ← determine_lifecycle_stage now disk project_path;
  let metadata := extract_project_metadata disk project_path in
  Some {| pi_id := path_name project_path;
          pi_name := path_name project_path;
          pi_path := project_path;
          pi_discovered_at := now;
          pi_last_modified := Some last_modified;
          pi_size_mb := Some size_mb;
          pi_file_count := Some file_count;
          pi_type := project_type;
          pi_activity_score := Some activity_score;
          pi_lifecycle_stage := Some current_stage;
          pi_title := md_title metadata;
          pi_tags := md_tags metadata;
          pi_description := md_description metadata;
          pi_moved_at := None |}.

Definition scanned (disk : FS) (item : Path) : bool :=
  is_dir disk item
  && negb (String.prefix "." (path_name item))
  && negb (str_in (path_name item) ["systems"; "active"; "staging"; "archive"]).

(** One turn of the loop of [discover_projects]. *)
Definition discover_item (now : Z) (acc : list ProjectInfo * Manager) (item : Path)
  : option (list ProjectInfo * Manager) :=
  let '(discovered_projects, m) := acc in
  if scanned (fs m) item then
    project_info ← analyze_project now (fs m) item;
    let project_id := pi_id project_info in
    let ps := projects (project_registry m) in
    let ps' :=
      match ps !! project_id with
      | None => <[project_id := project_info]> ps
      | Some old => <[project_id := update_info old project_info]> ps
      end in
    Some (discovered_projects ++ [project_info], with_projects m ps')
  else Some acc.

Definition discover_projects (now : Z) (m : Manager) (scan_root : option Path)
  : option (list ProjectInfo * Manager) :=
  let root := default (base_path m) scan_root in
  items ← iterdir (fs m) root;
  r ← foldlM (discover_item now) ([], m) items;
  Some (r.1, save_project_registry now r.2).

End with_file_contents.

(** *** Suggestions *)

(** The [reason] text of a suggestion, by the values it is formatted from. *)
Inductive Reason :=
| DirectoryGone
| ActivityAndInactivity (activity_score : Q) (days_inactive : Z)
| InactiveFor (days_inactive threshold : Z)
| LargeProject (size_mb : Q).

Record Suggestion := {
  sg_action : string;
  sg_project : string;
  sg_from : option Path;
  sg_to : option string;
  sg_reason : Reason;
  sg_priority : string
}.

Definition should_be_stages : list string :=
  ["should_be_active"; "should_be_staging"; "should_be_archived"].

(** [current_stage.replace('should_be_', '')] on a stage that is one of
    [should_be_stages]: what follows the ten characters of the prefix. *)
Definition target_of (current_stage : string) : string :=
  String.substring 10 (String.length current_stage - 10) current_stage.

(** The body of the loop of [suggest_lifecycle_actions] for one entry.
    For an entry whose directory exists the loop indexes [lifecycle_stage],
    [last_modified], [settings] and [size_mb] without a guard
    ([activity_score] is read with a default): [None] is the [KeyError], or
    the [ValueError] of a date that does not parse, that a record or a
    registry without them raises. *)
Definition suggest_for (now : Z) (m : Manager) (entry : string * ProjectInfo)
  : option (list Suggestion) :=
  let '(project_id, project_info) := entry in
  if negb (path_exists (fs m) (pi_path project_info)) then
    Some [ {| sg_action := "remove_registry_entry"; sg_project := project_id;
              sg_from := None; sg_to := None;
              sg_reason := DirectoryGone; sg_priority := "high" |} ]
  else
    current_stage ← pi_lifecycle_stage project_info;
    let activity_score := default 0%Q (pi_activity_score project_info) in
    last_modified ← pi_last_modified project_info;
    let days_inactive := days_between now last_modified in
    registry_settings ← settings (project_registry m);
    let threshold := auto_archive_days registry_settings in
    size_mb ← pi_size_mb project_info;
    Some
      ((if str_in current_stage should_be_stages then
          [ {| sg_action := "move_project"; sg_project := project_id;
               sg_from := Some (pi_path project_info);
               sg_to := Some (target_of current_stage);
               sg_reason := ActivityAndInactivity activity_score days_inactive;
               sg_priority := "medium" |} ]
        else [])
       ++ (if (threshold <? days_inactive)
              && negb (str_in current_stage ["archived"; "system"]) then
             [ {| sg_action := "auto_archive"; sg_project := project_id;
                  sg_from := None; sg_to := None;
                  sg_reason := InactiveFor days_inactive threshold;
                  sg_priority := "low" |} ]
           else [])
       ++ (if q_gt size_mb 100 then
             [ {| sg_action := "review_cleanup"; sg_project := project_id;
                  sg_from := None; sg_to := None;
                  sg_reason := LargeProject size_mb;
                  sg_priority := "low" |} ]
           else [])).

(** [suggest_lifecycle_actions]: the entries are visited in the order the
    map yields them (insertion order in Python); no suggestion depends on
    another entry, but an exception at one entry leaves the call without a
    result. *)
Definition suggest_lifecycle_actions (now : Z) (m : Manager)
  : option (list Suggestion) :=
  per_entry ← mapM (suggest_for now m)
                   (map_to_list (projects (project_registry m)));
  Some (concat per_entry).

(** *** Moves *)

(** What [shutil.move] did: it returned, or it raised, and either way it
    left some disk behind. *)
Inductive MoveOutcome :=
| Moved (disk : FS)
| MoveRaised (disk : FS).

Definition target_dirs (m : Manager) (target_stage : string) : option Path :=
  if String.eqb target_stage "active" then Some (active_dir m)
  else if String.eqb target_stage "staging" then Some (staging_dir m)
  else if String.eqb target_stage "archived" then Some (archive_dir m)
  else if String.eqb target_stage "system" then Some (systems_dir m)
  else None.

(** The record after [project_info['path']], [['lifecycle_stage']] and
    [['moved_at']] have been assigned. *)
Definition moved_info (info : ProjectInfo) (target_path : Path)
    (target_stage : string) (now : Z) : ProjectInfo :=
  {| pi_id := pi_id info;
     pi_name := pi_name info;
     pi_path := target_path;
     pi_discovered_at := pi_discovered_at info;
     pi_last_modified := pi_last_modified info;
     pi_size_mb := pi_size_mb info;
     pi_file_count := pi_file_count info;
     pi_type := pi_type info;
     pi_activity_score := pi_activity_score info;
     pi_lifecycle_stage := Some target_stage;
     pi_title := pi_title info;
     pi_tags := pi_tags info;
     pi_description := pi_description info;
     pi_moved_at := Some now |}.

(** What writing the registry file did: [open] and [json.dump] returned,
    or one of them raised and left the file as [file_left] (as it was, emptied
    or cut short). *)
Inductive SaveOutcome :=
| Saved
| SaveRaised (file_left : JsonFile Registry).

Section with_shutil.

Variable shutil_move : FS → Path → Path → MoveOutcome.

(** Whether the registry can be written is decided outside these scripts;
    it is taken as given for the manager that is about to be saved. *)
Variable write_registry : Manager → SaveOutcome.

(** [save_project_registry] where its caller catches what it raises:
    [last_updated] is stamped in memory before the file is opened. *)
Definition try_save_project_registry (now : Z) (m : Manager) : bool * Manager :=
  match write_registry m with
  | Saved => (true, save_project_registry now m)
  | SaveRaised file_left =>
      (false,
       {| base_path := base_path m;
          project_registry := stamp now (project_registry m);
          fs := fs m;
          metadata_file := file_left |})
  end.

(** [move_project]: the move, the three assignments to the record, which
    is the registry's own, and the save all sit in one [try]; whatever
    raises there is answered with [False]. *)
Definition move_project (now : Z) (m : Manager) (project_id target_stage : string)
  : bool * Manager :=
  match projects (project_registry m) !! project_id with
  | None => (false, m)
  | Some project_info =>
      let current_path := pi_path project_info in
      match target_dirs m target_stage with
      | None => (false, m)
      | Some target_dir =>
          let target_path := project_id :: target_dir in
          if path_exists (fs m) target_path then (false, m)
          else
            match shutil_move (fs m) current_path target_path with
            | MoveRaised disk => (false, with_fs m disk)
            | Moved disk =>
                let info' := moved_info project_info target_path target_stage now in
                try_save_project_registry now
                  (with_projects (with_fs m disk)
                     (<[project_id := info']> (projects (project_registry m))))
            end
      end
  end.

Definition archive_project (now : Z) (m : Manager) (project_id : string)
  : bool * Manager :=
  move_project now m project_id "archived".

(** [execute_lifecycle_action]: a missing key in the action or in the
    registry raises inside the [try] and comes back as [False], and so
    does a save that fails after the entry has been deleted. *)
Definition execute_lifecycle_action (now : Z) (m : Manager) (action : Suggestion)
  : bool * Manager :=
  if String.eqb (sg_action action) "move_project" then
    match sg_to action with
    | Some to => move_project now m (sg_project action) to
    | None => (false, m)
    end
  else if String.eqb (sg_action action) "auto_archive" then
    archive_project now m (sg_project action)
  else if String.eqb (sg_action action) "remove_registry_entry" then
    match projects (project_registry m) !! sg_project action with
    | Some _ =>
        try_save_project_registry now
          (with_projects m (delete (sg_project action)
                                   (projects (project_registry m))))
    | None => (false, m)
    end
  else if String.eqb (sg_action action) "review_cleanup" then (true, m)
  else (false, m).

End with_shutil.

(** *** Reports *)

(** One turn of the loop of [cleanup_old_archives]: [lifecycle_stage] is
    indexed for every entry, [last_modified] for the archived ones. *)
Definition old_archive (cutoff_date : Z) (entry : string * ProjectInfo)
  : option (list string) :=
  stage ← pi_lifecycle_stage (snd entry);
  if String.eqb stage "archived" then
    last_modified ← pi_last_modified (snd entry);
    Some (if last_modified <? cutoff_date then [fst entry] else [])
  else Some [].

(** [cleanup_old_archives]: the ids are listed in the order the map
    yields them. *)
Definition cleanup_old_archives (now : Z) (m : Manager) (days_old : Z)
  : option (list string) :=
  let cutoff_date := now - days_old * 86400 in
  per_entry ← mapM (old_archive cutoff_date)
                   (map_to_list (projects (project_registry m)));
  Some (concat per_entry).

Record Report := {
  rp_timestamp : Z;
  rp_total_projects : nat;
  rp_by_stage : gmap string nat;
  rp_by_type : gmap string nat;
  rp_total_size_mb : Q;
  rp_suggestions : list Suggestion;
  rp_old_archives : list string
}.

(** [counts[key] = counts.get(key, 0) + 1]. *)
Definition bump (key : string) (counts : gmap string nat) : gmap string nat :=
  <[key := S (default 0%nat (counts !! key))]> counts.

(** [generate_lifecycle_report]: the suggestions and the old archives are
    computed first; the loop then indexes [lifecycle_stage] without a
    guard and reads [size_mb] with a default. *)
Definition generate_lifecycle_report (now : Z) (m : Manager) : option Report :=
  suggestions ← suggest_lifecycle_actions now m;
  old_archives ← cleanup_old_archives now m 365;
  let infos := map snd (map_to_list (projects (project_registry m))) in
  by_stage ← foldlM (fun counts info =>
                       stage ← pi_lifecycle_stage info;
                       Some (bump stage counts)) ∅ infos;
  Some {| rp_timestamp := now;
          rp_total_projects := size (projects (project_registry m));
          rp_by_stage := by_stage;
          rp_by_type :=
            foldl (fun counts info => bump (pi_type info) counts) ∅ infos;
          rp_total_size_mb :=
            foldl (fun total info =>
                     (total + default 0%Q (pi_size_mb info))%Q) 0%Q infos;
          rp_suggestions := suggestions;
          rp_old_archives := old_archives |}.

Section with_shutil_auto.

Variable shutil_move : FS → Path → Path → MoveOutcome.
Variable write_registry : Manager → SaveOutcome.

(** The test that the [--auto] mode of [main] applies to a suggestion. *)
Definition auto_eligible (suggestion : Suggestion) : bool :=
  str_in (sg_priority suggestion) ["low"; "medium"]
  && negb (String.eqb (sg_action suggestion) "review_cleanup").

(** One turn of the [--auto] loop of [main]. *)
Definition auto_step (now : Z) (acc : nat * Manager) (suggestion : Suggestion)
  : nat * Manager :=
  if auto_eligible suggestion then
    let r := execute_lifecycle_action shutil_move write_registry now
               (snd acc) suggestion in
    (if fst r then S (fst acc) else fst acc, snd r)
  else acc.

(** The [execute --auto] action of [main]: the suggestions are computed
    once, then executed in turn on the evolving manager. *)
Definition auto_execute (now : Z) (m : Manager) : option (nat * Manager) :=
  suggestions ← suggest_lifecycle_actions now m;
  Some (foldl (auto_step now) (0%nat, m) suggestions).

End with_shutil_auto.

End Lifecycle.

(** ** Sample trees and oracles

    Small concrete inputs on which the definitions above are evaluated. *)

Module Samples.

Definition home : Path := ["os"; "home"].

Definition plain_file (mtime size : Z) : Node :=
  File (Some {| st_mtime := mtime; st_size := size |}).

(** [/home/os/active/foo] holds both [CLAUDE.md] and [package.json]. *)
Definition both_markers : FS :=
  list_to_map
    [ (home, Dir 0);
      ("active" :: home, Dir 0);
      ("foo" :: "active" :: home, Dir 5);
      ("CLAUDE.md" :: "foo" :: "active" :: home, plain_file 5 10);
      ("package.json" :: "foo" :: "active" :: home, plain_file 5 10) ].

Definition foo : Path := "foo" :: "active" :: home.

(** [/home/os/backups] holds a [CLAUDE.md] and a [package.json]. *)
Definition backups_tree : FS :=
  list_to_map
    [ (home, Dir 0);
      ("backups" :: home, Dir 3);
      ("CLAUDE.md" :: "backups" :: home, plain_file 3 10);
      ("package.json" :: "backups" :: home, plain_file 3 10) ].

Definition no_metadata (_ : FS) (_ : Path) : Lifecycle.Metadata :=
  {| Lifecycle.md_title := None;
     Lifecycle.md_tags := None;
     Lifecycle.md_description := None |}.

(** [/home/os/bar] holds one file that cannot be read and one that can. *)
Definition unreadable_tree : FS :=
  list_to_map
    [ (home, Dir 0);
      ("bar" :: home, Dir 7);
      ("a.txt" :: "bar" :: home, File None);
      ("b.txt" :: "bar" :: home, plain_file 86400 10) ].

Definition bar : Path := "bar" :: home.

(** [/home/os/fresh] holds two files, both one hour old at time 90000;
    [/home/os/empty] holds nothing. *)
Definition fresh_tree : FS :=
  list_to_map
    [ (home, Dir 0);
      ("fresh" :: home, Dir 7);
      ("a.txt" :: "fresh" :: home, plain_file 86400 10);
      ("b.txt" :: "fresh" :: home, plain_file 86400 2000000);
      ("empty" :: home, Dir 7) ].

(** A [shutil.move] for trees in which nothing else goes wrong: it raises
    when the source is missing or the destination's parent is not a
    directory, and otherwise re-roots every entry at or below the source. *)
Definition reroot (src dst q : Path) : Path :=
  if bool_decide (src `suffix_of` q)
  then take (length q - length src) q ++ dst
  else q.

Definition rename_tree (disk : FS) (src dst : Path) : Lifecycle.MoveOutcome :=
  if path_exists disk src && is_dir disk (path_parent dst)
  then Lifecycle.Moved
         (list_to_map (map (fun e => (reroot src dst (fst e), snd e))
                           (map_to_list disk)))
  else Lifecycle.MoveRaised disk.

(** [/home/os] with the four lifecycle roots, a project [foo] at top level
    holding one file written at time 86400, and a project [old] that
    already sits in [archive]. *)
Definition workspace : FS :=
  list_to_map
    [ (home, Dir 0);
      ("active" :: home, Dir 0);
      ("staging" :: home, Dir 0);
      ("archive" :: home, Dir 0);
      ("systems" :: home, Dir 0);
      ("foo" :: home, Dir 86400);
      ("notes.txt" :: "foo" :: home, plain_file 86400 10);
      ("old" :: "archive" :: home, Dir 100) ].

Definition sample_info (name : string) (path : Path) (stage : string)
  : Lifecycle.ProjectInfo :=
  {| Lifecycle.pi_id := name;
     Lifecycle.pi_name := name;
     Lifecycle.pi_path := path;
     Lifecycle.pi_discovered_at := 0;
     Lifecycle.pi_last_modified := Some 86400;
     Lifecycle.pi_size_mb := Some 0%Q;
     Lifecycle.pi_file_count := Some 1%nat;
     Lifecycle.pi_type := "one-off";
     Lifecycle.pi_activity_score := Some 10%Q;
     Lifecycle.pi_lifecycle_stage := Some stage;
     Lifecycle.pi_title := None;
     Lifecycle.pi_tags := None;
     Lifecycle.pi_description := None;
     Lifecycle.pi_moved_at := None |}.

(** A registry file that can be written, and one that cannot: opening it
    raises and leaves it as it is. *)
Definition always_saved (_ : Lifecycle.Manager) : Lifecycle.SaveOutcome :=
  Lifecycle.Saved.

Definition read_only_registry (m : Lifecycle.Manager) : Lifecycle.SaveOutcome :=
  Lifecycle.SaveRaised (Lifecycle.metadata_file m).

(** A record as [project-discovery-service.py] writes it to the shared
    registry file: no [size_mb], [file_count], [activity_score] or
    [lifecycle_stage]. *)
Definition discovered_info (name : string) (path : Path)
  : Lifecycle.ProjectInfo :=
  {| Lifecycle.pi_id := name;
     Lifecycle.pi_name := name;
     Lifecycle.pi_path := path;
     Lifecycle.pi_discovered_at := 0;
     Lifecycle.pi_last_modified := Some 86400;
     Lifecycle.pi_size_mb := None;
     Lifecycle.pi_file_count := None;
     Lifecycle.pi_type := "general";
     Lifecycle.pi_activity_score := None;
     Lifecycle.pi_lifecycle_stage := None;
     Lifecycle.pi_title := None;
     Lifecycle.pi_tags := None;
     Lifecycle.pi_description := None;
     Lifecycle.pi_moved_at := None |}.

(** A manager whose registry knows [foo] (at top level), [old] (recorded
    at top level, while a directory of that name sits in [archive]) and
    [gone] (whose directory is no longer there). *)
Definition sample_registry : Lifecycle.Registry :=
  {| Lifecycle.projects :=
       list_to_map
         [ ("foo", sample_info "foo" ("foo" :: home) "should_be_active");
           ("old", sample_info "old" ("old" :: home) "should_be_archived");
           ("gone", sample_info "gone" ("gone" :: home) "should_be_archived") ];
     Lifecycle.last_updated := 0;
     Lifecycle.settings := Lifecycle.settings (Lifecycle.default_registry 0) |}.

Definition sample_manager : Lifecycle.Manager :=
  {| Lifecycle.base_path := home;
     Lifecycle.project_registry := sample_registry;
     Lifecycle.fs := workspace;
     Lifecycle.metadata_file := Stored sample_registry |}.

(** The manager as its constructor leaves it on [workspace] when there is
    no registry file yet. *)
Definition new_manager : Lifecycle.Manager :=
  Lifecycle.save_project_registry 0
    {| Lifecycle.base_path := home;
       Lifecycle.project_registry := Lifecycle.default_registry 0;
       Lifecycle.fs := workspace;
       Lifecycle.metadata_file := Absent |}.

(** A template generator that writes two files and removes the prompt. *)
Definition two_file_template (_ : FS) (_ : Path) (_ : string)
  : Discovery.TemplateWrites :=
  {| Discovery.written := [(".env", 20); (".gitignore", 30)];
     Discovery.prompt_removed := true |}.

(** [/home/os] with the template generator installed, a Python project in
    [active], a project at top level and a directory that is none. *)
Definition watched_tree : FS :=
  list_to_map
    [ (home, Dir 0);
      ("active" :: home, Dir 0);
      ("systems" :: home, Dir 0);
      ("secure-template-generator.py" :: "systems" :: home, plain_file 0 900);
      ("foo" :: "active" :: home, Dir 5);
      ("requirements.txt" :: "foo" :: "active" :: home, plain_file 5 10);
      ("bar" :: home, Dir 6);
      ("README.md" :: "bar" :: home, plain_file 6 10);
      ("index.html" :: "bar" :: home, plain_file 6 10);
      ("baz" :: home, Dir 7);
      ("README.md" :: "baz" :: home, plain_file 7 10) ].

(** The service as its constructor leaves it on [watched_tree] when there
    is no registry file yet. *)
Definition new_service : Discovery.State :=
  {| Discovery.base_path := home;
     Discovery.registry := Discovery.default_registry 0;
     Discovery.known_projects := ∅;
     Discovery.update_queue := ∅;
     Discovery.fs := watched_tree;
     Discovery.registry_file := Absent;
     Discovery.dashboard_sync_file := Absent |}.

(** The record a quick analysis at time 10 left for [bar], with the
    priority that the migration tool has added to it since. *)
Definition bar_record : Discovery.ProjectInfo :=
  {| Discovery.pi_id := "bar";
     Discovery.pi_name := "bar";
     Discovery.pi_path := bar;
     Discovery.pi_discovered_at := 10;
     Discovery.pi_type := "web-project";
     Discovery.pi_status := "discovered";
     Discovery.pi_last_modified := 6;
     Discovery.pi_last_updated := None;
     Discovery.pi_other := {[ "priority" := "high" ]} |}.

Definition bar_registry : Discovery.Registry :=
  {| Discovery.projects := {[ "bar" := bar_record ]};
     Discovery.last_updated := 10;
     Discovery.discovery_settings :=
       Discovery.discovery_settings (Discovery.default_registry 0) |}.

Definition bar_update : Discovery.SyncEntry :=
  {| Discovery.se_project_id := "bar";
     Discovery.se_action := "update";
     Discovery.se_data := bar_record;
     Discovery.se_timestamp := 10 |}.

(** A service on [watched_tree] that has registered [bar] and has not yet
    mirrored it to the dashboard. *)
Definition idle_service : Discovery.State :=
  {| Discovery.base_path := home;
     Discovery.registry := bar_registry;
     Discovery.known_projects := {[ "bar" ]};
     Discovery.update_queue := ∅;
     Discovery.fs := watched_tree;
     Discovery.registry_file := Stored bar_registry;
     Discovery.dashboard_sync_file :=
       Stored {| Discovery.pending_updates := [bar_update];
                 Discovery.last_sync := 10 |} |}.

(** The same service once a change below [bar] has been queued. *)
Definition running_service : Discovery.State :=
  Discovery.with_queue idle_service {[ "bar" ]}.


(** [watched_tree] with a dashboard directory at the top level. *)
Definition dashboard_tree : FS :=
  <["dashboard" :: "Project Management" :: home := Dir 8]>
    (<["Project Management" :: home := Dir 8]> watched_tree).

Definition dashboard_service : Discovery.State :=
  Discovery.with_fs idle_service dashboard_tree.

(** One backlog file, in [systems], that already lists [bar]. *)
Definition one_backlog : Discovery.Backlogs :=
  {[ "idea-backlog.json" :: "systems" :: home
     := Some [Discovery.dashboard_project bar_record] ]}.

(** The move that [sample_manager] suggests for [foo] at time 90000. *)
Definition move_foo : Lifecycle.Suggestion :=
  {| Lifecycle.sg_action := "move_project";
     Lifecycle.sg_project := "foo";
     Lifecycle.sg_from := Some ("foo" :: home);
     Lifecycle.sg_to := Some "active";
     Lifecycle.sg_reason := Lifecycle.ActivityAndInactivity 10 0;
     Lifecycle.sg_priority := "medium" |}.

(** A large project that already sits in [archive]. *)
Definition archived_info : Lifecycle.ProjectInfo :=
  {| Lifecycle.pi_id := "old";
     Lifecycle.pi_name := "old";
     Lifecycle.pi_path := "old" :: "archive" :: home;
     Lifecycle.pi_discovered_at := 0;
     Lifecycle.pi_last_modified := Some 100;
     Lifecycle.pi_size_mb := Some 250%Q;
     Lifecycle.pi_file_count := Some 1%nat;
     Lifecycle.pi_type := "one-off";
     Lifecycle.pi_activity_score := Some 0%Q;
     Lifecycle.pi_lifecycle_stage := Some "archived";
     Lifecycle.pi_title := None;
     Lifecycle.pi_tags := None;
     Lifecycle.pi_description := None;
     Lifecycle.pi_moved_at := Some 50 |}.

(** The manager on a registry file that both scripts have written: [gone],
    a record of this script whose directory is no longer there, and [foo],
    registered by the discovery service, whose directory exists. *)
Definition shared_manager : Lifecycle.Manager :=
  Lifecycle.with_projects sample_manager
    {[ "gone" := sample_info "gone" ("gone" :: home) "should_be_archived";
       "foo" := discovered_info "foo" ("foo" :: home) ]}.

Definition settled_manager : Lifecycle.Manager :=
  Lifecycle.with_projects new_manager {[ "old" := archived_info ]}.

Definition review_old : Lifecycle.Suggestion :=
  {| Lifecycle.sg_action := "review_cleanup";
     Lifecycle.sg_project := "old";
     Lifecycle.sg_from := None;
     Lifecycle.sg_to := None;
     Lifecycle.sg_reason := Lifecycle.LargeProject 250;
     Lifecycle.sg_priority := "low" |}.

(** [dashboard_service] once a change below [bar] has been queued. *)
Definition syncing_service : Discovery.State :=
  Discovery.with_queue dashboard_service {[ "bar" ]}.


End Samples.

(** ** Notions of the specification

    Definitions that follow the wording of the specification, to be
    compared with the code's. *)

Module Spec.

(** The markers that qualify a directory only in pairs. *)
Definition weak_markers : list string :=
  ["Cargo.toml"; "go.mod"; "README.md"; "index.html"; ".gitignore"].

(** The markers that qualify a directory on their own. *)
Definition strong_markers : list string :=
  ["CLAUDE.md"; "package.json"; "requirements.txt"].

Definition markers_present (disk : FS) (path : Path) (markers : list string) : nat :=
  length (filter (fun n => path_exists disk (n :: path) = true) markers).

(** The stages a location confirms. *)
Definition confirmed_stages : list string :=
  ["active"; "staging"; "archived"; "system"].

(** The directory names that confirm a stage. *)
Definition lifecycle_roots : list string :=
  ["active"; "staging"; "archive"; "systems"].

(** A walk entry on which [stat()] returns. *)
Definition stat_succeeds (e : Path * Node) : Prop := snd e ≠ File None.

(** A walk entry that is a directory, or a readable file modified within
    the last day. *)
Definition modified_same_day (now : Z) (e : Path * Node) : Prop :=
  match snd e with
  | File (Some st) => Lifecycle.days_between now (st_mtime st) = 0
  | File None => False
  | Dir _ => True
  end.

(** The entries of a walk that come before the first failing [stat()]. *)
Fixpoint before_first_failure (entries : list (Path * Node)) : list (Path * Node) :=
  match entries with
  | [] => []
  | (_, File None) :: _ => []
  | e :: rest => e :: before_first_failure rest
  end.

(** The bytes held by the readable files of a list of entries. *)
Definition bytes_of (entries : list (Path * Node)) : Z :=
  foldr (fun e acc => match snd e with
                      | File (Some st) => st_size st + acc
                      | _ => acc
                      end) 0 entries.

(** The one suggestion expected for an entry whose directory is gone. *)
Definition removal_suggestion (project_id : string) : Lifecycle.Suggestion :=
  {| Lifecycle.sg_action := "remove_registry_entry";
     Lifecycle.sg_project := project_id;
     Lifecycle.sg_from := None;
     Lifecycle.sg_to := None;
     Lifecycle.sg_reason := Lifecycle.DirectoryGone;
     Lifecycle.sg_priority := "high" |}.

End Spec.

(** ** Invariants of the full scan

    The predicates in which the behaviour of [discover_all_projects] over
    a whole scan is expressed. *)

(** The part of the disk that a scan step on [item] leaves alone. *)
Record Frame (item : Path) (s s' : Discovery.State) : Prop := {
  frame_base : Discovery.base_path s' = Discovery.base_path s;
  frame_known : Discovery.known_projects s ⊆ Discovery.known_projects s';
  frame_is_dir : ∀ q, is_dir (Discovery.fs s') q = is_dir (Discovery.fs s) q;
  frame_exists :
    ∀ q, (∀ n, q ≠ n :: item) →
         path_exists (Discovery.fs s') q = path_exists (Discovery.fs s) q
}.

(** A directory is covered when, should it be a project directory, its
    name is among the known projects. *)
Definition Covered (s : Discovery.State) (q : Path) : Prop :=
  is_dir (Discovery.fs s) q = true →
  Discovery.is_project_directory (Discovery.fs s) q = true →
  path_name q ∈ Discovery.known_projects s.

(** What a whole scan preserves. *)
Record Mono (s s' : Discovery.State) : Prop := {
  mono_base : Discovery.base_path s' = Discovery.base_path s;
  mono_is_dir : ∀ q, is_dir (Discovery.fs s') q = is_dir (Discovery.fs s) q;
  mono_covered : ∀ q, Covered s q → Covered s' q;
  mono_shallow :
    ∀ q, (length q ≤ S (length (Discovery.base_path s)))%nat →
         path_exists (Discovery.fs s') q = path_exists (Discovery.fs s) q
}.

(** A watched directory is settled when a scan has nothing left to do in
    it. *)
Definition Settled (s : Discovery.State) (watch_dir : Path) : Prop :=
  path_exists (Discovery.fs s) watch_dir = true →
  is_dir (Discovery.fs s) watch_dir = true
  ∧ ∀ q, child_of watch_dir q = true → Covered s q.

(** The memory of the service agrees with the registry file: the known
    ids are those of the registry, and reading the file back yields the
    registry's projects. *)
Definition InSync (s : Discovery.State) : Prop :=
  Discovery.known_projects s = dom (Discovery.projects (Discovery.registry s))
  ∧ ∀ now, Discovery.projects <$> Discovery.load_registry now (Discovery.registry_file s)
           = Some (Discovery.projects (Discovery.registry s)).

(** ** Notions used by the further properties *)

(** The registry is keyed by directory name: each record sits under the
    name of its path, carries it as id and name, and its status is the one
    its location gives. *)
Definition Keyed (s : Discovery.State) : Prop :=
  ∀ k r, Discovery.projects (Discovery.registry s) !! k = Some r →
         Discovery.pi_id r = k
         ∧ Discovery.pi_name r = k
         ∧ path_name (Discovery.pi_path r) = k
         ∧ Discovery.pi_status r = Discovery.quick_status (Discovery.pi_path r).

(** What [check_new_project] leaves when it answers [True] for [path]. *)
Definition Registered (now : Z) (s s' : Discovery.State) (path : Path) : Prop :=
  (path_name path ∉ Discovery.known_projects s)
  ∧ Discovery.is_project_directory (Discovery.fs s') path = true
  ∧ ∃ info,
      Discovery.analyze_project_quick now (Discovery.fs s') path = Some info
      ∧ Discovery.projects (Discovery.registry s')
        = <[path_name path := info]> (Discovery.projects (Discovery.registry s))
      ∧ Discovery.known_projects s'
        = {[path_name path]} ∪ Discovery.known_projects s
      ∧ Discovery.registry_file s' = Stored (Discovery.registry s').

(** What [check_new_project] leaves when it answers [False]. *)
Definition Untouched (s s' : Discovery.State) : Prop :=
  Discovery.registry s' = Discovery.registry s
  ∧ Discovery.known_projects s' = Discovery.known_projects s
  ∧ Discovery.registry_file s' = Discovery.registry_file s
  ∧ Discovery.dashboard_sync_file s' = Discovery.dashboard_sync_file s.

(** Every registered path that exists can be [stat]ed. *)
Definition Statable (s : Discovery.State) : Prop :=
  ∀ k r, Discovery.projects (Discovery.registry s) !! k = Some r →
         path_exists (Discovery.fs s) (Discovery.pi_path r) = true →
         is_Some (stat_mtime (Discovery.fs s) (Discovery.pi_path r)).

(** The updates waiting in the dashboard queue; none when the file is
    missing or does not parse. *)
Definition pending_of (s : Discovery.State) : list Discovery.SyncEntry :=
  match Discovery.dashboard_sync_file s with
  | Stored sync_data => Discovery.pending_updates sync_data
  | _ => []
  end.

(** The ideas that the backlog file at [p] holds; none when there is no
    such file. *)
Definition ideas_at (backlogs : Discovery.Backlogs) (p : Path)
  : list Discovery.Idea :=
  match backlogs !! p with
  | Some (Some ideas) => ideas
  | _ => []
  end.

(** The backlog after the pending updates have been merged into it. *)
Definition merged (ideas : list Discovery.Idea)
    (pending : list Discovery.SyncEntry) : list Discovery.Idea :=
  foldl (fun ideas update =>
           Discovery.merge_idea ideas
             (Discovery.dashboard_project (Discovery.se_data update)))
        ideas pending.

(** A walk entry that is a directory, or a readable file of recency
    weight [w]. *)
Definition weighs (now w : Z) (e : Path * Node) : Prop :=
  match snd e with
  | File (Some st) =>
      Lifecycle.recency_weight (Lifecycle.days_between now (st_mtime st)) = w
  | File None => False
  | Dir _ => True
  end.

(** The recommendation that an average weight [w] leads to. *)
Definition recommended (w : Z) : string :=
  if 5 <? w then "should_be_active"
  else if 1 <? w then "should_be_staging"
  else "should_be_archived".

(** A walk entry that is not a file of negative size. *)
Definition sized (e : Path * Node) : Prop :=
  match snd e with
  | File (Some st) => 0 ≤ st_size st
  | _ => True
  end.

(** A tree on which [stat()] never fails. *)
Definition AllReadable (disk : FS) : Prop :=
  ∀ p, disk !! p ≠ Some (File None).

(** The sum of the counts of a histogram. *)
Definition total_count (counts : gmap string nat) : nat :=
  map_fold (fun _ n acc => (n + acc)%nat) 0%nat counts.

(** The pairs of action and priority that suggestions carry. *)
Definition suggestion_kinds : list (string * string) :=
  [ ("remove_registry_entry", "high");
    ("move_project", "medium");
    ("auto_archive", "low");
    ("review_cleanup", "low") ].

(** Every record whose directory exists carries the keys that the
    suggestion loop indexes, and the registry its settings. *)
Definition Complete (m : Lifecycle.Manager) : Prop :=
  ∀ k info,
    Lifecycle.projects (Lifecycle.project_registry m) !! k = Some info →
    path_exists (Lifecycle.fs m) (Lifecycle.pi_path info) = true →
    is_Some (Lifecycle.pi_lifecycle_stage info)
    ∧ is_Some (Lifecycle.pi_last_modified info)
    ∧ is_Some (Lifecycle.pi_size_mb info)
    ∧ is_Some (Lifecycle.settings (Lifecycle.project_registry m)).

(** The registry holds its settings, and every record the three keys
    that the loops of the lifecycle manager index without a default, as
    [analyze_project] writes them. *)
Definition AllKeys (m : Lifecycle.Manager) : Prop :=
  is_Some (Lifecycle.settings (Lifecycle.project_registry m))
  ∧ ∀ k info,
      Lifecycle.projects (Lifecycle.project_registry m) !! k = Some info →
      is_Some (Lifecycle.pi_lifecycle_stage info)
      ∧ is_Some (Lifecycle.pi_last_modified info)
      ∧ is_Some (Lifecycle.pi_size_mb info).

(** * Properties *)

(** Settles a [Forall] over the walk of a concrete tree, entry by entry. *)
Ltac walk_all :=
  match goal with
  | |- Forall ?P ?l =>
      let l' := eval vm_compute in l in
      change (Forall P l');
      repeat (first [ apply List.Forall_nil
                    | apply List.Forall_cons;
                      [vm_compute; first [reflexivity | discriminate | exact I]|] ])
  end.

(** ** Type inference *)

Lemma existsb_str_hit (f : string → bool) (x : string) (l : list string) :
  x ∈ l → f x = true → existsb f l = true.
Proof.
  intros Hin Hf. apply existsb_exists. exists x. split; [|done].
  by apply list_elem_of_In.
Qed.

Lemma lookup_file_in_rglob (disk : FS) (dir : Path) (n : string) (st : option FileStat) :
  disk !! (n :: dir) = Some (File st) →
  (n :: dir, File st) ∈ Lifecycle.files_only (rglob disk dir).
Proof.
  intros Hl. unfold Lifecycle.files_only, rglob.
  apply list_elem_of_filter. split; [done|].
  apply list_elem_of_filter. split.
  - unfold below. simpl. apply andb_true_iff. split.
    + apply bool_decide_eq_true. by apply suffix_cons_r.
    + apply negb_true_iff, bool_decide_eq_false.
      intros Heq. apply (f_equal length) in Heq. simpl in Heq. lia.
  - by apply elem_of_map_to_list.
Qed.

(** C1 (as amended). A directory that holds both [CLAUDE.md] and
    [package.json] is typed [claude-project] by the discovery service, in
    [quick_type] and so in every record [analyze_project_quick] builds; the
    lifecycle manager's [classify_project_type] follows a cascade of its
    own that looks at manifests first and answers [development] when the
    manifest is a file. Neither answers [development-nodejs]. *)
Theorem type_priority_of_quick_analysis (disk : FS) (path : Path) :
  path_exists disk ("CLAUDE.md" :: path) = true →
  path_exists disk ("package.json" :: path) = true →
  Discovery.quick_type disk path = "claude-project"
  ∧ (∀ now, is_dir disk path = true →
       ∃ info, Discovery.analyze_project_quick now disk path = Some info
               ∧ Discovery.pi_type info = "claude-project")
  ∧ (∀ st, disk !! ("package.json" :: path) = Some (File st) →
       Lifecycle.classify_project_type disk path = "development").
Proof.
  intros Hc Hp. split; [|split].
  - unfold Discovery.quick_type. by rewrite Hc.
  - intros now Hd. unfold Discovery.analyze_project_quick, stat_mtime.
    unfold is_dir in Hd. destruct (disk !! path) as [[t|st]|]; try done.
    simpl. eexists. split; [done|]. simpl.
    unfold Discovery.quick_type. by rewrite Hc.
  - intros st Hl. unfold Lifecycle.classify_project_type.
    assert (Lifecycle.any_in
              ["package.json"; "requirements.txt"; "cargo.toml"; "go.mod"]
              (map (fun e => lower (path_name (fst e)))
                   (Lifecycle.files_only (rglob disk path))) = true) as ->; [|done].
    unfold Lifecycle.any_in.
    apply (existsb_str_hit _ "package.json"); [set_solver|].
    unfold str_in. apply bool_decide_eq_true.
    apply list_elem_of_In, in_map_iff.
    exists ("package.json" :: path, File st). split; [done|].
    apply list_elem_of_In. by apply lookup_file_in_rglob.
Qed.

Lemma type_priority_of_quick_analysis_witness :
  Discovery.quick_type Samples.both_markers Samples.foo = "claude-project"
  ∧ Lifecycle.classify_project_type Samples.both_markers Samples.foo = "development".
Proof.
  destruct (type_priority_of_quick_analysis Samples.both_markers Samples.foo)
    as (Hq & _ & Hl).
  - reflexivity.
  - reflexivity.
  - split; [exact Hq|]. eapply Hl. vm_compute. reflexivity.
Defined.

(** C1, refuted as stated: with both markers present, the lifecycle
    manager's type inference does not answer [claude-project]. *)
Lemma classify_project_type_prefers_manifest :
  path_exists Samples.both_markers ("CLAUDE.md" :: Samples.foo) = true
  ∧ path_exists Samples.both_markers ("package.json" :: Samples.foo) = true
  ∧ Lifecycle.classify_project_type Samples.both_markers Samples.foo
    ≠ "claude-project".
Proof. vm_compute. repeat split; discriminate. Qed.

(** ** Project qualification *)

Lemma filter_cons_bool {A : Type} (f : A → bool) (x : A) (l : list A) :
  filter (fun y => f y = true) (x :: l)
  = if f x then x :: filter (fun y => f y = true) l
    else filter (fun y => f y = true) l.
Proof.
  destruct (f x) eqn:E.
  - by rewrite filter_cons_True.
  - rewrite filter_cons_False; [done|]. by rewrite E.
Qed.

(** C5 (as amended). For an existing directory whose name is not in the
    skip set, [is_project_directory] answers no exactly when the directory
    holds at most one weak marker and no strong marker; with a strong
    marker, or with two distinct markers of any kind, it answers yes. *)
Theorem qualification_outside_skip_set (disk : FS) (path : Path) :
  is_dir disk path = true →
  str_in (path_name path) Discovery.skip_dirs = false →
  (Discovery.is_project_directory disk path = false
   ↔ (Spec.markers_present disk path Spec.weak_markers ≤ 1)%nat
     ∧ Spec.markers_present disk path Spec.strong_markers = 0%nat)
  ∧ ((1 ≤ Spec.markers_present disk path Spec.strong_markers)%nat →
     Discovery.is_project_directory disk path = true)
  ∧ ((2 ≤ Spec.markers_present disk path
            (Spec.strong_markers ++ Spec.weak_markers))%nat →
     Discovery.is_project_directory disk path = true).
Proof.
  intros Hd Hs.
  unfold Discovery.is_project_directory, Discovery.indicators_found,
    Discovery.has_key_indicator, Spec.markers_present.
  rewrite Hd, Hs. simpl negb. cbv iota.
  unfold Discovery.project_indicators, Discovery.key_indicators,
    Spec.weak_markers, Spec.strong_markers. simpl app.
  rewrite !(filter_cons_bool (fun n => path_exists disk (n :: path))), !filter_nil.
  simpl existsb.
  destruct (path_exists disk ("CLAUDE.md" :: path));
    destruct (path_exists disk ("package.json" :: path));
    destruct (path_exists disk ("requirements.txt" :: path));
    destruct (path_exists disk ("Cargo.toml" :: path));
    destruct (path_exists disk ("go.mod" :: path));
    destruct (path_exists disk ("README.md" :: path));
    destruct (path_exists disk ("index.html" :: path));
    destruct (path_exists disk (".gitignore" :: path));
    simpl; (split; [split|split]); intros; try done; try lia.
Qed.

Lemma qualification_outside_skip_set_witness :
  Discovery.is_project_directory Samples.both_markers Samples.foo = true.
Proof.
  destruct (qualification_outside_skip_set Samples.both_markers Samples.foo)
    as (_ & Hstrong & _).
  - reflexivity.
  - reflexivity.
  - apply Hstrong. vm_compute. lia.
Defined.

(** C5, refuted as stated: an existing directory with a strong marker that
    does not qualify, because of its name. *)
Lemma skipped_name_never_qualifies :
  is_dir Samples.backups_tree ("backups" :: Samples.home) = true
  ∧ path_exists Samples.backups_tree ("CLAUDE.md" :: "backups" :: Samples.home) = true
  ∧ path_exists Samples.backups_tree ("package.json" :: "backups" :: Samples.home) = true
  ∧ Discovery.is_project_directory Samples.backups_tree ("backups" :: Samples.home)
    = false.
Proof. vm_compute. repeat split. Qed.

(** ** Activity score *)

Lemma recency_weight_bounds (d : Z) : 0 ≤ Lifecycle.recency_weight d ≤ 10.
Proof. unfold Lifecycle.recency_weight. repeat case_match; lia. Qed.

Lemma activity_walk_invariant (now : Z) (entries : list (Path * Node)) :
  ∀ t c t' c',
    0 ≤ t ≤ 10 * c → 0 ≤ c →
    Lifecycle.activity_walk now entries t c = Some (t', c') →
    0 ≤ t' ≤ 10 * c' ∧ c ≤ c'.
Proof.
  induction entries as [|[q [mt|[st|]]] rest IH]; intros t c t' c' Ht Hc Hw;
    simpl in Hw.
  - inversion Hw; subst. lia.
  - by eapply IH.
  - pose proof (recency_weight_bounds (Lifecycle.days_between now (st_mtime st))).
    apply IH in Hw; lia.
  - discriminate.
Qed.

Lemma activity_walk_returns (now : Z) (entries : list (Path * Node)) :
  ∀ t c, Forall Spec.stat_succeeds entries →
         is_Some (Lifecycle.activity_walk now entries t c).
Proof.
  induction entries as [|[q [mt|[st|]]] rest IH]; intros t c Hall; simpl.
  - done.
  - apply IH. by inversion Hall.
  - apply IH. by inversion Hall.
  - inversion Hall as [|? ? Hbad]. by destruct Hbad.
Qed.

Lemma activity_walk_raises (now : Z) (entries : list (Path * Node)) :
  ∀ t c, Lifecycle.activity_walk now entries t c = None
         ↔ Exists (fun e => snd e = File None) entries.
Proof.
  induction entries as [|[q [mt|[st|]]] rest IH]; intros t c; simpl.
  - split; [done|]. by intros ?%Exists_nil.
  - rewrite IH, Exists_cons. simpl. split; [by right|]. by intros [?|?].
  - rewrite IH, Exists_cons. simpl. split; [by right|]. by intros [?|?].
  - split; [|done]. intros _. by apply Exists_cons_hd.
Qed.

Lemma activity_walk_same_day (now : Z) (entries : list (Path * Node)) :
  ∀ t c, Forall (Spec.modified_same_day now) entries →
         Lifecycle.activity_walk now entries t c
         = Some (t + 10 * Z.of_nat (length (Lifecycle.files_only entries)),
                 c + Z.of_nat (length (Lifecycle.files_only entries))).
Proof.
  unfold Lifecycle.files_only.
  induction entries as [|[q [mt|[st|]]] rest IH]; intros t c Hall.
  - simpl. f_equal. f_equal; lia.
  - rewrite filter_cons_bool. simpl. apply IH. by inversion Hall.
  - rewrite filter_cons_bool. simpl is_file_node. cbv iota.
    inversion Hall as [|? ? Hday Hrest]; subst.
    unfold Spec.modified_same_day in Hday. simpl in Hday.
    simpl Lifecycle.activity_walk.
    rewrite Hday. rewrite IH by done.
    change (Lifecycle.recency_weight 0) with 10. simpl length.
    f_equal. f_equal; lia.
  - inversion Hall as [|? ? Hday]. by destruct Hday.
Qed.

Lemma activity_walk_no_files (now : Z) (entries : list (Path * Node)) :
  ∀ t c, Lifecycle.files_only entries = [] →
         Lifecycle.activity_walk now entries t c = Some (t, c).
Proof.
  unfold Lifecycle.files_only.
  induction entries as [|[q [mt|st]] rest IH]; intros t c Hno.
  - done.
  - rewrite filter_cons_bool in Hno. simpl in Hno. simpl. by apply IH.
  - rewrite filter_cons_bool in Hno. simpl in Hno. discriminate.
Qed.

Lemma score_of_bounds (t c : Z) :
  0 ≤ t ≤ 10 * c → 0 ≤ c → (0 <= Lifecycle.score_of t c <= 10)%Q.
Proof.
  intros Ht Hc. unfold Lifecycle.score_of, Qle. simpl.
  rewrite Z2Pos.id by lia. lia.
Qed.

(** C4. The activity score, whenever it is computed, lies between 0 and
    10; it is computed whenever [stat()] succeeds on every file; a
    directory with at least one file, all of them modified within the last
    day, scores exactly 10; and a directory without files scores 0, the
    divisor being clamped to 1. *)
Theorem activity_score_bounds (now : Z) (disk : FS) (path : Path) :
  (∀ s, Lifecycle.calculate_activity_score now disk path = Some s →
        (0 <= s <= 10)%Q)
  ∧ (Forall Spec.stat_succeeds (rglob disk path) →
     is_Some (Lifecycle.calculate_activity_score now disk path))
  ∧ (Lifecycle.files_only (rglob disk path) ≠ [] →
     Forall (Spec.modified_same_day now) (rglob disk path) →
     ∃ s, Lifecycle.calculate_activity_score now disk path = Some s
          ∧ (s == 10)%Q)
  ∧ (Lifecycle.files_only (rglob disk path) = [] →
     Lifecycle.calculate_activity_score now disk path = Some 0%Q).
Proof.
  unfold Lifecycle.calculate_activity_score. repeat split.
  - destruct (Lifecycle.activity_walk now (rglob disk path) 0 0)
      as [[t c]|] eqn:Hw; [|done].
    simpl in H. inversion H; subst.
    apply activity_walk_invariant in Hw; [|lia..].
    apply score_of_bounds; lia.
  - destruct (Lifecycle.activity_walk now (rglob disk path) 0 0)
      as [[t c]|] eqn:Hw; [|done].
    simpl in H. inversion H; subst.
    apply activity_walk_invariant in Hw; [|lia..].
    apply score_of_bounds; lia.
  - intros Hall.
    destruct (activity_walk_returns now (rglob disk path) 0 0 Hall) as [r ->].
    by eexists.
  - intros Hsome Hall.
    rewrite (activity_walk_same_day now _ 0 0 Hall). simpl.
    eexists. split; [done|].
    destruct (Lifecycle.files_only (rglob disk path)) as [|e l]; [done|].
    unfold Lifecycle.score_of, Qeq. simpl length. simpl Qnum. simpl Qden.
    rewrite Z2Pos.id by lia. lia.
  - intros Hno. by rewrite (activity_walk_no_files now _ 0 0 Hno).
Qed.

Lemma activity_score_bounds_witness :
  (∃ s, Lifecycle.calculate_activity_score 90000 Samples.fresh_tree
          ("fresh" :: Samples.home) = Some s ∧ (s == 10)%Q)
  ∧ Lifecycle.calculate_activity_score 90000 Samples.fresh_tree
      ("empty" :: Samples.home) = Some 0%Q.
Proof.
  split.
  - destruct (activity_score_bounds 90000 Samples.fresh_tree
                ("fresh" :: Samples.home)) as (_ & _ & Hday & _).
    apply Hday.
    + vm_compute. discriminate.
    + walk_all.
  - destruct (activity_score_bounds 90000 Samples.fresh_tree
                ("empty" :: Samples.home)) as (_ & _ & _ & Hempty).
    apply Hempty. vm_compute. reflexivity.
Defined.

(** ** Unreadable files *)

Lemma size_walk_prefix (entries : list (Path * Node)) :
  ∀ acc, Lifecycle.size_walk entries acc
         = acc + Spec.bytes_of (Spec.before_first_failure entries).
Proof.
  induction entries as [|[q [mt|[st|]]] rest IH]; intros acc; simpl.
  - lia.
  - apply IH.
  - rewrite IH. lia.
  - lia.
Qed.

Lemma before_first_failure_all (entries : list (Path * Node)) :
  Forall Spec.stat_succeeds entries → Spec.before_first_failure entries = entries.
Proof.
  induction entries as [|[q [mt|[st|]]] rest IH]; intros Hall; simpl.
  - done.
  - rewrite IH; [done|]. by inversion Hall.
  - rewrite IH; [done|]. by inversion Hall.
  - inversion Hall as [|? ? Hbad]. by destruct Hbad.
Qed.

(** The two walks of [analyze_project] on a tree with files on which
    [stat()] raises after [is_file()] has answered for them. In
    [get_directory_size] one handler encloses the loop: the walk ends at
    the first such file and the size counts the files met before it, which
    is every file when there is none. [calculate_activity_score] has no
    handler: it ends with the exception when the walk meets such a file,
    and only then, and [analyze_project] ends with it. *)
Lemma unreadable_file_ends_the_walk (now : Z) (disk : FS) (path : Path) :
  (Lifecycle.calculate_activity_score now disk path = None
   ↔ Exists (fun e => snd e = File None) (rglob disk path))
  ∧ (∀ metadata,
       Lifecycle.calculate_activity_score now disk path = None →
       Lifecycle.analyze_project metadata now disk path = None)
  ∧ Lifecycle.size_walk (rglob disk path) 0
    = Spec.bytes_of (Spec.before_first_failure (rglob disk path))
  ∧ (Forall Spec.stat_succeeds (rglob disk path) →
     Lifecycle.size_walk (rglob disk path) 0 = Spec.bytes_of (rglob disk path)).
Proof.
  split; [|split; [|split]].
  - unfold Lifecycle.calculate_activity_score.
    rewrite <- (activity_walk_raises now (rglob disk path) 0 0).
    by destruct (Lifecycle.activity_walk now (rglob disk path) 0 0).
  - intros metadata Hnone. unfold Lifecycle.analyze_project.
    destruct (stat_mtime disk path); simpl; [|done].
    by rewrite Hnone.
  - by rewrite size_walk_prefix.
  - intros Hall. rewrite size_walk_prefix.
    by rewrite before_first_failure_all.
Qed.

Lemma unreadable_file_ends_the_walk_witness :
  Lifecycle.analyze_project Samples.no_metadata 90000 Samples.unreadable_tree
    Samples.bar = None
  ∧ Lifecycle.size_walk (rglob Samples.fresh_tree ("fresh" :: Samples.home)) 0
    = 2000010.
Proof.
  split.
  - destruct (unreadable_file_ends_the_walk 90000 Samples.unreadable_tree
                Samples.bar) as (_ & Hraise & _).
    apply Hraise. vm_compute. reflexivity.
  - destruct (unreadable_file_ends_the_walk 90000 Samples.fresh_tree
                ("fresh" :: Samples.home)) as (_ & _ & _ & Hall).
    rewrite Hall.
    + vm_compute. reflexivity.
    + walk_all.
Defined.

(** C9. The claim fails on the activity walk. [bar] holds a file on which
    [stat()] raises. The size walk of the same [analyze_project] has a
    handler for that and still answers; [calculate_activity_score] has
    none, the exception leaves it, and the analysis of the whole directory
    ends with it. *)
Lemma one_unreadable_file_aborts_analysis :
  is_dir Samples.unreadable_tree Samples.bar = true
  ∧ Exists (fun e => snd e = File None) (rglob Samples.unreadable_tree Samples.bar)
  ∧ Lifecycle.get_directory_size Samples.unreadable_tree Samples.bar
    = (0 # 100)%Q
  ∧ Lifecycle.calculate_activity_score 90000 Samples.unreadable_tree Samples.bar
    = None
  ∧ Lifecycle.analyze_project Samples.no_metadata 90000 Samples.unreadable_tree
      Samples.bar = None.
Proof.
  split; [reflexivity|]. split; [|split; [|split]].
  - apply Exists_exists. exists ("a.txt" :: Samples.bar, File None).
    split; [|reflexivity]. apply list_elem_of_In. vm_compute. auto.
  - vm_compute. reflexivity.
  - reflexivity.
  - reflexivity.
Qed.

(** ** Loading the registry *)

(** The two constructors on a registry file that is missing or does not
    parse. With no file, the lifecycle manager starts from the default
    document and writes it to disk at once, and the discovery service
    starts from its default document in memory. Neither guards
    [json.load]. *)
Lemma registry_load_outcomes (now : Z) (base : Path) (disk : FS) :
  (∃ m, Lifecycle.load_project_registry now base disk Absent = Some m
        ∧ Lifecycle.project_registry m = Lifecycle.default_registry now
        ∧ Lifecycle.metadata_file m = Stored (Lifecycle.default_registry now))
  ∧ Lifecycle.load_project_registry now base disk Garbled = None
  ∧ (∀ sync, ∃ s, Discovery.init now base disk Absent sync = Some s
                  ∧ Discovery.registry s = Discovery.default_registry now
                  ∧ Discovery.known_projects s = ∅
                  ∧ Discovery.registry_file s = Absent)
  ∧ Discovery.load_registry now Garbled = None
  ∧ (∀ sync, Discovery.init now base disk Garbled sync = None).
Proof.
  split; [|split; [|split; [|split]]].
  - eexists. split; [reflexivity|]. by split.
  - reflexivity.
  - intros sync. eexists. split; [reflexivity|]. simpl.
    split; [done|]. split; [|done]. apply dom_empty_L.
  - reflexivity.
  - intros sync. reflexivity.
Qed.

(** C7. The claim fails on a registry file that does not parse: where the
    claim has both scripts start from an empty registry, [json.load]
    raises out of [load_project_registry] and out of [load_registry], and
    neither constructor returns. *)
Lemma corrupt_registry_raises :
  Lifecycle.load_project_registry 0 Samples.home Samples.workspace Garbled = None
  ∧ Discovery.init 0 Samples.home Samples.workspace Garbled Absent = None.
Proof. split; reflexivity. Qed.

(** ** Suggestions *)

Lemma suggest_for_project (now : Z) (m : Lifecycle.Manager)
    (k : string) (v : Lifecycle.ProjectInfo)
    (own : list Lifecycle.Suggestion) (sg : Lifecycle.Suggestion) :
  Lifecycle.suggest_for now m (k, v) = Some own →
  sg ∈ own → Lifecycle.sg_project sg = k.
Proof.
  unfold Lifecycle.suggest_for.
  destruct (negb _).
  { intros [= <-] ->%list_elem_of_singleton. done. }
  destruct (Lifecycle.pi_lifecycle_stage v) as [stage|]; [|done]. simpl.
  destruct (Lifecycle.pi_last_modified v) as [last_modified|]; [|done]. simpl.
  destruct (Lifecycle.settings _) as [registry_settings|]; [|done]. simpl.
  destruct (Lifecycle.pi_size_mb v) as [size_mb|]; [|done]. simpl.
  intros [= <-].
  repeat case_match;
    rewrite ?elem_of_app, ?list_elem_of_singleton, ?elem_of_nil;
    intros H'; repeat (destruct H' as [H'|H']); by subst.
Qed.

Lemma filter_none {A : Type} (P : A → Prop) `{∀ x, Decision (P x)} (l : list A) :
  (∀ x, x ∈ l → ¬ P x) → filter P l = [].
Proof.
  induction l as [|x l IH]; intros Hall; [done|].
  rewrite filter_cons_False by (apply Hall; left).
  apply IH. intros y Hy. apply Hall. by right.
Qed.

Lemma filter_every {A : Type} (P : A → Prop) `{∀ x, Decision (P x)} (l : list A) :
  (∀ x, x ∈ l → P x) → filter P l = l.
Proof.
  induction l as [|x l IH]; intros Hall; [done|].
  rewrite filter_cons_True by (apply Hall; left).
  f_equal. apply IH. intros y Hy. apply Hall. by right.
Qed.

Lemma filter_other_project (now : Z) (m : Lifecycle.Manager)
    (k k' : string) (v : Lifecycle.ProjectInfo)
    (other : list Lifecycle.Suggestion) :
  k' ≠ k →
  Lifecycle.suggest_for now m (k', v) = Some other →
  filter (fun sg => Lifecycle.sg_project sg = k) other = [].
Proof.
  intros Hne Hother. apply filter_none.
  intros sg Hin Heq. apply (suggest_for_project _ _ _ _ _ _ Hother) in Hin.
  congruence.
Qed.

Lemma filter_own_project (now : Z) (m : Lifecycle.Manager)
    (k : string) (v : Lifecycle.ProjectInfo) (own : list Lifecycle.Suggestion) :
  Lifecycle.suggest_for now m (k, v) = Some own →
  filter (fun sg => Lifecycle.sg_project sg = k) own = own.
Proof.
  intros Hown. apply filter_every. intros sg Hin.
  by apply (suggest_for_project _ _ _ _ _ _ Hown) in Hin.
Qed.

Lemma no_suggestion_for_absent_key (now : Z) (m : Lifecycle.Manager) (k : string)
    (entries : list (string * Lifecycle.ProjectInfo))
    (per_entry : list (list Lifecycle.Suggestion)) :
  Forall2 (fun e l => Lifecycle.suggest_for now m e = Some l) entries per_entry →
  k ∉ entries.*1 →
  filter (fun sg => Lifecycle.sg_project sg = k) (concat per_entry) = [].
Proof.
  induction 1 as [|[k' v'] l rest ls Hl _ IH]; intros Hfresh; [done|].
  rewrite fmap_cons in Hfresh. apply not_elem_of_cons in Hfresh as [Hne Hfresh].
  cbn [concat]. rewrite filter_app.
  rewrite (filter_other_project now m k k' v' l) by done.
  by apply IH.
Qed.

Lemma suggestions_of_one_entry (now : Z) (m : Lifecycle.Manager)
    (k : string) (v : Lifecycle.ProjectInfo) (own : list Lifecycle.Suggestion)
    (entries : list (string * Lifecycle.ProjectInfo))
    (per_entry : list (list Lifecycle.Suggestion)) :
  Forall2 (fun e l => Lifecycle.suggest_for now m e = Some l) entries per_entry →
  NoDup entries.*1 → (k, v) ∈ entries →
  Lifecycle.suggest_for now m (k, v) = Some own →
  filter (fun sg => Lifecycle.sg_project sg = k) (concat per_entry) = own.
Proof.
  intros Hall. revert own.
  induction Hall as [|[k' v'] l rest ls Hl Hrest IH]; intros own Hnd Hin Hown.
  - by apply elem_of_nil in Hin.
  - rewrite fmap_cons in Hnd. apply NoDup_cons in Hnd as [Hfresh Hnd].
    cbn [concat]. rewrite filter_app.
    apply elem_of_cons in Hin as [Heq|Hin].
    + inversion Heq; subst k' v'.
      assert (l = own) as -> by congruence.
      rewrite (filter_own_project now m k v own) by done.
      rewrite (no_suggestion_for_absent_key now m k rest ls) by done.
      by rewrite app_nil_r.
    + rewrite (filter_other_project now m k k' v' l); [by apply IH| |done].
      intros ->. apply Hfresh, list_elem_of_fmap. by exists (k, v).
Qed.

Lemma suggestions_per_entry (now : Z) (m : Lifecycle.Manager)
    (sgs : list Lifecycle.Suggestion) :
  Lifecycle.suggest_lifecycle_actions now m = Some sgs →
  ∃ per_entry,
    Forall2 (fun e l => Lifecycle.suggest_for now m e = Some l)
            (map_to_list (Lifecycle.projects (Lifecycle.project_registry m)))
            per_entry
    ∧ sgs = concat per_entry.
Proof.
  unfold Lifecycle.suggest_lifecycle_actions.
  destruct (mapM _ _) as [per_entry|] eqn:Hrun; [|done].
  simpl. intros [= <-]. exists per_entry. split; [|done].
  by apply mapM_Some.
Qed.

(** The loop of [suggest_lifecycle_actions] completes exactly on the
    registries in which every record whose directory exists carries the
    keys the loop indexes. *)
Lemma suggestions_returned (now : Z) (m : Lifecycle.Manager) :
  is_Some (Lifecycle.suggest_lifecycle_actions now m) ↔ Complete m.
Proof.
  unfold Lifecycle.suggest_lifecycle_actions, Complete. split.
  - intros [sgs Hrun] k info Hk Hex.
    destruct (mapM _ _) as [per_entry|] eqn:Hmap; [|done].
    apply mapM_Some in Hmap.
    apply elem_of_map_to_list in Hk.
    apply list_elem_of_lookup_1 in Hk as [i Hi].
    destruct (Forall2_lookup_l _ _ _ _ _ Hmap Hi) as (l & _ & Hl).
    unfold Lifecycle.suggest_for in Hl. rewrite Hex in Hl. simpl in Hl.
    destruct (Lifecycle.pi_lifecycle_stage info); [|done]. simpl in Hl.
    destruct (Lifecycle.pi_last_modified info); [|done]. simpl in Hl.
    destruct (Lifecycle.settings _); [|done]. simpl in Hl.
    destruct (Lifecycle.pi_size_mb info); [|done].
    by repeat split.
  - intros Hcomplete.
    assert (is_Some (mapM (Lifecycle.suggest_for now m)
                       (map_to_list
                          (Lifecycle.projects (Lifecycle.project_registry m)))))
      as [per_entry ->]; [|by eexists].
    apply mapM_is_Some, Forall_forall. intros [k info] Hin.
    apply elem_of_map_to_list in Hin. simpl.
    unfold Lifecycle.suggest_for.
    destruct (path_exists (Lifecycle.fs m) (Lifecycle.pi_path info)) eqn:Hex;
      simpl; [|by eexists].
    destruct (Hcomplete k info Hin Hex)
      as ([stage ->] & [last_modified ->] & [size_mb ->] & [st ->]).
    simpl. by eexists.
Qed.

(** For a registry entry whose stored path no longer exists, the
    suggestions that name its id, in any list the call returns, are
    exactly one [remove_registry_entry] of priority [high]. *)
Lemma stale_entry_single_suggestion (now : Z) (m : Lifecycle.Manager)
    (project_id : string) (project_info : Lifecycle.ProjectInfo)
    (sgs : list Lifecycle.Suggestion) :
  Lifecycle.projects (Lifecycle.project_registry m) !! project_id
  = Some project_info →
  path_exists (Lifecycle.fs m) (Lifecycle.pi_path project_info) = false →
  Lifecycle.suggest_lifecycle_actions now m = Some sgs →
  filter (fun sg => Lifecycle.sg_project sg = project_id) sgs
  = [Spec.removal_suggestion project_id].
Proof.
  intros Hl Hgone (per_entry & Hall & ->)%suggestions_per_entry.
  apply (suggestions_of_one_entry now m project_id project_info _ _ _ Hall).
  - apply NoDup_fst_map_to_list.
  - by apply elem_of_map_to_list.
  - unfold Lifecycle.suggest_for. by rewrite Hgone.
Qed.

(** C8. The claim fails on a registry file that both scripts have written.
    [gone] is registered and its directory is no longer there, so the
    claim promises one [remove_registry_entry] suggestion for it; [foo]
    was registered by the discovery service, whose records have no
    [lifecycle_stage], and its directory exists. The loop indexes that key
    without a guard (it reads [activity_score] with a default two lines
    further), the call ends with a [KeyError], and no suggestion is
    produced, for [gone] or for any other entry. *)
Lemma stale_entry_lost_to_missing_key :
  Lifecycle.projects (Lifecycle.project_registry Samples.shared_manager)
    !! "gone"
  = Some (Samples.sample_info "gone" ("gone" :: Samples.home)
            "should_be_archived")
  ∧ path_exists (Lifecycle.fs Samples.shared_manager)
      ("gone" :: Samples.home) = false
  ∧ Lifecycle.suggest_for 90000 Samples.shared_manager
      ("foo", Samples.discovered_info "foo" ("foo" :: Samples.home)) = None
  ∧ Lifecycle.suggest_lifecycle_actions 90000 Samples.shared_manager = None.
Proof. vm_compute. repeat split. Qed.

(** ** Moves *)

Lemma target_dirs_stage (m : Lifecycle.Manager) (target_stage : string) (dir : Path) :
  Lifecycle.target_dirs m target_stage = Some dir →
  (target_stage = "active" ∧ dir = "active" :: Lifecycle.base_path m)
  ∨ (target_stage = "staging" ∧ dir = "staging" :: Lifecycle.base_path m)
  ∨ (target_stage = "archived" ∧ dir = "archive" :: Lifecycle.base_path m)
  ∨ (target_stage = "system" ∧ dir = "systems" :: Lifecycle.base_path m).
Proof.
  unfold Lifecycle.target_dirs.
  destruct (String.eqb_spec target_stage "active");
    [intros [= <-]; by left|].
  destruct (String.eqb_spec target_stage "staging");
    [intros [= <-]; right; by left|].
  destruct (String.eqb_spec target_stage "archived");
    [intros [= <-]; right; right; by left|].
  destruct (String.eqb_spec target_stage "system");
    [intros [= <-]; right; right; by right|].
  discriminate.
Qed.

Lemma target_dirs_unknown (m : Lifecycle.Manager) (target_stage : string) :
  target_stage ∉ Spec.confirmed_stages →
  Lifecycle.target_dirs m target_stage = None.
Proof.
  intros Hout.
  destruct (Lifecycle.target_dirs m target_stage) as [dir|] eqn:Hdir; [|done].
  exfalso. apply Hout. unfold Spec.confirmed_stages.
  apply target_dirs_stage in Hdir as [[-> _]|[[-> _]|[[-> _]|[-> _]]]];
    set_solver.
Qed.

Section moves.

Variable shutil_move : FS → Path → Path → Lifecycle.MoveOutcome.
Variable write_registry : Lifecycle.Manager → Lifecycle.SaveOutcome.

(** C10. Called with an id the registry does not hold, or with a stage
    other than active, staging, archived and system, [move_project]
    answers failure and leaves disk, registry and registry file as they
    were. *)
Theorem move_rejects_unknown_id_or_stage (now : Z) (m : Lifecycle.Manager)
    (project_id target_stage : string) :
  Lifecycle.projects (Lifecycle.project_registry m) !! project_id = None
  ∨ target_stage ∉ Spec.confirmed_stages →
  Lifecycle.move_project shutil_move write_registry now m project_id target_stage
  = (false, m).
Proof.
  intros [Hid|Hstage]; unfold Lifecycle.move_project.
  - by rewrite Hid.
  - rewrite (target_dirs_unknown m target_stage Hstage). by case_match.
Qed.

(** C3 (as amended). Whenever [move_project] answers failure without the
    directory having been moved, the registry in memory and the registry
    file are what they were before the call, so the project's record keeps
    its path, stage and every other field; the only other way to a failure
    is a registry file that cannot be written after the move. It answers
    failure in particular when a directory of the project's id already sits
    under the target root, in which case [shutil.move] is not even called
    and nothing at all changes, and when [shutil.move] raises. Applying a
    [move_project] action through [execute_lifecycle_action] is that very
    call. *)
Theorem failed_move_keeps_registry (now : Z) (m : Lifecycle.Manager)
    (project_id target_stage : string) :
  let r := Lifecycle.move_project shutil_move write_registry now m
             project_id target_stage in
  (r.1 = false →
   (Lifecycle.project_registry r.2 = Lifecycle.project_registry m
    ∧ Lifecycle.metadata_file r.2 = Lifecycle.metadata_file m)
   ∨ ∃ info dir disk file_left,
       Lifecycle.projects (Lifecycle.project_registry m) !! project_id
       = Some info
       ∧ Lifecycle.target_dirs m target_stage = Some dir
       ∧ shutil_move (Lifecycle.fs m) (Lifecycle.pi_path info)
           (project_id :: dir) = Lifecycle.Moved disk
       ∧ write_registry
           (Lifecycle.with_projects (Lifecycle.with_fs m disk)
              (<[project_id := Lifecycle.moved_info info (project_id :: dir)
                                  target_stage now]>
                 (Lifecycle.projects (Lifecycle.project_registry m))))
         = Lifecycle.SaveRaised file_left)
  ∧ (∀ info dir,
       Lifecycle.projects (Lifecycle.project_registry m) !! project_id = Some info →
       Lifecycle.target_dirs m target_stage = Some dir →
       path_exists (Lifecycle.fs m) (project_id :: dir) = true →
       r = (false, m))
  ∧ (∀ info dir disk,
       Lifecycle.projects (Lifecycle.project_registry m) !! project_id = Some info →
       Lifecycle.target_dirs m target_stage = Some dir →
       shutil_move (Lifecycle.fs m) (Lifecycle.pi_path info) (project_id :: dir)
       = Lifecycle.MoveRaised disk →
       r.1 = false
       ∧ Lifecycle.project_registry r.2 = Lifecycle.project_registry m
       ∧ Lifecycle.metadata_file r.2 = Lifecycle.metadata_file m)
  ∧ (∀ action,
       Lifecycle.sg_action action = "move_project" →
       Lifecycle.sg_project action = project_id →
       Lifecycle.sg_to action = Some target_stage →
       Lifecycle.execute_lifecycle_action shutil_move write_registry now m action
       = r).
Proof.
  unfold Lifecycle.move_project. split; [|split; [|split]].
  - destruct (Lifecycle.projects (Lifecycle.project_registry m) !! project_id)
      as [info|]; [|by left].
    destruct (Lifecycle.target_dirs m target_stage) as [dir|]; [|by left].
    destruct (path_exists (Lifecycle.fs m) (project_id :: dir)); [by left|].
    destruct (shutil_move _ _ _) as [disk|disk] eqn:Hmove; [|by left].
    unfold Lifecycle.try_save_project_registry.
    destruct (write_registry _) as [|file_left] eqn:Hsave; [done|].
    intros _. right. by exists info, dir, disk, file_left.
  - intros info dir Hid Hdir Hthere. by rewrite Hid, Hdir, Hthere.
  - intros info dir disk Hid Hdir Hraise. rewrite Hid, Hdir.
    destruct (path_exists (Lifecycle.fs m) (project_id :: dir)); [done|].
    by rewrite Hraise.
  - intros action Hact Hproj Hto. unfold Lifecycle.execute_lifecycle_action.
    by rewrite Hact, Hto, Hproj.
Qed.

End moves.

Lemma move_rejects_unknown_id_or_stage_witness :
  Lifecycle.move_project Samples.rename_tree Samples.always_saved 90000
    Samples.sample_manager "nobody" "active" = (false, Samples.sample_manager)
  ∧ Lifecycle.move_project Samples.rename_tree Samples.always_saved 90000
      Samples.sample_manager "foo" "archive" = (false, Samples.sample_manager).
Proof.
  split.
  - apply move_rejects_unknown_id_or_stage. left. reflexivity.
  - apply move_rejects_unknown_id_or_stage. right.
    unfold Spec.confirmed_stages. intros Hin.
    repeat (apply elem_of_cons in Hin as [Hin|Hin]; [discriminate Hin|]).
    by apply elem_of_nil in Hin.
Defined.

Lemma failed_move_keeps_registry_witness :
  Lifecycle.move_project Samples.rename_tree Samples.always_saved 90000
    Samples.sample_manager "old" "archived" = (false, Samples.sample_manager)
  ∧ Lifecycle.project_registry
      (Lifecycle.move_project Samples.rename_tree Samples.always_saved 90000
         Samples.sample_manager "gone" "archived").2
    = Samples.sample_registry.
Proof.
  split.
  - destruct (failed_move_keeps_registry Samples.rename_tree
                Samples.always_saved 90000 Samples.sample_manager
                "old" "archived") as (_ & Hthere & _ & _).
    eapply Hthere; reflexivity.
  - destruct (failed_move_keeps_registry Samples.rename_tree
                Samples.always_saved 90000 Samples.sample_manager
                "gone" "archived") as (_ & _ & Hraise & _).
    eapply Hraise; reflexivity.
Defined.

(** C3, refuted as stated: [foo] is moved to [active], the registry file
    cannot be written, and [move_project] answers failure although the
    record of [foo] now carries the new path, the new stage and a
    [moved_at]. *)
Lemma failed_save_rewrites_record :
  match Lifecycle.move_project Samples.rename_tree Samples.read_only_registry
          90000 Samples.sample_manager "foo" "active" with
  | (answer, m') =>
      answer = false
      ∧ Lifecycle.pi_path
          <$> Lifecycle.projects (Lifecycle.project_registry Samples.sample_manager)
                !! "foo"
        = Some ("foo" :: Samples.home)
      ∧ Lifecycle.pi_path
          <$> Lifecycle.projects (Lifecycle.project_registry m') !! "foo"
        = Some ("foo" :: "active" :: Samples.home)
      ∧ Lifecycle.pi_lifecycle_stage
          <$> Lifecycle.projects (Lifecycle.project_registry m') !! "foo"
        = Some (Some "active")
      ∧ Lifecycle.pi_moved_at
          <$> Lifecycle.projects (Lifecycle.project_registry m') !! "foo"
        = Some (Some 90000)
  end.
Proof. vm_compute. repeat split. Qed.

(** ** Stages written to the registry *)

Lemma determine_stage_cases (now : Z) (disk : FS) (path : Path) (stage : string) :
  Lifecycle.determine_lifecycle_stage now disk path = Some stage →
  if str_in (path_name (path_parent path)) Spec.lifecycle_roots
  then stage ∈ Spec.confirmed_stages
  else stage ∈ Lifecycle.should_be_stages.
Proof.
  unfold Lifecycle.determine_lifecycle_stage, str_in, Spec.lifecycle_roots,
    Spec.confirmed_stages, Lifecycle.should_be_stages.
  destruct (String.eqb_spec (path_name (path_parent path)) "active") as [->|N1];
    [intros [= <-]; rewrite bool_decide_eq_true_2; set_solver|].
  destruct (String.eqb_spec (path_name (path_parent path)) "staging") as [->|N2];
    [intros [= <-]; rewrite bool_decide_eq_true_2; set_solver|].
  destruct (String.eqb_spec (path_name (path_parent path)) "archive") as [->|N3];
    [intros [= <-]; rewrite bool_decide_eq_true_2; set_solver|].
  destruct (String.eqb_spec (path_name (path_parent path)) "systems") as [->|N4];
    [intros [= <-]; rewrite bool_decide_eq_true_2; set_solver|].
  rewrite bool_decide_eq_false_2.
  2:{ intros Hin.
      repeat (apply elem_of_cons in Hin as [Hin|Hin]; [done|]).
      by apply elem_of_nil in Hin. }
  destruct (Lifecycle.calculate_activity_score now disk path) as [score|];
    [|done].
  simpl. destruct (Lifecycle.q_gt score 5); [|destruct (Lifecycle.q_gt score 1)];
    intros [= <-]; set_solver.
Qed.

Lemma moved_path_stage (now : Z) (disk : FS) (m : Lifecycle.Manager)
    (project_id target_stage : string) (dir : Path) :
  Lifecycle.target_dirs m target_stage = Some dir →
  target_stage ∈ Spec.confirmed_stages
  ∧ Lifecycle.determine_lifecycle_stage now disk (project_id :: dir)
    = Some target_stage.
Proof.
  intros Hdir. unfold Spec.confirmed_stages.
  apply target_dirs_stage in Hdir
    as [[-> ->]|[[-> ->]|[[-> ->]|[-> ->]]]]; (split; [set_solver|done]).
Qed.

Section stages.

Variable extract_project_metadata : FS → Path → Lifecycle.Metadata.
Variable shutil_move : FS → Path → Path → Lifecycle.MoveOutcome.
Variable write_registry : Lifecycle.Manager → Lifecycle.SaveOutcome.

Lemma analyze_project_stage (now : Z) (disk : FS) (path : Path)
    (info : Lifecycle.ProjectInfo) :
  Lifecycle.analyze_project extract_project_metadata now disk path = Some info →
  ∃ stage,
    Lifecycle.pi_lifecycle_stage info = Some stage
    ∧ Lifecycle.determine_lifecycle_stage now disk path = Some stage.
Proof.
  unfold Lifecycle.analyze_project.
  destruct (stat_mtime disk path) as [mtime|]; [|done]. simpl.
  destruct (Lifecycle.calculate_activity_score now disk path) as [score|];
    [|done]. simpl.
  destruct (Lifecycle.determine_lifecycle_stage now disk path) as [stage|];
    [|done]. simpl.
  intros [= <-]. by exists stage.
Qed.

(** C6 (as amended). [discover_projects] stores under a project's id the
    stage that [determine_lifecycle_stage] computes for its directory and
    then writes the registry to disk: that stage is a confirmed one when
    the parent directory is a lifecycle root, and a [should_be_*]
    recommendation otherwise, which is therefore persisted. A successful
    [move_project] replaces the stage by the target stage, which is a
    confirmed one and the one that the new path's parent directory names,
    and writes the registry to disk. *)
Theorem stage_written_to_registry (now : Z) (m : Lifecycle.Manager) :
  (∀ found item info,
     Lifecycle.scanned (Lifecycle.fs m) item = true →
     Lifecycle.analyze_project extract_project_metadata now (Lifecycle.fs m) item
     = Some info →
     ∃ m' stored stage,
       Lifecycle.discover_item extract_project_metadata now (found, m) item
       = Some (found ++ [info], m')
       ∧ Lifecycle.projects (Lifecycle.project_registry m')
           !! Lifecycle.pi_id info = Some stored
       ∧ Lifecycle.pi_lifecycle_stage stored = Some stage
       ∧ Lifecycle.determine_lifecycle_stage now (Lifecycle.fs m) item
         = Some stage
       ∧ (if str_in (path_name (path_parent item)) Spec.lifecycle_roots
          then stage ∈ Spec.confirmed_stages
          else stage ∈ Lifecycle.should_be_stages))
  ∧ (∀ scan_root found m',
       Lifecycle.discover_projects extract_project_metadata now m scan_root
       = Some (found, m') →
       Lifecycle.metadata_file m' = Stored (Lifecycle.project_registry m'))
  ∧ (∀ project_id target_stage m',
       Lifecycle.move_project shutil_move write_registry now m
         project_id target_stage
       = (true, m') →
       ∃ stored,
         Lifecycle.projects (Lifecycle.project_registry m') !! project_id
         = Some stored
         ∧ Lifecycle.pi_lifecycle_stage stored = Some target_stage
         ∧ target_stage ∈ Spec.confirmed_stages
         ∧ Lifecycle.metadata_file m' = Stored (Lifecycle.project_registry m')
         ∧ ∀ now' disk',
             Lifecycle.determine_lifecycle_stage now' disk'
               (Lifecycle.pi_path stored) = Some target_stage).
Proof.
  split; [|split].
  - intros found item info Hscan Han.
    destruct (analyze_project_stage _ _ _ _ Han) as (stage & Hinfo & Hstage).
    pose proof (determine_stage_cases _ _ _ _ Hstage) as Hcases.
    unfold Lifecycle.discover_item. rewrite Hscan, Han. simpl.
    destruct (Lifecycle.projects (Lifecycle.project_registry m)
                !! Lifecycle.pi_id info) as [old|];
      eexists _, _, stage; (split; [reflexivity|]); simpl;
      rewrite lookup_insert_eq; (split; [reflexivity|]); simpl;
      rewrite Hinfo; by simpl.
  - intros scan_root found m'. unfold Lifecycle.discover_projects.
    destruct (iterdir _ _) as [items|]; [|done]. simpl.
    destruct (foldlM _ _ _) as [[found' m1]|]; [|done]. simpl.
    by intros [= _ <-].
  - intros project_id target_stage m'. unfold Lifecycle.move_project.
    destruct (Lifecycle.projects (Lifecycle.project_registry m) !! project_id)
      as [info|]; [|done].
    destruct (Lifecycle.target_dirs m target_stage) as [dir|] eqn:Hdir; [|done].
    destruct (path_exists (Lifecycle.fs m) (project_id :: dir)); [done|].
    destruct (shutil_move _ _ _) as [disk|disk]; [|done].
    unfold Lifecycle.try_save_project_registry.
    destruct (write_registry _); [|done].
    intros [= <-]. eexists. simpl. rewrite lookup_insert_eq.
    split; [reflexivity|]. simpl. split; [done|].
    split; [by eapply (moved_path_stage 0 ∅)|]. split; [done|].
    intros now' disk'. by eapply moved_path_stage.
Qed.

End stages.

Lemma stage_written_to_registry_witness :
  ∃ m' stored stage,
    Lifecycle.projects (Lifecycle.project_registry m') !! "foo" = Some stored
    ∧ Lifecycle.pi_lifecycle_stage stored = Some stage
    ∧ Lifecycle.determine_lifecycle_stage 90000 Samples.workspace
        ("foo" :: Samples.home) = Some stage
    ∧ stage ∈ Lifecycle.should_be_stages.
Proof.
  destruct (stage_written_to_registry Samples.no_metadata Samples.rename_tree
              Samples.always_saved 90000 Samples.new_manager)
    as (Hitem & _ & _).
  destruct (Hitem [] ("foo" :: Samples.home)
              {| Lifecycle.pi_id := "foo";
                 Lifecycle.pi_name := "foo";
                 Lifecycle.pi_path := "foo" :: Samples.home;
                 Lifecycle.pi_discovered_at := 90000;
                 Lifecycle.pi_last_modified := Some 86400;
                 Lifecycle.pi_size_mb := Some (0 # 100)%Q;
                 Lifecycle.pi_file_count := Some 1%nat;
                 Lifecycle.pi_type := "one-off";
                 Lifecycle.pi_activity_score := Some 10%Q;
                 Lifecycle.pi_lifecycle_stage := Some "should_be_active";
                 Lifecycle.pi_title := None;
                 Lifecycle.pi_tags := None;
                 Lifecycle.pi_description := None;
                 Lifecycle.pi_moved_at := None |})
    as (m' & stored & stage & _ & Hstored & Hrecord & Hstage & Hkind).
  - reflexivity.
  - vm_compute. reflexivity.
  - exists m', stored, stage. split; [exact Hstored|].
    split; [exact Hrecord|]. split; [exact Hstage|exact Hkind].
Defined.

(** C6, refuted as stated: a plain discovery scan, with no move, writes a
    record whose [lifecycle_stage] is a recommendation to the registry
    file. *)
Lemma discovery_persists_recommendation :
  match Lifecycle.discover_projects Samples.no_metadata 90000
          Samples.new_manager None with
  | Some (found, m') =>
      match Lifecycle.metadata_file m' with
      | Stored doc =>
          Lifecycle.pi_lifecycle_stage <$> Lifecycle.projects doc !! "foo"
          = Some (Some "should_be_active")
      | _ => False
      end
  | None => False
  end.
Proof. vm_compute. reflexivity. Qed.

(** ** Idempotence of the full scan *)

(** *** What a template application can change *)

Lemma write_file_is_dir (now : Z) (disk disk' : FS) (p : Path) (size : Z) :
  write_file now disk p size = Some disk' →
  ∀ q, is_dir disk' q = is_dir disk q.
Proof.
  unfold write_file, is_dir. intros Hw q.
  destruct (disk !! p) as [[t|st]|] eqn:Hp; [done| |].
  - injection Hw as <-. destruct (decide (q = p)) as [->|Hne].
    + by rewrite lookup_insert_eq, Hp.
    + by rewrite lookup_insert_ne.
  - destruct (disk !! path_parent p) as [[t|st]|] eqn:Hpar; [|done..].
    injection Hw as <-. destruct (decide (q = p)) as [->|Hne].
    + by rewrite lookup_insert_eq, Hp.
    + rewrite lookup_insert_ne by done.
      destruct (decide (q = path_parent p)) as [->|Hne'].
      * by rewrite lookup_insert_eq, Hpar.
      * by rewrite lookup_insert_ne.
Qed.

Lemma write_file_exists (now : Z) (disk disk' : FS) (p : Path) (size : Z) :
  write_file now disk p size = Some disk' →
  ∀ q, q ≠ p → path_exists disk' q = path_exists disk q.
Proof.
  unfold write_file, path_exists. intros Hw q Hne.
  destruct (disk !! p) as [[t|st]|] eqn:Hp; [done| |].
  - injection Hw as <-. by rewrite lookup_insert_ne.
  - destruct (disk !! path_parent p) as [[t|st]|] eqn:Hpar; [|done..].
    injection Hw as <-. rewrite lookup_insert_ne by done.
    destruct (decide (q = path_parent p)) as [->|Hne'].
    + by rewrite lookup_insert_eq, Hpar.
    + by rewrite lookup_insert_ne.
Qed.

Lemma unlink_is_dir (disk disk' : FS) (p : Path) :
  unlink_if_exists disk p = Some disk' →
  ∀ q, is_dir disk' q = is_dir disk q.
Proof.
  unfold unlink_if_exists, is_dir. intros Hu q.
  destruct (disk !! p) as [[t|st]|] eqn:Hp; [done| |by injection Hu as <-].
  injection Hu as <-. destruct (decide (q = p)) as [->|Hne].
  - by rewrite lookup_delete_eq, Hp.
  - by rewrite lookup_delete_ne.
Qed.

Lemma unlink_exists (disk disk' : FS) (p : Path) :
  unlink_if_exists disk p = Some disk' →
  ∀ q, q ≠ p → path_exists disk' q = path_exists disk q.
Proof.
  unfold unlink_if_exists, path_exists. intros Hu q Hne.
  destruct (disk !! p) as [[t|st]|] eqn:Hp; [done| |by injection Hu as <-].
  injection Hu as <-. by rewrite lookup_delete_ne.
Qed.

Lemma write_all_frame (now : Z) (dir : Path) (files : list (string * Z)) :
  ∀ disk,
    (∀ q, is_dir (Discovery.write_all now disk dir files).1 q = is_dir disk q)
    ∧ (∀ q, (∀ n, q ≠ n :: dir) →
            path_exists (Discovery.write_all now disk dir files).1 q
            = path_exists disk q).
Proof.
  induction files as [|[n size] rest IH]; intros disk; simpl; [done|].
  destruct (write_file now disk (n :: dir) size) as [disk'|] eqn:Hw; [|done].
  destruct (IH disk') as [IHd IHe]. split.
  - intros q. rewrite IHd. by eapply write_file_is_dir.
  - intros q Hq. rewrite IHe by done. eapply write_file_exists; [done|]. apply Hq.
Qed.

Lemma Frame_refl (item : Path) (s : Discovery.State) : Frame item s s.
Proof. by split. Qed.

Lemma Frame_trans (item : Path) (s1 s2 s3 : Discovery.State) :
  Frame item s1 s2 → Frame item s2 s3 → Frame item s1 s3.
Proof.
  intros [B1 K1 D1 E1] [B2 K2 D2 E2]. split.
  - congruence.
  - set_solver.
  - intros q. by rewrite D2.
  - intros q Hq. rewrite E2 by done. by apply E1.
Qed.

Section scan.

Variable apply_project_template : FS → Path → string → Discovery.TemplateWrites.

Lemma template_frame (now : Z) (s : Discovery.State) (item : Path) :
  Frame item s (Discovery.apply_template_inheritance apply_project_template now s item).
Proof.
  unfold Discovery.apply_template_inheritance.
  destruct (path_exists _ _); [|apply Frame_refl].
  destruct (write_all_frame now item
              (Discovery.written
                 (apply_project_template (Discovery.fs s) item
                    (Discovery.detect_project_type (Discovery.fs s) item)))
              (Discovery.fs s)) as [Hd He].
  destruct (Discovery.write_all _ _ _ _) as [disk ok]. simpl in Hd, He.
  assert (Frame item s (Discovery.with_fs s disk)) as Hbase by (by split).
  destruct ok; [|done].
  destruct (Discovery.prompt_removed _); [|done].
  destruct (unlink_if_exists disk _) as [disk'|] eqn:Hu; [|done].
  split; simpl; [done|done| |].
  - intros q. rewrite <- Hd. by eapply unlink_is_dir.
  - intros q Hq. rewrite <- He by done. eapply unlink_exists; [done|]. apply Hq.
Qed.

Lemma template_keeps_memory (now : Z) (s : Discovery.State) (item : Path) :
  Discovery.known_projects (Discovery.apply_template_inheritance apply_project_template now s item)
  = Discovery.known_projects s.
Proof.
  unfold Discovery.apply_template_inheritance.
  repeat case_match; done.
Qed.

Lemma register_frame (now : Z) (s : Discovery.State) (item : Path)
    (project_id : string) (info : Discovery.ProjectInfo) :
  Frame item s (Discovery.register_project now s project_id info).
Proof.
  unfold Discovery.register_project, Discovery.queue_dashboard_sync.
  destruct (Discovery.dashboard_sync_file _); split; simpl; try done; set_solver.
Qed.

Lemma register_known (now : Z) (s : Discovery.State)
    (project_id : string) (info : Discovery.ProjectInfo) :
  project_id ∈ Discovery.known_projects
                 (Discovery.register_project now s project_id info).
Proof.
  unfold Discovery.register_project, Discovery.queue_dashboard_sync.
  destruct (Discovery.dashboard_sync_file _); simpl; set_solver.
Qed.

Lemma is_project_directory_frame (disk disk' : FS) (q : Path) :
  (∀ p, is_dir disk' p = is_dir disk p) →
  (∀ ind, path_exists disk' (ind :: q) = path_exists disk (ind :: q)) →
  Discovery.is_project_directory disk' q = Discovery.is_project_directory disk q.
Proof.
  intros Hd He.
  unfold Discovery.is_project_directory, Discovery.indicators_found,
    Discovery.has_key_indicator, Discovery.project_indicators,
    Discovery.key_indicators.
  rewrite Hd. rewrite !(filter_cons_bool (fun n => path_exists disk' (n :: q))).
  rewrite !(filter_cons_bool (fun n => path_exists disk (n :: q))).
  simpl existsb. by rewrite !He.
Qed.

Lemma Frame_project (item q : Path) (s s' : Discovery.State) :
  Frame item s s' → q ≠ item →
  Discovery.is_project_directory (Discovery.fs s') q
  = Discovery.is_project_directory (Discovery.fs s) q.
Proof.
  intros [_ _ Hd He] Hne. apply is_project_directory_frame; [done|].
  intros ind. apply He. intros n [= _ ?]. done.
Qed.

Lemma Frame_covered (item q : Path) (s s' : Discovery.State) :
  Frame item s s' → q ≠ item → Covered s q → Covered s' q.
Proof.
  intros HF Hne Hc Hd Hp.
  rewrite (Frame_project item q s s' HF Hne) in Hp.
  rewrite (frame_is_dir _ _ _ HF) in Hd.
  apply (frame_known _ _ _ HF). by apply Hc.
Qed.

Lemma is_dir_stat (disk : FS) (q : Path) :
  is_dir disk q = true → is_Some (stat_mtime disk q).
Proof.
  unfold is_dir, stat_mtime. by destruct (disk !! q) as [[t|st]|].
Qed.

Lemma project_is_dir (disk : FS) (q : Path) :
  Discovery.is_project_directory disk q = true → is_dir disk q = true.
Proof.
  unfold Discovery.is_project_directory. by destruct (is_dir disk q).
Qed.

Lemma check_existing_step (now : Z) (s : Discovery.State) (item : Path) :
  ∃ b s', Discovery.check_existing_project now s item = Some (b, s')
          ∧ Frame item s s' ∧ Covered s' item.
Proof.
  unfold Discovery.check_existing_project.
  destruct (Discovery.is_project_directory (Discovery.fs s) item) eqn:Hp; simpl.
  - destruct (bool_decide _) eqn:Hk.
    + exists false, s. split; [done|]. split; [apply Frame_refl|].
      intros _ _. by apply bool_decide_eq_true in Hk.
    + destruct (is_dir_stat _ _ (project_is_dir _ _ Hp)) as [mtime Hm].
      unfold Discovery.analyze_project_quick. rewrite Hm. simpl.
      eexists true, _. split; [done|]. split; [apply register_frame|].
      intros _ _. apply register_known.
  - exists false, s. split; [done|]. split; [apply Frame_refl|].
    intros _ Hp'. congruence.
Qed.

Lemma check_new_step (now : Z) (s : Discovery.State) (item : Path) :
  ∃ b s', Discovery.check_new_project apply_project_template now s item = Some (b, s')
          ∧ Frame item s s' ∧ Covered s' item.
Proof.
  unfold Discovery.check_new_project.
  destruct (is_dir (Discovery.fs s) item && str_in _ _);
    [|apply check_existing_step].
  destruct (bool_decide (path_name item ∈ Discovery.known_projects s));
    simpl; [apply check_existing_step|].
  pose proof (template_frame now s item) as HF.
  set (s1 := Discovery.apply_template_inheritance apply_project_template now s item) in *.
  destruct (Discovery.is_project_directory (Discovery.fs s1) item) eqn:Hp.
  - destruct (is_dir_stat _ _ (project_is_dir _ _ Hp)) as [mtime Hm].
    unfold Discovery.analyze_project_quick. rewrite Hm. simpl.
    eexists true, _. split; [done|]. split.
    + eapply Frame_trans; [exact HF|apply register_frame].
    + intros _ _. apply register_known.
  - exists false, s1. split; [done|]. split; [done|].
    intros _ Hp'. congruence.
Qed.

Lemma scan_item_step (now : Z) (d : nat) (s : Discovery.State) (item : Path) :
  ∃ d' s', Discovery.scan_item apply_project_template now (d, s) item = Some (d', s')
           ∧ Frame item s s' ∧ Covered s' item.
Proof.
  unfold Discovery.scan_item.
  destruct (is_dir (Discovery.fs s) item
            && Discovery.is_project_directory (Discovery.fs s) item) eqn:Hgo.
  - destruct (check_new_step now s item) as (b & s' & -> & HF & Hc).
    destruct b; by eexists _, _.
  - exists d, s. split; [done|]. split; [apply Frame_refl|].
    intros Hd Hp. rewrite Hd, Hp in Hgo. done.
Qed.

Lemma Mono_refl (s : Discovery.State) : Mono s s.
Proof. by split. Qed.

Lemma Mono_trans (s1 s2 s3 : Discovery.State) :
  Mono s1 s2 → Mono s2 s3 → Mono s1 s3.
Proof.
  intros [B1 D1 C1 E1] [B2 D2 C2 E2]. split.
  - congruence.
  - intros q. by rewrite D2.
  - intros q Hq. by apply C2, C1.
  - intros q Hq. rewrite E2 by (by rewrite B1). by apply E1.
Qed.

Lemma Frame_Mono (item : Path) (s s' : Discovery.State) :
  (length (Discovery.base_path s) < length item)%nat →
  Frame item s s' → Covered s' item → Mono s s'.
Proof.
  intros Hdeep HF Hc. split.
  - apply (frame_base _ _ _ HF).
  - apply (frame_is_dir _ _ _ HF).
  - intros q Hq. destruct (decide (q = item)) as [->|Hne]; [done|].
    by eapply Frame_covered.
  - intros q Hq. apply (frame_exists _ _ _ HF).
    intros n ->. simpl in Hq. lia.
Qed.

Lemma Mono_settled (s s' : Discovery.State) (watch_dir : Path) :
  Mono s s' →
  (length watch_dir ≤ S (length (Discovery.base_path s)))%nat →
  Settled s watch_dir → Settled s' watch_dir.
Proof.
  intros HM Hshallow Hs Hex.
  rewrite (mono_shallow _ _ HM) in Hex by done.
  destruct (Hs Hex) as [Hd Hc]. split.
  - by rewrite (mono_is_dir _ _ HM).
  - intros q Hq. by apply (mono_covered _ _ HM), Hc.
Qed.

Lemma child_of_length (p q : Path) :
  child_of p q = true → length q = S (length p).
Proof.
  destruct q as [|n r]; [done|]. simpl. by intros ->%bool_decide_eq_true.
Qed.

Lemma elem_of_listing (disk : FS) (p q : Path) :
  q ∈ filter (fun q => child_of p q = true) (map fst (map_to_list disk))
  ↔ child_of p q = true ∧ path_exists disk q = true.
Proof.
  rewrite list_elem_of_filter, list_elem_of_In, in_map_iff.
  unfold path_exists. split.
  - intros [Hc ([q' n] & <- & Hin)]. split; [done|].
    apply list_elem_of_In, elem_of_map_to_list in Hin. simpl. by rewrite Hin.
  - intros [Hc Hex]. split; [done|].
    destruct (disk !! q) as [n|] eqn:Hq; [|done].
    exists (q, n). split; [done|].
    by apply list_elem_of_In, elem_of_map_to_list.
Qed.

Lemma foldlM_cons {A B : Type} (f : A → B → option A) (a : A) (x : B)
    (l : list B) :
  foldlM f a (x :: l) = f a x ≫= fun a' => foldlM f a' l.
Proof. reflexivity. Qed.

Lemma scan_items_fold (now : Z) (items : list Path) :
  ∀ d s,
    (∀ q, q ∈ items → (length (Discovery.base_path s) < length q)%nat) →
    ∃ d' s', foldlM (Discovery.scan_item apply_project_template now) (d, s) items = Some (d', s')
             ∧ Mono s s' ∧ ∀ q, q ∈ items → Covered s' q.
Proof.
  induction items as [|item rest IH]; intros d s Hdeep.
  - exists d, s. split; [done|]. split; [apply Mono_refl|].
    by intros q ?%elem_of_nil.
  - destruct (scan_item_step now d s item) as (d1 & s1 & Hstep & HF & Hc).
    assert (Mono s s1) as HM1.
    { eapply Frame_Mono; [|done..]. apply Hdeep. by left. }
    destruct (IH d1 s1) as (d' & s' & Hrest & HM & Hall).
    { intros q Hq. rewrite (mono_base _ _ HM1). apply Hdeep. by right. }
    exists d', s'. rewrite foldlM_cons, Hstep. simpl. split; [done|].
    split; [by eapply Mono_trans|].
    intros q [->|Hq]%elem_of_cons; [|by apply Hall].
    by apply (mono_covered _ _ HM).
Qed.

Lemma scan_watch_step (now : Z) (d : nat) (s : Discovery.State) (watch_dir : Path) :
  (length (Discovery.base_path s) ≤ length watch_dir)%nat →
  (length watch_dir ≤ S (length (Discovery.base_path s)))%nat →
  (path_exists (Discovery.fs s) watch_dir = true →
   is_dir (Discovery.fs s) watch_dir = true) →
  ∃ d' s', Discovery.scan_watch_dir apply_project_template now (d, s) watch_dir = Some (d', s')
           ∧ Mono s s' ∧ Settled s' watch_dir.
Proof.
  intros Hlo Hhi Hkind. unfold Discovery.scan_watch_dir. simpl.
  destruct (path_exists (Discovery.fs s) watch_dir) eqn:Hex; simpl.
  - assert (is_dir (Discovery.fs s) watch_dir = true) as Hd by (by apply Hkind).
    unfold iterdir. rewrite Hd.
    destruct (scan_items_fold now
                (filter (fun q => child_of watch_dir q = true)
                        (map fst (map_to_list (Discovery.fs s)))) d s)
      as (d' & s' & Hrun & HM & Hall).
    { intros q [Hc _]%elem_of_listing. apply child_of_length in Hc. lia. }
    exists d', s'. split; [done|]. split; [done|].
    intros _. split.
    + by rewrite (mono_is_dir _ _ HM).
    + intros q Hc Hq. apply Hall; [|done].
      apply elem_of_listing. split; [done|].
      rewrite (mono_is_dir _ _ HM) in Hq. unfold is_dir in Hq.
      unfold path_exists. by destruct (Discovery.fs s !! q).
  - exists d, s. split; [done|]. split; [apply Mono_refl|].
    intros Hex'. congruence.
Qed.

Lemma scan_watch_fold (now : Z) (dirs : list Path) :
  ∀ d s,
    (∀ wd, wd ∈ dirs →
       (length (Discovery.base_path s) ≤ length wd
        ∧ length wd ≤ S (length (Discovery.base_path s)))%nat
       ∧ (path_exists (Discovery.fs s) wd = true →
          is_dir (Discovery.fs s) wd = true)) →
    ∃ d' s', foldlM (Discovery.scan_watch_dir apply_project_template now) (d, s) dirs = Some (d', s')
             ∧ Mono s s' ∧ ∀ wd, wd ∈ dirs → Settled s' wd.
Proof.
  induction dirs as [|wd rest IH]; intros d s Hpre.
  - exists d, s. split; [done|]. split; [apply Mono_refl|].
    by intros q ?%elem_of_nil.
  - destruct (Hpre wd) as [[Hlo Hhi] Hkind]; [by left|].
    destruct (scan_watch_step now d s wd Hlo Hhi Hkind)
      as (d1 & s1 & Hstep & HM1 & Hs1).
    destruct (IH d1 s1) as (d' & s' & Hrest & HM & Hall).
    { intros wd' Hin. destruct (Hpre wd') as [[Hlo' Hhi'] Hkind']; [by right|].
      rewrite (mono_base _ _ HM1). split; [done|].
      rewrite (mono_shallow _ _ HM1), (mono_is_dir _ _ HM1) by done. done. }
    exists d', s'. rewrite foldlM_cons, Hstep. simpl. split; [done|].
    split; [by eapply Mono_trans|].
    intros wd' [->|Hin]%elem_of_cons; [|by apply Hall].
    eapply Mono_settled; [done| |done]. by rewrite (mono_base _ _ HM1).
Qed.

(** *** A scan over settled directories *)

Lemma scan_item_noop (now : Z) (d : nat) (s : Discovery.State) (item : Path) :
  Covered s item → Discovery.scan_item apply_project_template now (d, s) item = Some (d, s).
Proof.
  intros Hc. unfold Discovery.scan_item.
  destruct (is_dir (Discovery.fs s) item) eqn:Hd; [|done].
  destruct (Discovery.is_project_directory (Discovery.fs s) item) eqn:Hp; [|done].
  simpl. specialize (Hc Hd Hp).
  assert (Discovery.check_existing_project now s item = Some (false, s)) as He.
  { unfold Discovery.check_existing_project. rewrite Hp. simpl.
    by rewrite bool_decide_eq_true_2. }
  unfold Discovery.check_new_project. rewrite Hd. simpl.
  rewrite bool_decide_eq_true_2 by done. simpl.
  destruct (str_in _ _); by rewrite He.
Qed.

Lemma scan_items_noop (now : Z) (d : nat) (s : Discovery.State) (items : list Path) :
  (∀ q, q ∈ items → Covered s q) →
  foldlM (Discovery.scan_item apply_project_template now) (d, s) items = Some (d, s).
Proof.
  induction items as [|item rest IH]; intros Hall; [done|].
  rewrite foldlM_cons, scan_item_noop by (apply Hall; by left). simpl.
  apply IH. intros q Hq. apply Hall. by right.
Qed.

Lemma scan_watch_noop (now : Z) (d : nat) (s : Discovery.State) (watch_dir : Path) :
  Settled s watch_dir → Discovery.scan_watch_dir apply_project_template now (d, s) watch_dir = Some (d, s).
Proof.
  intros Hs. unfold Discovery.scan_watch_dir. simpl.
  destruct (path_exists (Discovery.fs s) watch_dir) eqn:Hex; [|done]. simpl.
  destruct Hs as [Hd Hc]; [done|]. unfold iterdir. rewrite Hd.
  apply scan_items_noop. intros q [Hq _]%elem_of_listing. by apply Hc.
Qed.

Lemma scan_watch_fold_noop (now : Z) (d : nat) (s : Discovery.State)
    (dirs : list Path) :
  (∀ wd, wd ∈ dirs → Settled s wd) →
  foldlM (Discovery.scan_watch_dir apply_project_template now) (d, s) dirs = Some (d, s).
Proof.
  induction dirs as [|wd rest IH]; intros Hall; [done|].
  rewrite foldlM_cons, scan_watch_noop by (apply Hall; by left). simpl.
  apply IH. intros q Hq. apply Hall. by right.
Qed.

(** *** Starting the service again *)

Lemma template_keeps_registry (now : Z) (s : Discovery.State) (item : Path) :
  InSync s →
  InSync (Discovery.apply_template_inheritance apply_project_template now s item).
Proof.
  unfold Discovery.apply_template_inheritance.
  repeat case_match; done.
Qed.

Lemma register_in_sync (now : Z) (s : Discovery.State)
    (project_id : string) (info : Discovery.ProjectInfo) :
  InSync s → InSync (Discovery.register_project now s project_id info).
Proof.
  intros [Hk _]. unfold Discovery.register_project, Discovery.queue_dashboard_sync.
  destruct (Discovery.dashboard_sync_file _); split; simpl;
    try done; by rewrite dom_insert_L, Hk.
Qed.

Lemma check_existing_in_sync (now : Z) (s s' : Discovery.State) (item : Path)
    (b : bool) :
  Discovery.check_existing_project now s item = Some (b, s') →
  InSync s → InSync s'.
Proof.
  unfold Discovery.check_existing_project.
  destruct (negb _); [by intros [= _ <-]|].
  destruct (bool_decide _); [by intros [= _ <-]|].
  destruct (Discovery.analyze_project_quick _ _ _); [|done]. simpl.
  intros [= _ <-]. apply register_in_sync.
Qed.

Lemma check_new_in_sync (now : Z) (s s' : Discovery.State) (item : Path)
    (b : bool) :
  Discovery.check_new_project apply_project_template now s item = Some (b, s') →
  InSync s → InSync s'.
Proof.
  unfold Discovery.check_new_project.
  destruct (_ && _); [|apply check_existing_in_sync].
  destruct (negb _); [|apply check_existing_in_sync].
  destruct (Discovery.is_project_directory _ _).
  - destruct (Discovery.analyze_project_quick _ _ _); [|done]. simpl.
    intros [= _ <-] Hs. by apply register_in_sync, template_keeps_registry.
  - intros [= _ <-]. apply template_keeps_registry.
Qed.

Lemma scan_item_in_sync (now : Z) (acc acc' : nat * Discovery.State) (item : Path) :
  Discovery.scan_item apply_project_template now acc item = Some acc' →
  InSync acc.2 → InSync acc'.2.
Proof.
  destruct acc as [d s]. unfold Discovery.scan_item.
  destruct (_ && _); [|by intros [= <-]].
  destruct (Discovery.check_new_project _ _ _ _) as [[[] s']|] eqn:Hc;
    [| |done]; intros [= <-]; simpl; by eapply check_new_in_sync.
Qed.

Lemma foldlM_invariant {A B : Type} (f : A → B → option A) (P : A → Prop) :
  (∀ a x a', f a x = Some a' → P a → P a') →
  ∀ l a a', foldlM f a l = Some a' → P a → P a'.
Proof.
  intros Hstep. induction l as [|x l IH]; intros a a'.
  - by intros [= <-].
  - rewrite foldlM_cons. destruct (f a x) as [a1|] eqn:H1; [|done].
    simpl. intros Hrest Ha. eapply IH; [done|]. by eapply Hstep.
Qed.

Lemma scan_in_sync (now : Z) (s s' : Discovery.State) (d : nat) :
  Discovery.discover_all_projects apply_project_template now s = Some (d, s') →
  InSync s → InSync s'.
Proof.
  unfold Discovery.discover_all_projects. intros Hrun.
  refine (foldlM_invariant _ (fun acc => InSync acc.2) _ _ _ _ Hrun).
  intros acc wd acc'. unfold Discovery.scan_watch_dir.
  destruct (negb _); [by intros [= <-]|].
  destruct (iterdir _ _) as [items|]; [|done].
  apply (foldlM_invariant _ (fun acc => InSync acc.2)).
  intros a x a'. apply scan_item_in_sync.
Qed.

Lemma restart_settled (restart : Z) (s : Discovery.State) :
  InSync s →
  ∃ s2, Discovery.init restart (Discovery.base_path s) (Discovery.fs s)
          (Discovery.registry_file s) (Discovery.dashboard_sync_file s) = Some s2
        ∧ Discovery.base_path s2 = Discovery.base_path s
        ∧ Discovery.fs s2 = Discovery.fs s
        ∧ Discovery.known_projects s2 = Discovery.known_projects s
        ∧ Discovery.registry_file s2 = Discovery.registry_file s
        ∧ Discovery.projects (Discovery.registry s2)
          = Discovery.projects (Discovery.registry s).
Proof.
  intros [Hk Hload]. unfold Discovery.init. specialize (Hload restart).
  destruct (Discovery.load_registry restart (Discovery.registry_file s))
    as [reg|]; [|done].
  simpl in *. injection Hload as Hp. eexists. split; [done|]. simpl.
  rewrite Hp, Hk. done.
Qed.

Lemma settled_same_view (s s' : Discovery.State) (watch_dir : Path) :
  Discovery.fs s' = Discovery.fs s →
  Discovery.known_projects s' = Discovery.known_projects s →
  Settled s watch_dir → Settled s' watch_dir.
Proof.
  intros Hfs Hk Hs. unfold Settled, Covered in *. rewrite Hfs, Hk. exact Hs.
Qed.

(** C2 (as amended). A full scan of the discovery service on a tree whose
    watched roots, where they exist, are directories returns; a second
    full scan right after it, whatever the time, returns 0 and leaves the
    whole state of the service, and so the registry in memory and on
    disk, exactly as the first scan left it. The same holds when the
    second scan is run by a fresh service that reads the registry file
    back, as it is when the command is issued twice. *)
Theorem full_scan_idempotent (now later : Z) (s : Discovery.State) :
  (∀ wd, wd ∈ Discovery.watch_dirs s →
         path_exists (Discovery.fs s) wd = true →
         is_dir (Discovery.fs s) wd = true) →
  ∃ discovered s1,
    Discovery.discover_all_projects apply_project_template now s
    = Some (discovered, s1)
    ∧ Discovery.discover_all_projects apply_project_template later s1
      = Some (0%nat, s1)
    ∧ (InSync s →
       ∀ restart, ∃ s2,
         Discovery.init restart (Discovery.base_path s1) (Discovery.fs s1)
           (Discovery.registry_file s1) (Discovery.dashboard_sync_file s1)
         = Some s2
         ∧ Discovery.discover_all_projects apply_project_template later s2
           = Some (0%nat, s2)
         ∧ Discovery.registry_file s2 = Discovery.registry_file s1
         ∧ Discovery.projects (Discovery.registry s2)
           = Discovery.projects (Discovery.registry s1)).
Proof.
  intros Hroots.
  destruct (scan_watch_fold now (Discovery.watch_dirs s) 0%nat s)
    as (discovered & s1 & Hrun & HM & Hsettled).
  { intros wd Hin. split; [|by apply Hroots].
    unfold Discovery.watch_dirs in Hin.
    repeat (apply elem_of_cons in Hin as [->|Hin]; [simpl; lia|]).
    by apply elem_of_nil in Hin. }
  assert (Discovery.watch_dirs s1 = Discovery.watch_dirs s) as Hdirs.
  { unfold Discovery.watch_dirs. by rewrite (mono_base _ _ HM). }
  exists discovered, s1. split; [done|]. split.
  - unfold Discovery.discover_all_projects. rewrite Hdirs.
    by apply scan_watch_fold_noop.
  - intros Hsync restart.
    destruct (restart_settled restart s1 (scan_in_sync _ _ _ _ Hrun Hsync))
      as (s2 & Hinit & Hbase & Hfs & Hknown & Hfile & Hprojects).
    exists s2. split; [done|]. split; [|done].
    unfold Discovery.discover_all_projects.
    assert (Discovery.watch_dirs s2 = Discovery.watch_dirs s) as ->.
    { rewrite <- Hdirs. unfold Discovery.watch_dirs. by rewrite Hbase. }
    apply scan_watch_fold_noop. intros wd Hin.
    eapply settled_same_view; [done..|]. by apply Hsettled.
Qed.

End scan.

Lemma full_scan_idempotent_witness :
  ∃ discovered s1,
    Discovery.discover_all_projects Samples.two_file_template 10
      Samples.new_service = Some (discovered, s1)
    ∧ Discovery.discover_all_projects Samples.two_file_template 20 s1
      = Some (0%nat, s1)
    ∧ ∃ s2,
        Discovery.init 15 (Discovery.base_path s1) (Discovery.fs s1)
          (Discovery.registry_file s1) (Discovery.dashboard_sync_file s1)
        = Some s2
        ∧ Discovery.discover_all_projects Samples.two_file_template 20 s2
          = Some (0%nat, s2).
Proof.
  destruct (full_scan_idempotent Samples.two_file_template 10 20
              Samples.new_service) as (discovered & s1 & Hfirst & Hsecond & Hfresh).
  - intros wd Hin Hex. unfold Discovery.watch_dirs in Hin.
    repeat (apply elem_of_cons in Hin as [->|Hin];
            [first [reflexivity | vm_compute in Hex; discriminate Hex]|]).
    apply elem_of_nil in Hin. destruct Hin.
  - exists discovered, s1. split; [exact Hfirst|]. split; [exact Hsecond|].
    destruct (Hfresh (conj eq_refl (fun _ => eq_refl)) 15)
      as (s2 & Hinit & Hrun & _).
    exists s2. split; [exact Hinit|exact Hrun].
Defined.

Lemma discover_item_keeps_fs (metadata : FS → Path → Lifecycle.Metadata)
    (now : Z) (acc acc' : list Lifecycle.ProjectInfo * Lifecycle.Manager)
    (item : Path) :
  Lifecycle.discover_item metadata now acc item = Some acc' →
  Lifecycle.fs acc'.2 = Lifecycle.fs acc.2.
Proof.
  destruct acc as [found m]. unfold Lifecycle.discover_item.
  destruct (Lifecycle.scanned (Lifecycle.fs m) item); [|by intros [= <-]].
  destruct (Lifecycle.analyze_project metadata now (Lifecycle.fs m) item);
    [|done].
  simpl. by intros [= <-].
Qed.

(** The lifecycle manager's scan only reads the tree. *)
Lemma discover_projects_keeps_fs (metadata : FS → Path → Lifecycle.Metadata)
    (now : Z) (m m' : Lifecycle.Manager) (scan_root : option Path)
    (found : list Lifecycle.ProjectInfo) :
  Lifecycle.discover_projects metadata now m scan_root = Some (found, m') →
  Lifecycle.fs m' = Lifecycle.fs m.
Proof.
  unfold Lifecycle.discover_projects.
  destruct (iterdir _ _) as [items|]; [|done]. simpl.
  assert (∀ acc acc',
            foldlM (Lifecycle.discover_item metadata now) acc items = Some acc' →
            Lifecycle.fs acc'.2 = Lifecycle.fs acc.2) as Hfold.
  { induction items as [|item rest IH]; intros acc acc'.
    - by intros [= <-].
    - rewrite foldlM_cons.
      destruct (Lifecycle.discover_item metadata now acc item) as [acc1|] eqn:H1;
        [|done].
      simpl. intros Hrest. rewrite (IH _ _ Hrest).
      by eapply discover_item_keeps_fs. }
  destruct (foldlM _ _ _) as [r|] eqn:Hrun; [|done]. simpl.
  intros [= _ <-]. simpl. by rewrite (Hfold _ _ Hrun).
Qed.

(** C2, refuted as stated for the lifecycle manager's scan: run twice on
    an unchanged tree, [discover_projects] again reports the project it
    already holds and rewrites its record and the registry's stamp. *)
Lemma lifecycle_rediscovery_rewrites_record :
  match Lifecycle.discover_projects Samples.no_metadata 90000
          Samples.new_manager None with
  | Some (found1, m1) =>
      match Lifecycle.discover_projects Samples.no_metadata 90060 m1 None with
      | Some (found2, m2) =>
          length found2 = 1%nat
          ∧ Lifecycle.pi_discovered_at
              <$> Lifecycle.projects (Lifecycle.project_registry m1) !! "foo"
            = Some 90000
          ∧ Lifecycle.pi_discovered_at
              <$> Lifecycle.projects (Lifecycle.project_registry m2) !! "foo"
            = Some 90060
          ∧ Lifecycle.last_updated (Lifecycle.project_registry m1) = 90000
          ∧ Lifecycle.last_updated (Lifecycle.project_registry m2) = 90060
      | None => False
      end
  | None => False
  end.
Proof. vm_compute. repeat split. Qed.

(** ** Scenarios of the specification, evaluated *)

(** A directory under [active] that holds only [requirements.txt] is
    registered as a Python project in stage [active]. *)
Example new_python_project_is_registered :
  match Discovery.discover_all_projects Samples.two_file_template 10
          Samples.new_service with
  | Some (discovered, s1) =>
      discovered = 2%nat
      ∧ (fun info => (Discovery.pi_type info, Discovery.pi_status info))
          <$> Discovery.projects (Discovery.registry s1) !! "foo"
        = Some ("development-python", "active")
  | None => False
  end.
Proof. vm_compute. repeat split. Qed.

(** The suggestions for the sample registry: removals for the two entries
    whose directory is gone, a move for the one that carries a
    recommendation. *)
Example sample_suggestions :
  map (fun sg => (Lifecycle.sg_action sg, Lifecycle.sg_project sg,
                  Lifecycle.sg_priority sg))
    <$> Lifecycle.suggest_lifecycle_actions 90000 Samples.sample_manager
  = Some [ ("remove_registry_entry", "old", "high");
           ("remove_registry_entry", "gone", "high");
           ("move_project", "foo", "medium") ].
Proof. vm_compute. reflexivity. Qed.

(** Forty-five days of inactivity pass the default threshold of thirty;
    twenty do not. *)
Example auto_archive_threshold :
  let m := Lifecycle.with_projects Samples.sample_manager
             {[ "foo" := Samples.sample_info "foo" ("foo" :: Samples.home) "active" ]} in
  map Lifecycle.sg_action
    <$> Lifecycle.suggest_lifecycle_actions (86400 + 45 * 86400) m
  = Some ["auto_archive"]
  ∧ Lifecycle.suggest_lifecycle_actions (86400 + 20 * 86400) m = Some [].
Proof. vm_compute. split; reflexivity. Qed.

(** * Further properties of the two files *)

(** ** Registration by the discovery service *)

(** Settles, on a concrete tree, that the watched roots that exist are
    directories. *)
Ltac check_roots :=
  let wd := fresh "wd" in
  let Hin := fresh "Hin" in
  let Hex := fresh "Hex" in
  intros wd Hin Hex; unfold Discovery.watch_dirs in Hin;
  repeat (apply elem_of_cons in Hin as [->|Hin];
          [first [reflexivity | vm_compute in Hex; discriminate Hex]|]);
  apply elem_of_nil in Hin; destruct Hin.

Lemma register_project_fields (now : Z) (s : Discovery.State)
    (project_id : string) (info : Discovery.ProjectInfo) :
  let s' := Discovery.register_project now s project_id info in
  Discovery.fs s' = Discovery.fs s
  ∧ Discovery.projects (Discovery.registry s')
    = <[project_id := info]> (Discovery.projects (Discovery.registry s))
  ∧ Discovery.known_projects s' = {[project_id]} ∪ Discovery.known_projects s
  ∧ Discovery.registry_file s' = Stored (Discovery.registry s').
Proof.
  unfold Discovery.register_project, Discovery.queue_dashboard_sync.
  by destruct (Discovery.dashboard_sync_file _).
Qed.

Lemma Untouched_refl (s : Discovery.State) : Untouched s s.
Proof. by repeat split. Qed.

Lemma check_existing_outcome (now : Z) (s s' : Discovery.State) (path : Path)
    (b : bool) :
  Discovery.check_existing_project now s path = Some (b, s') →
  if b then Registered now s s' path else s' = s.
Proof.
  unfold Discovery.check_existing_project.
  destruct (Discovery.is_project_directory (Discovery.fs s) path) eqn:Hp; simpl;
    [|by intros [= <- <-]].
  destruct (bool_decide _) eqn:Hk; [by intros [= <- <-]|].
  apply bool_decide_eq_false in Hk.
  destruct (Discovery.analyze_project_quick now (Discovery.fs s) path)
    as [info|] eqn:Ha; [|done].
  simpl. intros [= <- <-].
  destruct (register_project_fields now s (path_name path) info)
    as (Hfs & Hps & Hkn & Hfile).
  split; [done|]. rewrite Hfs. split; [done|]. by exists info.
Qed.

Section registration.

Variable apply_project_template : FS → Path → string → Discovery.TemplateWrites.

Lemma template_untouched (now : Z) (s : Discovery.State) (path : Path) :
  Untouched s (Discovery.apply_template_inheritance apply_project_template now s path).
Proof.
  unfold Discovery.apply_template_inheritance. repeat case_match; by repeat split.
Qed.

Lemma check_new_outcome (now : Z) (s s' : Discovery.State) (path : Path)
    (b : bool) :
  Discovery.check_new_project apply_project_template now s path = Some (b, s') →
  if b then Registered now s s' path else Untouched s s'.
Proof.
  assert (∀ b s', Discovery.check_existing_project now s path = Some (b, s') →
                  if b then Registered now s s' path else Untouched s s') as Hex.
  { intros b0 s0 H0. apply check_existing_outcome in H0.
    destruct b0; [done|]. subst. apply Untouched_refl. }
  unfold Discovery.check_new_project.
  destruct (_ && _); [|apply Hex].
  destruct (bool_decide _) eqn:Hk; simpl; [apply Hex|].
  apply bool_decide_eq_false in Hk.
  pose proof (template_untouched now s path) as (Hreg & Hkn & Hfile & Hsync).
  set (s1 := Discovery.apply_template_inheritance _ now s path) in *.
  destruct (Discovery.is_project_directory (Discovery.fs s1) path) eqn:Hp.
  - destruct (Discovery.analyze_project_quick now (Discovery.fs s1) path)
      as [info|] eqn:Ha; [|done].
    simpl. intros [= <- <-].
    destruct (register_project_fields now s1 (path_name path) info)
      as (Hfs & Hps & Hkn' & Hfile').
    split; [done|]. rewrite Hfs. split; [done|]. exists info.
    by rewrite Hps, Hkn', Hreg, Hkn.
  - intros [= <- <-]. by repeat split.
Qed.

(** X1. What a call of [check_new_project] that returns has done. When
    it answers [True] the directory's name was not known before, the
    directory qualifies as a project on the disk as the call leaves it, and
    the call has stored under that name exactly the record a quick analysis
    of that disk gives, added the name to the known ids and written the
    registry to its file. When it answers [False] the registry, the known
    ids, the registry file and the dashboard queue are what they were.
    Nothing is said of a call that ends with an exception. *)
Theorem check_new_project_outcome (now : Z) (s s' : Discovery.State)
    (path : Path) (b : bool) :
  Discovery.check_new_project apply_project_template now s path = Some (b, s') →
  if b then Registered now s s' path else Untouched s s'.
Proof. apply check_new_outcome. Qed.

Lemma scan_invariant (P : Discovery.State → Prop) :
  (∀ now s s' path b,
     Discovery.check_new_project apply_project_template now s path = Some (b, s') →
     P s → P s') →
  ∀ now d s s1,
    Discovery.discover_all_projects apply_project_template now s = Some (d, s1) →
    P s → P s1.
Proof.
  intros Hstep now d s s1 Hrun. unfold Discovery.discover_all_projects in Hrun.
  refine (foldlM_invariant _ (fun acc => P acc.2) _ _ _ _ Hrun).
  intros acc wd acc'. unfold Discovery.scan_watch_dir.
  destruct (negb _); [by intros [= <-]|].
  destruct (iterdir _ _) as [items|]; [|done].
  apply (foldlM_invariant _ (fun acc => P acc.2)).
  intros [n s0] item acc0. unfold Discovery.scan_item.
  destruct (_ && _); [|by intros [= <-]].
  destruct (Discovery.check_new_project _ _ _ _) as [[[] s0']|] eqn:Hc;
    [| |done]; intros [= <-]; simpl; by eapply Hstep.
Qed.

Lemma analyze_quick_keyed (now : Z) (disk : FS) (path : Path)
    (info : Discovery.ProjectInfo) :
  Discovery.analyze_project_quick now disk path = Some info →
  Discovery.pi_id info = path_name path
  ∧ Discovery.pi_name info = path_name path
  ∧ Discovery.pi_path info = path
  ∧ Discovery.pi_status info = Discovery.quick_status path.
Proof.
  unfold Discovery.analyze_project_quick.
  destruct (stat_mtime disk path); [|done]. simpl. by intros [= <-].
Qed.

Lemma check_new_keyed (now : Z) (s s' : Discovery.State) (path : Path) (b : bool) :
  Discovery.check_new_project apply_project_template now s path = Some (b, s') →
  Keyed s → Keyed s'.
Proof.
  intros Hrun Hk. apply check_new_outcome in Hrun. destruct b.
  - destruct Hrun as (_ & _ & info & Ha & Hps & _).
    apply analyze_quick_keyed in Ha as (Hid & Hname & Hpath & Hstatus).
    intros k r. rewrite Hps. destruct (decide (k = path_name path)) as [->|Hne].
    + rewrite lookup_insert_eq. intros [= <-]. by rewrite Hpath.
    + rewrite lookup_insert_ne by done. apply Hk.
  - destruct Hrun as (Hreg & _). unfold Keyed. by rewrite Hreg.
Qed.

(** The count and the registry after some steps of a scan started in
    [s0]. *)
Lemma check_new_grows (now : Z) (s s' : Discovery.State) (path : Path) (b : bool) :
  Discovery.check_new_project apply_project_template now s path = Some (b, s') →
  InSync s →
  Discovery.projects (Discovery.registry s)
  ⊆ Discovery.projects (Discovery.registry s')
  ∧ size (Discovery.projects (Discovery.registry s'))
    = (size (Discovery.projects (Discovery.registry s))
       + (if b then 1 else 0))%nat.
Proof.
  intros Hrun [Hk _]. apply check_new_outcome in Hrun. destruct b.
  - destruct Hrun as (Hnew & _ & info & _ & Hps & _).
    rewrite Hk in Hnew. apply not_elem_of_dom in Hnew. rewrite Hps. split.
    + by apply insert_subseteq.
    + rewrite map_size_insert_None by done. lia.
  - destruct Hrun as (-> & _). split; [done|lia].
Qed.

Lemma scan_grows (now : Z) (d : nat) (s s1 : Discovery.State) :
  Discovery.discover_all_projects apply_project_template now s = Some (d, s1) →
  InSync s →
  InSync s1
  ∧ Discovery.projects (Discovery.registry s)
    ⊆ Discovery.projects (Discovery.registry s1)
  ∧ size (Discovery.projects (Discovery.registry s1))
    = (size (Discovery.projects (Discovery.registry s)) + d)%nat.
Proof.
  intros Hrun Hsync. unfold Discovery.discover_all_projects in Hrun.
  set (P := fun acc : nat * Discovery.State =>
              InSync acc.2
              ∧ Discovery.projects (Discovery.registry s)
                ⊆ Discovery.projects (Discovery.registry acc.2)
              ∧ size (Discovery.projects (Discovery.registry acc.2))
                = (size (Discovery.projects (Discovery.registry s)) + acc.1)%nat).
  refine (foldlM_invariant _ P _ _ _ _ Hrun _).
  - intros acc wd acc'. unfold Discovery.scan_watch_dir.
    destruct (negb _); [by intros [= <-]|].
    destruct (iterdir _ _) as [items|]; [|done].
    apply (foldlM_invariant _ P).
    intros [n s0] item acc0. unfold Discovery.scan_item.
    destruct (_ && _); [|by intros [= <-]].
    destruct (Discovery.check_new_project _ _ _ _) as [[b s0']|] eqn:Hc;
      [|done].
    intros Hacc (Hs0 & Hsub & Hsize). unfold P in *. simpl in *.
    destruct (check_new_grows _ _ _ _ _ Hc Hs0) as [Hsub' Hsize'].
    pose proof (check_new_in_sync _ _ _ _ _ _ Hc Hs0) as Hs0'.
    destruct b; injection Hacc as <-; unfold P; simpl;
      (split; [done|]); (split; [by etrans|]); lia.
  - unfold P. simpl. split; [done|]. split; [done|]. lia.
Qed.

Lemma watch_roots_fit (s : Discovery.State) (wd : Path) :
  wd ∈ Discovery.watch_dirs s →
  (length (Discovery.base_path s) ≤ length wd
   ∧ length wd ≤ S (length (Discovery.base_path s)))%nat.
Proof.
  unfold Discovery.watch_dirs. intros Hin.
  repeat (apply elem_of_cons in Hin as [->|Hin]; [simpl; lia|]).
  by apply elem_of_nil in Hin.
Qed.

Lemma scan_returns (now : Z) (s : Discovery.State) :
  (∀ wd, wd ∈ Discovery.watch_dirs s →
         path_exists (Discovery.fs s) wd = true →
         is_dir (Discovery.fs s) wd = true) →
  ∃ d s1,
    Discovery.discover_all_projects apply_project_template now s = Some (d, s1).
Proof.
  intros Hroots.
  destruct (scan_watch_fold apply_project_template now
              (Discovery.watch_dirs s) 0%nat s) as (d & s1 & Hrun & _).
  { intros wd Hin. split; [by apply watch_roots_fit|by apply Hroots]. }
  by exists d, s1.
Qed.

(** X2. A full scan never drops or changes a record that was in the
    registry before it: started with the memory and the registry file in
    agreement, on a tree whose watched roots (where they exist) are
    directories, it returns, leaves them in agreement, and every record
    registered before is still there, unchanged. *)
Theorem scan_keeps_existing_records (now : Z) (s : Discovery.State) :
  (∀ wd, wd ∈ Discovery.watch_dirs s →
         path_exists (Discovery.fs s) wd = true →
         is_dir (Discovery.fs s) wd = true) →
  InSync s →
  ∃ d s1,
    Discovery.discover_all_projects apply_project_template now s = Some (d, s1)
    ∧ InSync s1
    ∧ ∀ k r, Discovery.projects (Discovery.registry s) !! k = Some r →
             Discovery.projects (Discovery.registry s1) !! k = Some r.
Proof.
  intros Hroots Hsync. destruct (scan_returns now s Hroots) as (d & s1 & Hrun).
  exists d, s1. split; [done|].
  destruct (scan_grows now d s s1 Hrun Hsync) as (Hs1 & Hsub & _).
  split; [done|]. intros k r Hk. by eapply lookup_weaken.
Qed.

(** X3. The number a full scan returns is the number of records it added:
    under the same conditions the registry holds afterwards exactly that
    many more entries than before. *)
Theorem scan_count_is_registry_growth (now : Z) (s : Discovery.State) :
  (∀ wd, wd ∈ Discovery.watch_dirs s →
         path_exists (Discovery.fs s) wd = true →
         is_dir (Discovery.fs s) wd = true) →
  InSync s →
  ∃ d s1,
    Discovery.discover_all_projects apply_project_template now s = Some (d, s1)
    ∧ size (Discovery.projects (Discovery.registry s1))
      = (size (Discovery.projects (Discovery.registry s)) + d)%nat.
Proof.
  intros Hroots Hsync. destruct (scan_returns now s Hroots) as (d & s1 & Hrun).
  exists d, s1. split; [done|].
  by destruct (scan_grows now d s s1 Hrun Hsync) as (_ & _ & Hsize).
Qed.

(** X4. The registry stays keyed by directory name through a full scan: if
    every record sits under the name of its path, carries that name as id
    and name, and has the status its location gives, the same is true of
    the registry the scan leaves. *)
Theorem scan_keeps_registry_keyed (now : Z) (s : Discovery.State) :
  (∀ wd, wd ∈ Discovery.watch_dirs s →
         path_exists (Discovery.fs s) wd = true →
         is_dir (Discovery.fs s) wd = true) →
  Keyed s →
  ∃ d s1,
    Discovery.discover_all_projects apply_project_template now s = Some (d, s1)
    ∧ Keyed s1.
Proof.
  intros Hroots Hk. destruct (scan_returns now s Hroots) as (d & s1 & Hrun).
  exists d, s1. split; [done|].
  eapply (scan_invariant Keyed); [|done..].
  intros ? ? ? ? ?. apply check_new_keyed.
Qed.

End registration.

Lemma check_new_project_outcome_witness :
  ∃ s',
    Discovery.check_new_project Samples.two_file_template 10
      Samples.new_service Samples.foo = Some (true, s')
    ∧ Registered 10 Samples.new_service s' Samples.foo.
Proof.
  destruct (Discovery.check_new_project Samples.two_file_template 10
              Samples.new_service Samples.foo) as [[[] s']|] eqn:Hrun;
    [|vm_compute in Hrun; discriminate Hrun..].
  exists s'. split; [reflexivity|].
  exact (check_new_project_outcome Samples.two_file_template 10
           Samples.new_service s' Samples.foo true Hrun).
Defined.

Lemma scan_keeps_existing_records_witness :
  InSync Samples.idle_service
  ∧ ∃ d s1,
      Discovery.discover_all_projects Samples.two_file_template 20
        Samples.idle_service = Some (d, s1)
      ∧ Discovery.projects (Discovery.registry s1) !! "bar"
        = Some Samples.bar_record.
Proof.
  assert (InSync Samples.idle_service) as Hsync.
  { split; [|intros now; reflexivity].
    cbv [Samples.idle_service Samples.bar_registry Discovery.registry
         Discovery.projects Discovery.known_projects].
    symmetry. apply dom_singleton_L. }
  split; [exact Hsync|].
  destruct (scan_keeps_existing_records Samples.two_file_template 20
              Samples.idle_service) as (d & s1 & Hrun & _ & Hkeep);
    [check_roots|exact Hsync|].
  exists d, s1. split; [exact Hrun|]. apply Hkeep. reflexivity.
Defined.

Lemma scan_count_is_registry_growth_witness :
  InSync Samples.new_service
  ∧ ∃ d s1,
      Discovery.discover_all_projects Samples.two_file_template 10
        Samples.new_service = Some (d, s1)
      ∧ size (Discovery.projects (Discovery.registry s1)) = d.
Proof.
  assert (InSync Samples.new_service) as Hsync
    by exact (conj eq_refl (fun _ => eq_refl)).
  split; [exact Hsync|].
  destruct (scan_count_is_registry_growth Samples.two_file_template 10
              Samples.new_service) as (d & s1 & Hrun & Hsize);
    [check_roots|exact Hsync|].
  exists d, s1. split; [exact Hrun|exact Hsize].
Defined.

Lemma scan_keeps_registry_keyed_witness :
  Keyed Samples.idle_service
  ∧ ∃ d s1,
      Discovery.discover_all_projects Samples.two_file_template 20
        Samples.idle_service = Some (d, s1)
      ∧ Keyed s1.
Proof.
  assert (Keyed Samples.idle_service) as Hkeyed.
  { intros k r Hk.
    cbv [Samples.idle_service Samples.bar_registry Discovery.registry
         Discovery.projects] in Hk.
    apply lookup_singleton_Some in Hk as [<- <-]. by repeat split. }
  split; [exact Hkeyed|].
  apply (scan_keeps_registry_keyed Samples.two_file_template 20
           Samples.idle_service); [check_roots|exact Hkeyed].
Defined.

(** ** The update queue *)

Lemma queue_sync_fields (now : Z) (s : Discovery.State)
    (info : Discovery.ProjectInfo) :
  let s' := Discovery.queue_dashboard_sync now s info in
  Discovery.registry s' = Discovery.registry s
  ∧ Discovery.fs s' = Discovery.fs s
  ∧ Discovery.known_projects s' = Discovery.known_projects s
  ∧ Discovery.update_queue s' = Discovery.update_queue s
  ∧ Discovery.registry_file s' = Discovery.registry_file s
  ∧ Discovery.base_path s' = Discovery.base_path s.
Proof.
  unfold Discovery.queue_dashboard_sync.
  by destruct (Discovery.dashboard_sync_file s).
Qed.

(** What one refresh leaves alone. *)
Lemma refresh_project_frame (now : Z) (s s' : Discovery.State) (project_id : string) :
  Discovery.refresh_project now s project_id = Some s' →
  Discovery.fs s' = Discovery.fs s
  ∧ Discovery.known_projects s' = Discovery.known_projects s
  ∧ Discovery.update_queue s' = Discovery.update_queue s
  ∧ Discovery.registry_file s' = Discovery.registry_file s
  ∧ (∀ k, k ≠ project_id →
          Discovery.projects (Discovery.registry s') !! k
          = Discovery.projects (Discovery.registry s) !! k)
  ∧ (∀ k, Discovery.pi_path <$> Discovery.projects (Discovery.registry s') !! k
          = Discovery.pi_path <$> Discovery.projects (Discovery.registry s) !! k).
Proof.
  unfold Discovery.refresh_project.
  destruct (Discovery.projects (Discovery.registry s) !! project_id)
    as [old|] eqn:Hold; [|by intros [= <-]].
  destruct (path_exists _ _); [|by intros [= <-]].
  destruct (Discovery.analyze_project_quick now (Discovery.fs s)
              (Discovery.pi_path old)) as [info|] eqn:Ha; [|done].
  simpl. intros [= <-].
  destruct (queue_sync_fields now
              (Discovery.with_registry_projects s
                 (<[project_id := Discovery.refreshed old info now]>
                    (Discovery.projects (Discovery.registry s))))
              (Discovery.refreshed old info now))
    as (Hreg & Hfs & Hkn & Hq & Hfile & _).
  rewrite Hreg, Hfs, Hkn, Hq, Hfile. simpl.
  repeat split; try done.
  - intros k Hne. by rewrite lookup_insert_ne.
  - intros k. destruct (decide (k = project_id)) as [->|Hne].
    + rewrite lookup_insert_eq, Hold. simpl.
      by apply analyze_quick_keyed in Ha as (_ & _ & -> & _).
    + by rewrite lookup_insert_ne.
Qed.

Lemma refresh_project_returns (now : Z) (s : Discovery.State) (project_id : string) :
  Statable s → is_Some (Discovery.refresh_project now s project_id).
Proof.
  intros Hst. unfold Discovery.refresh_project.
  destruct (Discovery.projects (Discovery.registry s) !! project_id)
    as [old|] eqn:Hold; [|done].
  destruct (path_exists _ _) eqn:Hex; [|done].
  destruct (Hst _ _ Hold Hex) as [mtime Hm].
  unfold Discovery.analyze_project_quick. by rewrite Hm.
Qed.

Lemma refresh_project_statable (now : Z) (s s' : Discovery.State)
    (project_id : string) :
  Discovery.refresh_project now s project_id = Some s' →
  Statable s → Statable s'.
Proof.
  intros Hrun Hst k r Hk.
  destruct (refresh_project_frame _ _ _ _ Hrun) as (Hfs & _ & _ & _ & _ & Hpath).
  specialize (Hpath k). rewrite Hk in Hpath. simpl in Hpath.
  destruct (Discovery.projects (Discovery.registry s) !! k) as [r0|] eqn:Hk0;
    [|done].
  injection Hpath as Hp. rewrite Hfs, Hp. by apply (Hst k).
Qed.

Lemma refresh_project_keyed (now : Z) (s s' : Discovery.State)
    (project_id : string) :
  Discovery.refresh_project now s project_id = Some s' →
  Keyed s → Keyed s'.
Proof.
  unfold Discovery.refresh_project. intros Hrun Hkeyed.
  destruct (Discovery.projects (Discovery.registry s) !! project_id)
    as [old|] eqn:Hold; [|by injection Hrun as <-].
  destruct (path_exists _ _); [|by injection Hrun as <-].
  destruct (Discovery.analyze_project_quick now (Discovery.fs s)
              (Discovery.pi_path old)) as [info|] eqn:Ha; [|done].
  simpl in Hrun. injection Hrun as <-.
  destruct (queue_sync_fields now
              (Discovery.with_registry_projects s
                 (<[project_id := Discovery.refreshed old info now]>
                    (Discovery.projects (Discovery.registry s))))
              (Discovery.refreshed old info now)) as (Hreg & _).
  unfold Keyed. rewrite Hreg. simpl. intros k r.
  destruct (decide (k = project_id)) as [->|Hne].
  - rewrite lookup_insert_eq. intros [= <-]. simpl.
    apply analyze_quick_keyed in Ha as (-> & -> & -> & ->).
    by destruct (Hkeyed _ _ Hold) as (_ & _ & -> & _).
  - rewrite lookup_insert_ne by done. apply Hkeyed.
Qed.

Lemma refresh_all (now : Z) (ids : list string) :
  ∀ s, Statable s →
       ∃ s', foldlM (Discovery.refresh_project now) s ids = Some s'
             ∧ Discovery.fs s' = Discovery.fs s
             ∧ Discovery.known_projects s' = Discovery.known_projects s
             ∧ (∀ k, k ∉ ids →
                     Discovery.projects (Discovery.registry s') !! k
                     = Discovery.projects (Discovery.registry s) !! k)
             ∧ (∀ k, Discovery.pi_path
                       <$> Discovery.projects (Discovery.registry s') !! k
                     = Discovery.pi_path
                       <$> Discovery.projects (Discovery.registry s) !! k)
             ∧ (Keyed s → Keyed s').
Proof.
  induction ids as [|project_id rest IH]; intros s Hst.
  - exists s. split; [done|]. repeat (split; [done|]). done.
  - destruct (refresh_project_returns now s project_id Hst) as [s1 H1].
    destruct (refresh_project_frame _ _ _ _ H1)
      as (Hfs1 & Hkn1 & _ & _ & Hother1 & Hpath1).
    destruct (IH s1 (refresh_project_statable _ _ _ _ H1 Hst))
      as (s' & Hrest & Hfs & Hkn & Hother & Hpath & Hkeyed).
    exists s'. rewrite foldlM_cons, H1. simpl.
    split; [done|]. split; [congruence|]. split; [congruence|].
    split; [|split].
    + intros k [Hne Hk]%not_elem_of_cons. rewrite Hother by done.
      by apply Hother1.
    + intros k. by rewrite Hpath.
    + intros Hk. by apply Hkeyed, (refresh_project_keyed _ _ _ _ H1).
Qed.

(** X5. [process_update_queue], when every registered path that exists can
    be [stat]ed, returns with an empty queue; it touches neither the tree
    nor the known ids, changes no record whose id was not queued and no
    record's path; on an empty queue it does nothing at all (not even a
    save), otherwise it ends by writing the registry to its file; and it
    keeps the registry keyed by directory name. *)
Theorem process_update_queue_outcome (now : Z) (s : Discovery.State) :
  Statable s →
  ∃ s', Discovery.process_update_queue now s = Some s'
        ∧ Discovery.update_queue s' = ∅
        ∧ Discovery.fs s' = Discovery.fs s
        ∧ Discovery.known_projects s' = Discovery.known_projects s
        ∧ (∀ k, k ∉ Discovery.update_queue s →
                Discovery.projects (Discovery.registry s') !! k
                = Discovery.projects (Discovery.registry s) !! k)
        ∧ (∀ k, Discovery.pi_path
                  <$> Discovery.projects (Discovery.registry s') !! k
                = Discovery.pi_path
                  <$> Discovery.projects (Discovery.registry s) !! k)
        ∧ (Discovery.update_queue s = ∅ → s' = s)
        ∧ (Discovery.update_queue s ≠ ∅ →
           Discovery.registry_file s' = Stored (Discovery.registry s'))
        ∧ (Keyed s → Keyed s').
Proof.
  intros Hst. unfold Discovery.process_update_queue.
  destruct (decide (Discovery.update_queue s = ∅)) as [Hempty|Hfull].
  - rewrite bool_decide_eq_true_2 by done. exists s.
    split; [done|]. repeat (split; [done|]). done.
  - rewrite bool_decide_eq_false_2 by done.
    destruct (refresh_all now (elements (Discovery.update_queue s)) s Hst)
      as (s1 & Hrun & Hfs & Hkn & Hother & Hpath & Hkeyed).
    rewrite Hrun. simpl. eexists. split; [done|]. simpl.
    split; [done|]. split; [done|]. split; [done|].
    split; [intros k Hk; apply Hother; by rewrite elem_of_elements|].
    split; [done|]. split; [done|]. split; [done|].
    intros Hk. unfold Keyed. simpl. by apply Hkeyed.
Qed.

Lemma process_update_queue_outcome_witness :
  Statable Samples.running_service
  ∧ ∃ s', Discovery.process_update_queue 20 Samples.running_service = Some s'
          ∧ Discovery.update_queue s' = ∅
          ∧ Discovery.registry_file s' = Stored (Discovery.registry s').
Proof.
  assert (Statable Samples.running_service) as Hst.
  { intros k r Hk _.
    cbv [Samples.running_service Samples.idle_service Samples.bar_registry
         Discovery.with_queue Discovery.registry Discovery.projects] in Hk.
    apply lookup_singleton_Some in Hk as [<- <-]. by eexists. }
  split; [exact Hst|].
  destruct (process_update_queue_outcome 20 Samples.running_service Hst)
    as (s' & Hrun & Hqueue & _ & _ & _ & _ & _ & Hsaved & _).
  exists s'. split; [exact Hrun|]. split; [exact Hqueue|].
  apply Hsaved.
  exact (non_empty_singleton_L (C:=gset string) "bar").
Defined.




(** ** The dashboard mirror *)

Lemma merge_idea_ids (ideas : list Discovery.Idea) (new : Discovery.Idea) :
  map Discovery.idea_id (Discovery.merge_idea ideas new)
  = if bool_decide (Discovery.idea_id new ∈ map Discovery.idea_id ideas)
    then map Discovery.idea_id ideas
    else map Discovery.idea_id ideas ++ [Discovery.idea_id new].
Proof.
  induction ideas as [|idea rest IH]; cbn [map Discovery.merge_idea].
  - by rewrite bool_decide_eq_false_2 by apply not_elem_of_nil.
  - destruct (String.eqb_spec (Discovery.idea_id idea) (Discovery.idea_id new))
      as [Heq|Hne]; cbn [map].
    + rewrite bool_decide_eq_true_2 by (rewrite Heq; by left). by rewrite Heq.
    + rewrite IH. destruct (bool_decide _) eqn:Hin.
      * apply bool_decide_eq_true in Hin.
        by rewrite bool_decide_eq_true_2 by (by right).
      * apply bool_decide_eq_false in Hin.
        rewrite bool_decide_eq_false_2; [done|].
        intros [?|?]%elem_of_cons; congruence.
Qed.

Lemma merge_idea_keeps (ideas : list Discovery.Idea) (new : Discovery.Idea) :
  Discovery.idea_id new ∈ map Discovery.idea_id (Discovery.merge_idea ideas new)
  ∧ ∀ k, k ∈ map Discovery.idea_id ideas →
         k ∈ map Discovery.idea_id (Discovery.merge_idea ideas new).
Proof.
  rewrite merge_idea_ids. destruct (bool_decide _) eqn:Hin.
  - apply bool_decide_eq_true in Hin. by split.
  - split.
    + apply elem_of_app. right. by left.
    + intros k Hk. apply elem_of_app. by left.
Qed.

Lemma merge_idea_unique (ideas : list Discovery.Idea) (new : Discovery.Idea) :
  NoDup (map Discovery.idea_id ideas) →
  NoDup (map Discovery.idea_id (Discovery.merge_idea ideas new)).
Proof.
  intros Hnd. rewrite merge_idea_ids. destruct (bool_decide _) eqn:Hin; [done|].
  apply bool_decide_eq_false in Hin.
  apply NoDup_app. split; [done|]. split; [|apply NoDup_singleton].
  intros k Hk ->%list_elem_of_singleton. done.
Qed.

Lemma merged_keeps (pending : list Discovery.SyncEntry) :
  ∀ ideas,
    (∀ k, k ∈ map Discovery.idea_id ideas →
          k ∈ map Discovery.idea_id (merged ideas pending))
    ∧ (∀ update, update ∈ pending →
         Discovery.pi_id (Discovery.se_data update)
         ∈ map Discovery.idea_id (merged ideas pending)).
Proof.
  unfold merged. induction pending as [|update rest IH]; intros ideas; simpl.
  - split; [done|]. by intros update ?%elem_of_nil.
  - destruct (merge_idea_keeps ideas
                (Discovery.dashboard_project (Discovery.se_data update)))
      as [Hnew Hold].
    destruct (IH (Discovery.merge_idea ideas
                    (Discovery.dashboard_project (Discovery.se_data update))))
      as [Hkeep Hall].
    split; [by intros k Hk; apply Hkeep, Hold|].
    intros u [->|Hu]%elem_of_cons; [|by apply Hall].
    by apply Hkeep.
Qed.

Lemma merged_unique (pending : list Discovery.SyncEntry) :
  ∀ ideas, NoDup (map Discovery.idea_id ideas) →
           NoDup (map Discovery.idea_id (merged ideas pending)).
Proof.
  unfold merged. induction pending as [|update rest IH]; intros ideas Hnd;
    simpl; [done|].
  by apply IH, merge_idea_unique.
Qed.

Lemma first_that_found {A : Type} (f : A → bool) (l : list A) (x : A) :
  x ∈ l → f x = true → is_Some (Discovery.first_that f l).
Proof.
  intros Hin Hf. unfold Discovery.first_that.
  assert (x ∈ filter (λ y, f y = true) l) as Hx
    by (by apply list_elem_of_filter).
  destruct (filter _ l); [by apply elem_of_nil in Hx|by eexists].
Qed.

Lemma first_that_elem {A : Type} (f : A → bool) (l : list A) (x : A) :
  Discovery.first_that f l = Some x → x ∈ l ∧ f x = true.
Proof.
  unfold Discovery.first_that. intros Hhead.
  assert (x ∈ filter (λ y, f y = true) l) as Hx.
  { destruct (filter _ l); [done|]. injection Hhead as ->. by left. }
  apply list_elem_of_filter in Hx as [? ?]. done.
Qed.

(** Where [update_dashboard_data] writes, and what. *)
Lemma update_dashboard_writes (s : Discovery.State)
    (backlogs : Discovery.Backlogs) (pending : list Discovery.SyncEntry)
    (location : Path) :
  location ∈ Discovery.dashboard_locations s →
  path_exists (Discovery.fs s) location = true →
  (∀ p, backlogs !! p ≠ Some None) →
  ∃ p,
    p ∈ Discovery.backlog_locations s
    ∧ (∀ q, q ∈ Discovery.backlog_locations s → is_Some (backlogs !! q) →
            is_Some (backlogs !! p))
    ∧ Discovery.update_dashboard_data s backlogs pending
      = Some (<[p := Some (merged (ideas_at backlogs p) pending)]> backlogs).
Proof.
  intros Hloc Hex Hparse. unfold Discovery.update_dashboard_data.
  destruct (first_that_found (path_exists (Discovery.fs s)) _ _ Hloc Hex)
    as [dashboard_dir ->].
  set (chosen := Discovery.first_that _ (Discovery.backlog_locations s)).
  set (p := default ("idea-backlog.json" :: Discovery.systems_dir s) chosen).
  exists p. split; [|split].
  - unfold p. destruct chosen as [q|] eqn:Hq; simpl.
    + by apply first_that_elem in Hq as [? _].
    + unfold Discovery.backlog_locations, Discovery.systems_dir.
      by repeat constructor.
  - intros q Hq Hsome. unfold p.
    destruct (first_that_found
                (λ p, bool_decide (is_Some (backlogs !! p))) _ q Hq)
      as [q' Hq']; [by apply bool_decide_eq_true|].
    fold chosen in Hq'. rewrite Hq'. simpl.
    apply first_that_elem in Hq' as [_ Hdec].
    by apply bool_decide_eq_true in Hdec.
  - unfold ideas_at, merged.
    destruct (backlogs !! p) as [[ideas|]|] eqn:Hfile; simpl; [done| |done].
    by destruct (Hparse p).
Qed.

(** X7. [update_dashboard_data], when a dashboard directory exists and no
    backlog file is unreadable, returns after writing one backlog file, at
    one of the three expected places and at an existing one when there is
    any. If the ids of every backlog were distinct, the ids of the written
    one are too; it lists every pending project, and every id the file held
    before. *)
Theorem dashboard_update_keeps_ids_unique (s : Discovery.State)
    (backlogs : Discovery.Backlogs) (pending : list Discovery.SyncEntry)
    (location : Path) :
  location ∈ Discovery.dashboard_locations s →
  path_exists (Discovery.fs s) location = true →
  (∀ p, backlogs !! p ≠ Some None) →
  (∀ p ideas, backlogs !! p = Some (Some ideas) →
              NoDup (map Discovery.idea_id ideas)) →
  ∃ p ideas',
    p ∈ Discovery.backlog_locations s
    ∧ Discovery.update_dashboard_data s backlogs pending
      = Some (<[p := Some ideas']> backlogs)
    ∧ NoDup (map Discovery.idea_id ideas')
    ∧ (∀ update, update ∈ pending →
         Discovery.pi_id (Discovery.se_data update)
         ∈ map Discovery.idea_id ideas')
    ∧ (∀ ideas k, backlogs !! p = Some (Some ideas) →
                  k ∈ map Discovery.idea_id ideas →
                  k ∈ map Discovery.idea_id ideas')
    ∧ (∀ q, q ∈ Discovery.backlog_locations s → is_Some (backlogs !! q) →
            is_Some (backlogs !! p)).
Proof.
  intros Hloc Hex Hparse Huniq.
  destruct (update_dashboard_writes s backlogs pending location Hloc Hex Hparse)
    as (p & Hp & Hfirst & Hrun).
  exists p, (merged (ideas_at backlogs p) pending).
  destruct (merged_keeps pending (ideas_at backlogs p)) as [Hkeep Hall].
  split; [done|]. split; [done|]. split; [|split; [done|split; [|done]]].
  - apply merged_unique. unfold ideas_at.
    destruct (backlogs !! p) as [[ideas|]|] eqn:Hfile;
      [by apply (Huniq p)|apply NoDup_nil_2..].
  - intros ideas k Hfile. unfold ideas_at in *. rewrite Hfile in *.
    apply Hkeep.
Qed.

Lemma dashboard_update_keeps_ids_unique_witness :
  ∃ p ideas',
    p ∈ Discovery.backlog_locations Samples.dashboard_service
    ∧ Discovery.update_dashboard_data Samples.dashboard_service
        Samples.one_backlog [Samples.bar_update]
      = Some (<[p := Some ideas']> Samples.one_backlog)
    ∧ NoDup (map Discovery.idea_id ideas').
Proof.
  destruct (dashboard_update_keeps_ids_unique Samples.dashboard_service
              Samples.one_backlog [Samples.bar_update]
              ("dashboard" :: "Project Management" :: Samples.home))
    as (p & ideas' & Hp & Hrun & Hnd & _).
  - by left.
  - reflexivity.
  - intros p Hp. unfold Samples.one_backlog in Hp.
    apply lookup_singleton_Some in Hp as [_ Hp]. discriminate Hp.
  - intros p ideas Hp. unfold Samples.one_backlog in Hp.
    apply lookup_singleton_Some in Hp as [_ [= <-]]. apply NoDup_singleton.
  - exists p, ideas'. split; [exact Hp|]. split; [exact Hrun|exact Hnd].
Defined.

(** X8. When no dashboard directory exists, [sync_with_dashboard] still
    empties the queue of pending updates and stamps it: the updates are
    dropped without reaching any backlog. *)
Theorem sync_without_dashboard_drops_updates (now : Z) (s : Discovery.State)
    (backlogs : Discovery.Backlogs) (sync_data : Discovery.SyncData) :
  Discovery.dashboard_sync_file s = Stored sync_data →
  Discovery.pending_updates sync_data ≠ [] →
  (∀ location, location ∈ Discovery.dashboard_locations s →
               path_exists (Discovery.fs s) location = false) →
  Discovery.sync_with_dashboard now s backlogs
  = (Discovery.with_sync s
       (Stored {| Discovery.pending_updates := [];
                  Discovery.last_sync := now |}),
     backlogs).
Proof.
  intros Hfile Hpending Hnone. unfold Discovery.sync_with_dashboard.
  rewrite Hfile. destruct (Discovery.pending_updates sync_data) as [|u rest];
    [done|].
  unfold Discovery.update_dashboard_data, Discovery.first_that.
  rewrite filter_none; [done|].
  intros location Hin. rewrite (Hnone location Hin). done.
Qed.

Lemma sync_without_dashboard_drops_updates_witness :
  Discovery.sync_with_dashboard 20 Samples.idle_service Samples.one_backlog
  = (Discovery.with_sync Samples.idle_service
       (Stored {| Discovery.pending_updates := [];
                  Discovery.last_sync := 20 |}),
     Samples.one_backlog).
Proof.
  apply (sync_without_dashboard_drops_updates 20 Samples.idle_service
           Samples.one_backlog
           {| Discovery.pending_updates := [Samples.bar_update];
              Discovery.last_sync := 10 |}).
  - reflexivity.
  - discriminate.
  - intros location Hin. unfold Discovery.dashboard_locations in Hin.
    repeat (apply elem_of_cons in Hin as [->|Hin]; [reflexivity|]).
    apply elem_of_nil in Hin. destruct Hin.
Defined.

(** ** Recommendations *)

Lemma activity_walk_uniform (now w : Z) (entries : list (Path * Node)) :
  ∀ t c, Forall (weighs now w) entries →
         Lifecycle.activity_walk now entries t c
         = Some (t + w * Z.of_nat (length (Lifecycle.files_only entries)),
                 c + Z.of_nat (length (Lifecycle.files_only entries))).
Proof.
  unfold Lifecycle.files_only.
  induction entries as [|[q [mt|[st|]]] rest IH]; intros t c Hall.
  - simpl. f_equal. f_equal; lia.
  - rewrite filter_cons_bool. simpl. apply IH. by inversion Hall.
  - rewrite filter_cons_bool. simpl is_file_node. cbv iota.
    inversion Hall as [|? ? Hw Hrest]; subst.
    unfold weighs in Hw. simpl in Hw.
    simpl Lifecycle.activity_walk.
    rewrite Hw. rewrite IH by done. simpl length.
    f_equal. f_equal; lia.
  - inversion Hall as [|? ? Hw]. by destruct Hw.
Qed.

Lemma q_gt_score (w n k : Z) :
  0 < n → Lifecycle.q_gt (Lifecycle.score_of (w * n) n) (inject_Z k) = (k <? w).
Proof.
  intros Hn. unfold Lifecycle.q_gt, Lifecycle.score_of, Qle_bool. simpl.
  rewrite Z2Pos.id by lia.
  destruct (Z.leb_spec (w * n * 1) (k * Z.max n 1));
    destruct (Z.ltb_spec k w); simpl; try done; nia.
Qed.

Lemma not_a_root (name : string) :
  name ∉ Spec.lifecycle_roots →
  String.eqb name "active" = false ∧ String.eqb name "staging" = false
  ∧ String.eqb name "archive" = false ∧ String.eqb name "systems" = false.
Proof.
  unfold Spec.lifecycle_roots. intros Hout.
  repeat split; apply String.eqb_neq; intros ->; apply Hout;
    by repeat constructor.
Qed.

(** X9. For a project outside the four lifecycle directories whose files
    all carry the same recency weight, the recommendation depends on that
    weight alone: [should_be_active] for a weight above 5 (which is 10,
    every file changed within the day), [should_be_staging] for a weight
    above 1 (5 or 2, every file at most thirty days old),
    [should_be_archived] otherwise, and always for a project without
    files. *)
Theorem recommendation_for_uniform_age (now w : Z) (disk : FS) (path : Path) :
  path_name (path_parent path) ∉ Spec.lifecycle_roots →
  Forall (weighs now w) (rglob disk path) →
  Lifecycle.determine_lifecycle_stage now disk path
  = Some (if bool_decide (Lifecycle.files_only (rglob disk path) = [])
          then "should_be_archived" else recommended w).
Proof.
  intros (N1 & N2 & N3 & N4)%not_a_root Hall.
  unfold Lifecycle.determine_lifecycle_stage. rewrite N1, N2, N3, N4.
  unfold Lifecycle.calculate_activity_score.
  rewrite (activity_walk_uniform now w _ 0 0 Hall). simpl.
  destruct (Lifecycle.files_only (rglob disk path)) as [|e l] eqn:Hfiles.
  - rewrite bool_decide_eq_true_2 by done. simpl length.
    by rewrite Z.mul_0_r.
  - rewrite bool_decide_eq_false_2 by done.
    set (n := Z.of_nat (length (e :: l))).
    assert (0 < n) as Hn by (unfold n; simpl; lia).
    change (Lifecycle.q_gt (Lifecycle.score_of (0 + w * n) (0 + n)) 5)
      with (Lifecycle.q_gt (Lifecycle.score_of (0 + w * n) (0 + n)) (inject_Z 5)).
    change (Lifecycle.q_gt (Lifecycle.score_of (0 + w * n) (0 + n)) 1)
      with (Lifecycle.q_gt (Lifecycle.score_of (0 + w * n) (0 + n)) (inject_Z 1)).
    rewrite !Z.add_0_l, !q_gt_score by done.
    unfold recommended. by repeat case_match.
Qed.

Lemma recommendation_for_uniform_age_witness :
  Lifecycle.determine_lifecycle_stage 90000 Samples.fresh_tree
    ("fresh" :: Samples.home)
  = Some "should_be_active".
Proof.
  rewrite (recommendation_for_uniform_age 90000 10 Samples.fresh_tree
           ("fresh" :: Samples.home)).
  - rewrite bool_decide_eq_false_2; [reflexivity|].
    vm_compute. discriminate.
  - unfold Spec.lifecycle_roots. intros Hin.
    repeat (apply elem_of_cons in Hin as [Hin|Hin]; [discriminate Hin|]).
    apply elem_of_nil in Hin. destruct Hin.
  - walk_all.
Defined.

(** ** Size on disk *)

Lemma round_hundredths_error (num den : Z) :
  0 < den →
  2 * Z.abs (100 * num - den * Lifecycle.round_hundredths num den) ≤ den.
Proof.
  intros Hden. unfold Lifecycle.round_hundredths.
  pose proof (Z.div_mod (100 * num) den ltac:(lia)) as Hdm.
  pose proof (Z.mod_pos_bound (100 * num) den Hden) as Hb.
  set (q := 100 * num / den) in *. set (r := (100 * num) mod den) in *.
  repeat case_match; lia.
Qed.

Lemma round_hundredths_nonneg (num den : Z) :
  0 < den → 0 ≤ num → 0 ≤ Lifecycle.round_hundredths num den.
Proof.
  intros Hden Hnum. unfold Lifecycle.round_hundredths.
  assert (0 ≤ 100 * num / den) by (apply Z.div_pos; lia).
  repeat case_match; lia.
Qed.

Lemma size_walk_nonneg (entries : list (Path * Node)) :
  ∀ acc, 0 ≤ acc → Forall sized entries → 0 ≤ Lifecycle.size_walk entries acc.
Proof.
  induction entries as [|[q [mt|[st|]]] rest IH]; intros acc Hacc Hall; simpl;
    [done| | |done].
  - apply IH; [done|]. by inversion Hall.
  - inversion Hall as [|? ? Hsz Hrest]; subst. unfold sized in Hsz.
    simpl in Hsz. apply IH; [lia|done].
Qed.

(** X10. [get_directory_size] answers in hundredths of a megabyte, within
    half a hundredth of the bytes it has summed, and never below zero when
    no file has a negative size. *)
Theorem directory_size_is_rounded (disk : FS) (path : Path) :
  let bytes := Lifecycle.size_walk (rglob disk path) 0 in
  let hundredths := Qnum (Lifecycle.get_directory_size disk path) in
  Qden (Lifecycle.get_directory_size disk path) = 100%positive
  ∧ 2 * Z.abs (100 * bytes - 1048576 * hundredths) ≤ 1048576
  ∧ (Forall sized (rglob disk path) → 0 ≤ hundredths).
Proof.
  simpl. split; [done|].
  split; [by apply (round_hundredths_error _ 1048576)|].
  intros Hall. apply round_hundredths_nonneg; [done|].
  by apply size_walk_nonneg.
Qed.

Lemma directory_size_is_rounded_witness :
  0 ≤ Qnum (Lifecycle.get_directory_size Samples.fresh_tree
              ("fresh" :: Samples.home)).
Proof.
  apply (directory_size_is_rounded Samples.fresh_tree ("fresh" :: Samples.home)).
  walk_all.
Defined.

(** ** The lifecycle manager's scan *)

Lemma rglob_readable (disk : FS) (path : Path) :
  AllReadable disk → Forall Spec.stat_succeeds (rglob disk path).
Proof.
  intros Hr. apply Forall_forall. intros [q n] Hin.
  apply list_elem_of_filter in Hin as [_ Hin].
  apply elem_of_map_to_list in Hin. unfold Spec.stat_succeeds. simpl.
  intros ->. by apply (Hr q).
Qed.

Lemma all_readable_listing (disk : FS) :
  forallb (fun e => match snd e with File None => false | _ => true end)
          (map_to_list disk) = true →
  AllReadable disk.
Proof.
  intros Hall p Hp. apply elem_of_map_to_list, list_elem_of_In in Hp.
  rewrite forallb_forall in Hall. by apply Hall in Hp.
Qed.

Section lifecycle_scan.

Variable extract_project_metadata : FS → Path → Lifecycle.Metadata.

Lemma analyze_project_returns (now : Z) (disk : FS) (path : Path) :
  is_dir disk path = true → AllReadable disk →
  ∃ info,
    Lifecycle.analyze_project extract_project_metadata now disk path = Some info
    ∧ Lifecycle.pi_id info = path_name path
    ∧ Lifecycle.pi_path info = path
    ∧ Lifecycle.pi_moved_at info = None.
Proof.
  intros Hd Hr. unfold Lifecycle.analyze_project.
  destruct (is_dir_stat _ _ Hd) as [mtime ->]. simpl.
  assert (is_Some (Lifecycle.calculate_activity_score now disk path))
    as [score Hscore].
  { unfold Lifecycle.calculate_activity_score.
    destruct (activity_walk_returns now (rglob disk path) 0 0
                (rglob_readable disk path Hr)) as [r ->]. by eexists. }
  rewrite Hscore. simpl.
  assert (is_Some (Lifecycle.determine_lifecycle_stage now disk path))
    as [stage ->].
  { unfold Lifecycle.determine_lifecycle_stage. rewrite Hscore. simpl.
    repeat case_match; by eexists. }
  simpl. by eexists.
Qed.

Lemma analyze_project_fields (now : Z) (disk : FS) (path : Path)
    (info : Lifecycle.ProjectInfo) :
  Lifecycle.analyze_project extract_project_metadata now disk path = Some info →
  Lifecycle.pi_id info = path_name path
  ∧ Lifecycle.pi_path info = path
  ∧ Lifecycle.pi_moved_at info = None.
Proof.
  unfold Lifecycle.analyze_project.
  destruct (stat_mtime disk path); [|done]. simpl.
  destruct (Lifecycle.calculate_activity_score now disk path); [|done]. simpl.
  destruct (Lifecycle.determine_lifecycle_stage now disk path); [|done]. simpl.
  by intros [= <-].
Qed.

(** What the loop of [discover_projects] has done after some items. *)
Lemma discover_items_fold (now : Z) (disk : FS) (items : list Path) :
  AllReadable disk →
  ∀ found m,
    Lifecycle.fs m = disk →
    ∃ found' m',
      foldlM (Lifecycle.discover_item extract_project_metadata now) (found, m) items
      = Some (found ++ found', m')
      ∧ Lifecycle.fs m' = disk
      ∧ Lifecycle.base_path m' = Lifecycle.base_path m
      ∧ Lifecycle.metadata_file m' = Lifecycle.metadata_file m
      ∧ map Lifecycle.pi_path found'
        = filter (fun q => Lifecycle.scanned disk q = true) items
      ∧ map Lifecycle.pi_id found'
        = map path_name (filter (fun q => Lifecycle.scanned disk q = true) items)
      ∧ (∀ info, info ∈ found' →
           is_Some (Lifecycle.projects (Lifecycle.project_registry m')
                      !! Lifecycle.pi_id info))
      ∧ (∀ k old,
           Lifecycle.projects (Lifecycle.project_registry m) !! k = Some old →
           ∃ new,
             Lifecycle.projects (Lifecycle.project_registry m') !! k = Some new
             ∧ Lifecycle.pi_moved_at new = Lifecycle.pi_moved_at old)
      ∧ (∀ k, k ∉ map path_name (filter (fun q => Lifecycle.scanned disk q = true) items) →
              Lifecycle.projects (Lifecycle.project_registry m') !! k
              = Lifecycle.projects (Lifecycle.project_registry m) !! k).
Proof.
  intros Hr. induction items as [|item rest IH]; intros found m Hfs.
  - exists [], m. rewrite app_nil_r. split; [done|]. repeat (split; [done|]).
    split; [by intros info ?%elem_of_nil|]. split; [|done].
    intros k old Hk. by exists old.
  - rewrite foldlM_cons, filter_cons_bool.
    destruct (Lifecycle.scanned disk item) eqn:Hscan.
    + assert (is_dir disk item = true) as Hd.
      { unfold Lifecycle.scanned in Hscan.
        by apply andb_true_iff in Hscan as [[? _]%andb_true_iff _]. }
      destruct (analyze_project_returns now disk item Hd Hr)
        as (info & Ha & Hid & Hpath & Hmoved).
      set (ps := Lifecycle.projects (Lifecycle.project_registry m)).
      set (ps' := match ps !! Lifecycle.pi_id info with
                  | Some old => <[Lifecycle.pi_id info :=
                                    Lifecycle.update_info old info]> ps
                  | None => <[Lifecycle.pi_id info := info]> ps
                  end).
      assert (Lifecycle.discover_item extract_project_metadata now (found, m) item
              = Some (found ++ [info], Lifecycle.with_projects m ps')) as ->.
      { unfold Lifecycle.discover_item. by rewrite Hfs, Hscan, Ha. }
      simpl.
      destruct (IH (found ++ [info]) (Lifecycle.with_projects m ps'))
        as (found' & m' & Hrun & Hfs' & Hbase & Hfile & Hpaths & Hids & Hstored
            & Hkeep & Hother); [done|].
      exists (info :: found'), m'.
      rewrite <- app_assoc in Hrun. split; [exact Hrun|].
      split; [done|]. split; [done|]. split; [done|].
      split; [simpl; by rewrite Hpath, Hpaths|].
      split; [simpl; by rewrite Hid, Hids|].
      assert (∃ r, ps' !! Lifecycle.pi_id info = Some r
                   ∧ ∀ old, ps !! Lifecycle.pi_id info = Some old →
                            Lifecycle.pi_moved_at r = Lifecycle.pi_moved_at old)
        as (r & Hr' & Hrm).
      { unfold ps'. destruct (ps !! Lifecycle.pi_id info) as [old|] eqn:Hold.
        - eexists. rewrite lookup_insert_eq. split; [done|].
          intros ? [= <-]. simpl. by rewrite Hmoved.
        - eexists. rewrite lookup_insert_eq. split; [done|]. done. }
      assert (∀ k, k ≠ Lifecycle.pi_id info → ps' !! k = ps !! k) as Hne.
      { intros k Hk. unfold ps'.
        destruct (ps !! Lifecycle.pi_id info); by rewrite lookup_insert_ne. }
      split; [|split].
      * intros i [->|Hi]%elem_of_cons; [|by apply Hstored].
        destruct (Hkeep _ _ Hr') as (new & -> & _). by eexists.
      * intros k old Hk.
        destruct (decide (k = Lifecycle.pi_id info)) as [->|Hk'].
        -- destruct (Hkeep _ _ Hr') as (new & Hnew & Hm). exists new.
           split; [done|]. rewrite Hm. by apply Hrm.
        -- apply Hkeep. simpl. by rewrite Hne.
      * intros k Hk. simpl in Hk. apply not_elem_of_cons in Hk as [Hk1 Hk2].
        rewrite Hother by done. simpl. apply Hne. by rewrite Hid.
    + assert (Lifecycle.discover_item extract_project_metadata now (found, m) item
              = Some (found, m)) as ->.
      { unfold Lifecycle.discover_item. by rewrite Hfs, Hscan. }
      simpl.
      destruct (IH found m Hfs)
        as (found' & m' & Hrun & Hrest).
      exists found', m'. split; [exact Hrun|]. exact Hrest.
Qed.

(** X11. [discover_projects], on a root that can be listed and a tree on
    which [stat] never fails, returns one record for each directory it does
    not skip, in the order of the listing, leaves the tree alone and writes
    the registry to its file. Every returned record has the name of its
    directory as id and is registered under it; every record registered
    before is still registered, with the [moved_at] it had; records under
    other names are unchanged. *)
Theorem discover_projects_outcome (now : Z) (m : Lifecycle.Manager)
    (scan_root : option Path) (items : list Path) :
  iterdir (Lifecycle.fs m) (default (Lifecycle.base_path m) scan_root)
  = Some items →
  AllReadable (Lifecycle.fs m) →
  ∃ found m',
    Lifecycle.discover_projects extract_project_metadata now m scan_root
    = Some (found, m')
    ∧ Lifecycle.fs m' = Lifecycle.fs m
    ∧ Lifecycle.metadata_file m' = Stored (Lifecycle.project_registry m')
    ∧ map Lifecycle.pi_path found
      = filter (fun q => Lifecycle.scanned (Lifecycle.fs m) q = true) items
    ∧ map Lifecycle.pi_id found = map path_name (map Lifecycle.pi_path found)
    ∧ (∀ info, info ∈ found →
         is_Some (Lifecycle.projects (Lifecycle.project_registry m')
                    !! Lifecycle.pi_id info))
    ∧ (∀ k old,
         Lifecycle.projects (Lifecycle.project_registry m) !! k = Some old →
         ∃ new,
           Lifecycle.projects (Lifecycle.project_registry m') !! k = Some new
           ∧ Lifecycle.pi_moved_at new = Lifecycle.pi_moved_at old)
    ∧ (∀ k, k ∉ map path_name
                  (filter (fun q => Lifecycle.scanned (Lifecycle.fs m) q = true)
                          items) →
            Lifecycle.projects (Lifecycle.project_registry m') !! k
            = Lifecycle.projects (Lifecycle.project_registry m) !! k).
Proof.
  intros Hitems Hr. unfold Lifecycle.discover_projects. rewrite Hitems. simpl.
  destruct (discover_items_fold now (Lifecycle.fs m) items Hr [] m eq_refl)
    as (found & m' & Hrun & Hfs & _ & _ & Hpaths & Hids & Hstored & Hkeep
        & Hother).
  rewrite Hrun. simpl. exists found, (Lifecycle.save_project_registry now m').
  split; [done|]. split; [done|]. split; [done|]. split; [done|].
  split; [by rewrite Hids, Hpaths|]. by repeat split.
Qed.

End lifecycle_scan.

Lemma discover_projects_outcome_witness :
  AllReadable Samples.workspace
  ∧ ∃ found m',
      Lifecycle.discover_projects Samples.no_metadata 90000
        Samples.new_manager None = Some (found, m')
      ∧ map Lifecycle.pi_path found = ["foo" :: Samples.home]
      ∧ is_Some (Lifecycle.projects (Lifecycle.project_registry m') !! "foo").
Proof.
  assert (AllReadable Samples.workspace) as Hreadable
    by (apply all_readable_listing; vm_compute; reflexivity).
  split; [exact Hreadable|].
  destruct (discover_projects_outcome Samples.no_metadata 90000
              Samples.new_manager None
              (default [] (iterdir Samples.workspace Samples.home)))
    as (found & m' & Hrun & _ & _ & Hpaths & Hids & Hstored & _).
  - vm_compute. reflexivity.
  - exact Hreadable.
  - exists found, m'. split; [exact Hrun|].
    assert (map Lifecycle.pi_path found = ["foo" :: Samples.home]) as Hfound.
    { rewrite Hpaths. vm_compute. reflexivity. }
    split; [exact Hfound|].
    rewrite Hfound in Hids.
    destruct found as [|info rest]; [discriminate Hfound|].
    injection Hids as Hid _.
    change "foo" with (path_name ("foo" :: Samples.home)).
    rewrite <- Hid. apply Hstored. left.
Defined.

(** ** Suggestions and their execution *)

Lemma elem_of_concat_lists {A : Type} (ls : list (list A)) (y : A) :
  y ∈ concat ls ↔ ∃ l, l ∈ ls ∧ y ∈ l.
Proof.
  induction ls as [|l ls IH]; simpl.
  - split; [by intros ?%elem_of_nil|]. by intros (l & ?%elem_of_nil & _).
  - rewrite elem_of_app, IH. split.
    + intros [Hy|(l' & Hl' & Hy)]; [exists l; split; [by left|done]|].
      exists l'. split; [by right|done].
    + intros (l' & [->|Hl']%elem_of_cons & Hy); [by left|].
      right. by exists l'.
Qed.

Lemma elem_of_suggestions (now : Z) (m : Lifecycle.Manager)
    (sgs : list Lifecycle.Suggestion) (sg : Lifecycle.Suggestion) :
  Lifecycle.suggest_lifecycle_actions now m = Some sgs →
  sg ∈ sgs
  ↔ ∃ k info own,
      Lifecycle.projects (Lifecycle.project_registry m) !! k = Some info
      ∧ Lifecycle.suggest_for now m (k, info) = Some own
      ∧ sg ∈ own.
Proof.
  intros (per_entry & Hall & ->)%suggestions_per_entry.
  rewrite elem_of_concat_lists. split.
  - intros (own & Hown & Hsg).
    apply list_elem_of_lookup_1 in Hown as [i Hi].
    destruct (Forall2_lookup_r _ _ _ _ _ Hall Hi) as ([k info] & He & Hfor).
    exists k, info, own. split; [|done].
    apply elem_of_map_to_list. by eapply list_elem_of_lookup_2.
  - intros (k & info & own & Hk & Hfor & Hsg).
    apply elem_of_map_to_list, list_elem_of_lookup_1 in Hk as [i Hi].
    destruct (Forall2_lookup_l _ _ _ _ _ Hall Hi) as (own' & Hown' & Hfor').
    exists own. split; [|done].
    assert (own' = own) as -> by congruence.
    by eapply list_elem_of_lookup_2.
Qed.

Lemma target_of_recommendation (stage : string) :
  stage ∈ Lifecycle.should_be_stages →
  Lifecycle.target_of stage ∈ ["active"; "staging"; "archived"].
Proof.
  unfold Lifecycle.should_be_stages. intros Hin.
  repeat (apply elem_of_cons in Hin as [->|Hin];
          [vm_compute; by repeat constructor|]).
  by apply elem_of_nil in Hin.
Qed.

Lemma suggest_for_shape (now : Z) (m : Lifecycle.Manager) (k : string)
    (info : Lifecycle.ProjectInfo) (own : list Lifecycle.Suggestion)
    (sg : Lifecycle.Suggestion) :
  Lifecycle.suggest_for now m (k, info) = Some own →
  sg ∈ own →
  Lifecycle.sg_project sg = k
  ∧ (Lifecycle.sg_action sg, Lifecycle.sg_priority sg) ∈ suggestion_kinds
  ∧ (Lifecycle.sg_action sg = "move_project" →
     ∃ stage,
       Lifecycle.pi_lifecycle_stage info = Some stage
       ∧ stage ∈ Lifecycle.should_be_stages
       ∧ Lifecycle.sg_to sg = Some (Lifecycle.target_of stage))
  ∧ (Lifecycle.sg_action sg = "auto_archive" →
     ∃ stage,
       Lifecycle.pi_lifecycle_stage info = Some stage
       ∧ stage ∉ ["archived"; "system"])
  ∧ (Lifecycle.sg_action sg = "remove_registry_entry" →
     path_exists (Lifecycle.fs m) (Lifecycle.pi_path info) = false).
Proof.
  unfold Lifecycle.suggest_for, suggestion_kinds, str_in.
  destruct (path_exists (Lifecycle.fs m) (Lifecycle.pi_path info)); simpl.
  - destruct (Lifecycle.pi_lifecycle_stage info) as [stage|]; [|done]. simpl.
    destruct (Lifecycle.pi_last_modified info) as [last_modified|]; [|done].
    simpl.
    destruct (Lifecycle.settings _) as [registry_settings|]; [|done]. simpl.
    destruct (Lifecycle.pi_size_mb info) as [size_mb|]; [|done]. simpl.
    intros [= <-]. rewrite !elem_of_app.
    intros [Hsg|[Hsg|Hsg]].
    + destruct (bool_decide _) eqn:Hstage in Hsg;
        [|by apply elem_of_nil in Hsg].
      apply bool_decide_eq_true in Hstage.
      apply list_elem_of_singleton in Hsg as ->. simpl.
      split; [done|]. split; [by repeat constructor|].
      split; [intros _; by exists stage|]. by split.
    + destruct (_ && _) eqn:Hcond in Hsg; [|by apply elem_of_nil in Hsg].
      apply andb_true_iff in Hcond as [_ Hstage].
      apply negb_true_iff, bool_decide_eq_false in Hstage.
      apply list_elem_of_singleton in Hsg as ->. simpl.
      split; [done|]. split; [by repeat constructor|].
      split; [done|]. split; [intros _; by exists stage|]. done.
    + destruct (Lifecycle.q_gt _ _) in Hsg; [|by apply elem_of_nil in Hsg].
      apply list_elem_of_singleton in Hsg as ->. simpl.
      split; [done|]. split; [by repeat constructor|]. by repeat split.
  - intros [= <-] ->%list_elem_of_singleton. simpl.
    split; [done|]. split; [by repeat constructor|]. by repeat split.
Qed.

Lemma eligible_kind (action priority : string) :
  (action, priority) ∈ suggestion_kinds →
  str_in priority ["low"; "medium"] && negb (String.eqb action "review_cleanup")
  = true →
  action ∈ ["move_project"; "auto_archive"].
Proof.
  unfold suggestion_kinds. intros Hkind.
  repeat (apply elem_of_cons in Hkind as [[= -> ->]|Hkind];
          [simpl; first [discriminate | intros _; by repeat constructor]|]).
  by apply elem_of_nil in Hkind.
Qed.

Lemma eligible_suggestion_keeps_entry (now : Z) (m : Lifecycle.Manager)
    (sgs : list Lifecycle.Suggestion) (sg : Lifecycle.Suggestion) :
  Lifecycle.suggest_lifecycle_actions now m = Some sgs →
  sg ∈ sgs →
  Lifecycle.auto_eligible sg = true →
  Lifecycle.sg_action sg ≠ "remove_registry_entry".
Proof.
  intros Hrun Hsg Hel.
  apply (elem_of_suggestions now m sgs sg Hrun) in Hsg
    as (k & info & own & Hk & Hown & Hsg).
  destruct (suggest_for_shape now m k info own sg Hown Hsg) as (_ & Hkind & _).
  pose proof (eligible_kind _ _ Hkind Hel) as Hact.
  repeat (apply elem_of_cons in Hact as [->|Hact]; [done|]).
  by apply elem_of_nil in Hact.
Qed.

(** X12. Every suggestion that is returned names a registered project and
    is of one of the four kinds, each with its own priority; a suggested
    move names one of [active], [staging] and [archived], which
    [move_project] accepts as a target; and the suggestions that the
    [--auto] mode executes are moves and archivings only. *)
Theorem suggestions_are_executable (now : Z) (m : Lifecycle.Manager)
    (sgs : list Lifecycle.Suggestion) (sg : Lifecycle.Suggestion) :
  Lifecycle.suggest_lifecycle_actions now m = Some sgs →
  sg ∈ sgs →
  is_Some (Lifecycle.projects (Lifecycle.project_registry m)
             !! Lifecycle.sg_project sg)
  ∧ (Lifecycle.sg_action sg, Lifecycle.sg_priority sg) ∈ suggestion_kinds
  ∧ (Lifecycle.sg_action sg = "move_project" →
     ∃ to, Lifecycle.sg_to sg = Some to
           ∧ to ∈ ["active"; "staging"; "archived"]
           ∧ is_Some (Lifecycle.target_dirs m to))
  ∧ (Lifecycle.auto_eligible sg = true →
     Lifecycle.sg_action sg ∈ ["move_project"; "auto_archive"]).
Proof.
  intros Hrun Hsg.
  apply (elem_of_suggestions now m sgs sg Hrun) in Hsg
    as (k & info & own & Hk & Hown & Hsg).
  destruct (suggest_for_shape now m k info own sg Hown Hsg)
    as (Hproj & Hkind & Hmove & _ & _).
  split; [rewrite Hproj; by eexists|]. split; [done|]. split.
  - intros Hact. destruct (Hmove Hact) as (stage & _ & Hstage & Hto).
    eexists. split; [done|].
    pose proof (target_of_recommendation _ Hstage) as Htarget.
    split; [done|].
    repeat (apply elem_of_cons in Htarget as [->|Htarget]; [by eexists|]).
    by apply elem_of_nil in Htarget.
  - by apply eligible_kind.
Qed.

Lemma suggestions_are_executable_witness :
  ∃ sgs,
    Lifecycle.suggest_lifecycle_actions 90000 Samples.sample_manager = Some sgs
    ∧ Samples.move_foo ∈ sgs
    ∧ ∃ to, Lifecycle.sg_to Samples.move_foo = Some to
            ∧ is_Some (Lifecycle.target_dirs Samples.sample_manager to).
Proof.
  destruct (Lifecycle.suggest_lifecycle_actions 90000 Samples.sample_manager)
    as [sgs|] eqn:Hrun; [|vm_compute in Hrun; discriminate Hrun].
  assert (Samples.move_foo ∈ sgs) as Hin.
  { apply list_elem_of_In. vm_compute in Hrun. injection Hrun as <-.
    vm_compute. repeat (first [left; reflexivity | right]). }
  exists sgs. split; [reflexivity|]. split; [exact Hin|].
  destruct (suggestions_are_executable 90000 Samples.sample_manager sgs
              Samples.move_foo Hrun Hin) as (_ & _ & Hmove & _).
  destruct (Hmove eq_refl) as (to & Hto & _ & Hdir).
  exists to. split; [exact Hto|exact Hdir].
Defined.

(** X17. A project whose recorded stage is [archived] or [system] only
    ever gets a removal or a review suggestion: never a move, never an
    archiving. *)
Theorem settled_project_gets_no_transition (now : Z) (m : Lifecycle.Manager)
    (k : string) (info : Lifecycle.ProjectInfo)
    (sgs : list Lifecycle.Suggestion) (sg : Lifecycle.Suggestion) :
  Lifecycle.projects (Lifecycle.project_registry m) !! k = Some info →
  Lifecycle.pi_lifecycle_stage info ∈ [Some "archived"; Some "system"] →
  Lifecycle.suggest_lifecycle_actions now m = Some sgs →
  sg ∈ sgs →
  Lifecycle.sg_project sg = k →
  Lifecycle.sg_action sg ∈ ["remove_registry_entry"; "review_cleanup"].
Proof.
  intros Hk Hstage Hrun Hsg Hproj.
  apply (elem_of_suggestions now m sgs sg Hrun) in Hsg
    as (k' & info' & own & Hk' & Hown & Hsg).
  destruct (suggest_for_shape now m k' info' own sg Hown Hsg)
    as (Hproj' & Hkind & Hmove & Hauto & _).
  assert (k' = k) as -> by congruence.
  assert (info' = info) as -> by congruence.
  unfold suggestion_kinds in Hkind.
  apply elem_of_cons in Hkind as [[= Ha _]|Hkind];
    [rewrite Ha; by repeat constructor|].
  apply elem_of_cons in Hkind as [[= Ha _]|Hkind].
  { destruct (Hmove Ha) as (stage & Hrec & Hin & _). exfalso.
    rewrite Hrec in Hstage. unfold Lifecycle.should_be_stages in Hin.
    repeat (apply elem_of_cons in Hin as [->|Hin];
            [repeat (apply elem_of_cons in Hstage as [Hstage|Hstage];
                     [discriminate Hstage|]);
             by apply elem_of_nil in Hstage|]).
    by apply elem_of_nil in Hin. }
  apply elem_of_cons in Hkind as [[= Ha _]|Hkind].
  { destruct (Hauto Ha) as (stage & Hrec & Hout). exfalso.
    rewrite Hrec in Hstage. apply Hout.
    repeat (apply elem_of_cons in Hstage as [[= ->]|Hstage];
            [by repeat constructor|]).
    by apply elem_of_nil in Hstage. }
  apply elem_of_cons in Hkind as [[= Ha _]|Hkind];
    [rewrite Ha; by repeat constructor|].
  by apply elem_of_nil in Hkind.
Qed.

Lemma settled_project_gets_no_transition_witness :
  ∃ sgs,
    Lifecycle.suggest_lifecycle_actions 90000 Samples.settled_manager = Some sgs
    ∧ Samples.review_old ∈ sgs
    ∧ Lifecycle.sg_action Samples.review_old
      ∈ ["remove_registry_entry"; "review_cleanup"].
Proof.
  destruct (Lifecycle.suggest_lifecycle_actions 90000 Samples.settled_manager)
    as [sgs|] eqn:Hrun; [|vm_compute in Hrun; discriminate Hrun].
  assert (Samples.review_old ∈ sgs) as Hin.
  { apply list_elem_of_In. vm_compute in Hrun. injection Hrun as <-.
    vm_compute. repeat (first [left; reflexivity | right]). }
  exists sgs. split; [reflexivity|]. split; [exact Hin|].
  apply (settled_project_gets_no_transition 90000 Samples.settled_manager
           "old" Samples.archived_info sgs Samples.review_old).
  - reflexivity.
  - by left.
  - exact Hrun.
  - exact Hin.
  - reflexivity.
Defined.

Lemma complete_without (m : Lifecycle.Manager) (k : string) :
  Complete m →
  Complete (Lifecycle.with_projects m
              (delete k (Lifecycle.projects (Lifecycle.project_registry m)))).
Proof.
  intros Hcomplete k' info. simpl.
  intros [_ Hk']%lookup_delete_Some Hex. by apply (Hcomplete k' info).
Qed.

(** X13. On a registry whose records carry the keys that the suggestion
    loop indexes, a registered project whose directory is gone gets the
    removal suggestion. Executing it, when the registry file can be
    written, succeeds, deletes exactly that entry, writes the registry to
    its file and leaves the tree alone; after that the suggestions are
    still produced and none names the project, and executing the same
    removal again fails and changes nothing. *)
Theorem removal_clears_the_stale_entry
    (shutil_move : FS → Path → Path → Lifecycle.MoveOutcome)
    (write_registry : Lifecycle.Manager → Lifecycle.SaveOutcome)
    (now later : Z) (m : Lifecycle.Manager) (k : string)
    (info : Lifecycle.ProjectInfo) :
  Lifecycle.projects (Lifecycle.project_registry m) !! k = Some info →
  path_exists (Lifecycle.fs m) (Lifecycle.pi_path info) = false →
  Complete m →
  write_registry
    (Lifecycle.with_projects m
       (delete k (Lifecycle.projects (Lifecycle.project_registry m))))
  = Lifecycle.Saved →
  (∃ sgs, Lifecycle.suggest_lifecycle_actions now m = Some sgs
          ∧ Spec.removal_suggestion k ∈ sgs)
  ∧ ∃ m',
      Lifecycle.execute_lifecycle_action shutil_move write_registry now m
        (Spec.removal_suggestion k) = (true, m')
      ∧ Lifecycle.projects (Lifecycle.project_registry m')
        = delete k (Lifecycle.projects (Lifecycle.project_registry m))
      ∧ Lifecycle.metadata_file m' = Stored (Lifecycle.project_registry m')
      ∧ Lifecycle.fs m' = Lifecycle.fs m
      ∧ (∃ sgs', Lifecycle.suggest_lifecycle_actions later m' = Some sgs'
                 ∧ ∀ sg, sg ∈ sgs' → Lifecycle.sg_project sg ≠ k)
      ∧ (Lifecycle.execute_lifecycle_action shutil_move write_registry
           later m' (Spec.removal_suggestion k) = (false, m')).
Proof.
  intros Hk Hgone Hcomplete Hsave. split.
  { destruct (proj2 (suggestions_returned now m) Hcomplete) as [sgs Hrun].
    exists sgs. split; [done|].
    apply (elem_of_suggestions now m sgs _ Hrun).
    exists k, info, [Spec.removal_suggestion k].
    split; [done|]. split.
    - unfold Lifecycle.suggest_for. by rewrite Hgone.
    - by apply list_elem_of_singleton. }
  eexists. split.
  { unfold Lifecycle.execute_lifecycle_action,
      Lifecycle.try_save_project_registry. simpl. by rewrite Hk, Hsave. }
  simpl. repeat (split; [done|]). split.
  - set (m' := Lifecycle.save_project_registry now _).
    assert (Complete m') as Hcomplete'.
    { intros k' info' Hk' Hex. by apply (complete_without m k Hcomplete k'). }
    destruct (proj2 (suggestions_returned later m') Hcomplete') as [sgs' Hrun].
    exists sgs'. split; [done|]. intros sg Hsg Hproj.
    apply (elem_of_suggestions later m' sgs' sg Hrun) in Hsg
      as (k' & info' & own & Hk' & Hown & Hsg).
    destruct (suggest_for_shape later m' k' info' own sg Hown Hsg)
      as (Hproj' & _).
    simpl in Hk'. rewrite <-Hproj', Hproj in Hk'.
    by rewrite lookup_delete_eq in Hk'.
  - unfold Lifecycle.execute_lifecycle_action. simpl.
    by rewrite lookup_delete_eq.
Qed.

Lemma removal_clears_the_stale_entry_witness :
  Complete Samples.sample_manager
  ∧ (∃ sgs,
       Lifecycle.suggest_lifecycle_actions 90000 Samples.sample_manager
       = Some sgs
       ∧ Spec.removal_suggestion "gone" ∈ sgs)
  ∧ ∃ m',
      Lifecycle.execute_lifecycle_action Samples.rename_tree
        Samples.always_saved 90000 Samples.sample_manager
        (Spec.removal_suggestion "gone") = (true, m')
      ∧ Lifecycle.projects (Lifecycle.project_registry m') !! "gone" = None.
Proof.
  assert (Complete Samples.sample_manager) as Hcomplete.
  { apply (suggestions_returned 90000). vm_compute. by eexists. }
  split; [exact Hcomplete|].
  destruct (removal_clears_the_stale_entry Samples.rename_tree
              Samples.always_saved 90000 90000 Samples.sample_manager "gone"
              (Samples.sample_info "gone" ("gone" :: Samples.home)
                 "should_be_archived"))
    as (Hin & m' & Hrun & Hps & _).
  - reflexivity.
  - reflexivity.
  - exact Hcomplete.
  - reflexivity.
  - split; [exact Hin|]. exists m'. split; [exact Hrun|].
    rewrite Hps. apply lookup_delete_eq.
Defined.

(** ** Moves *)

Lemma move_project_frame
    (shutil_move : FS → Path → Path → Lifecycle.MoveOutcome)
    (write_registry : Lifecycle.Manager → Lifecycle.SaveOutcome)
    (now : Z) (m : Lifecycle.Manager) (project_id target_stage : string) :
  let r := Lifecycle.move_project shutil_move write_registry now m
             project_id target_stage in
  let ps := Lifecycle.projects (Lifecycle.project_registry m) in
  let ps' := Lifecycle.projects (Lifecycle.project_registry (snd r)) in
  (∀ k, k ≠ project_id → ps' !! k = ps !! k)
  ∧ dom ps' = dom ps
  ∧ Lifecycle.settings (Lifecycle.project_registry (snd r))
    = Lifecycle.settings (Lifecycle.project_registry m)
  ∧ Lifecycle.base_path (snd r) = Lifecycle.base_path m.
Proof.
  unfold Lifecycle.move_project.
  destruct (Lifecycle.projects (Lifecycle.project_registry m) !! project_id)
    as [info|] eqn:Hk; simpl; [|done].
  destruct (Lifecycle.target_dirs m target_stage) as [dir|]; simpl; [|done].
  destruct (path_exists (Lifecycle.fs m) (project_id :: dir)); simpl; [done|].
  destruct (shutil_move _ _ _) as [disk|disk]; simpl; [|done].
  unfold Lifecycle.try_save_project_registry.
  destruct (write_registry _); simpl;
    (split; [intros k Hne; by rewrite lookup_insert_ne|]);
    (split; [|done]);
    rewrite dom_insert_L; apply subseteq_union_1_L, singleton_subseteq_l;
    apply elem_of_dom; by eexists.
Qed.



Lemma execute_keeps_entries
    (shutil_move : FS → Path → Path → Lifecycle.MoveOutcome)
    (write_registry : Lifecycle.Manager → Lifecycle.SaveOutcome)
    (now : Z) (m : Lifecycle.Manager) (sg : Lifecycle.Suggestion) :
  Lifecycle.sg_action sg ≠ "remove_registry_entry" →
  let r := Lifecycle.execute_lifecycle_action shutil_move write_registry
             now m sg in
  dom (Lifecycle.projects (Lifecycle.project_registry (snd r)))
  = dom (Lifecycle.projects (Lifecycle.project_registry m))
  ∧ Lifecycle.base_path (snd r) = Lifecycle.base_path m.
Proof.
  intros Hact. unfold Lifecycle.execute_lifecycle_action,
    Lifecycle.archive_project.
  destruct (String.eqb_spec (Lifecycle.sg_action sg) "move_project").
  { destruct (Lifecycle.sg_to sg) as [to|]; [|done].
    by destruct (move_project_frame shutil_move write_registry now m
                   (Lifecycle.sg_project sg) to) as (_ & ? & _ & ?). }
  destruct (String.eqb_spec (Lifecycle.sg_action sg) "auto_archive").
  { by destruct (move_project_frame shutil_move write_registry now m
                   (Lifecycle.sg_project sg) "archived") as (_ & ? & _ & ?). }
  destruct (String.eqb_spec (Lifecycle.sg_action sg) "remove_registry_entry");
    [done|].
  by destruct (String.eqb _ _).
Qed.

Lemma auto_fold
    (shutil_move : FS → Path → Path → Lifecycle.MoveOutcome)
    (write_registry : Lifecycle.Manager → Lifecycle.SaveOutcome)
    (now : Z) (sgs : list Lifecycle.Suggestion) (n : nat) (m : Lifecycle.Manager) :
  Forall (λ sg, Lifecycle.auto_eligible sg = true →
                Lifecycle.sg_action sg ≠ "remove_registry_entry") sgs →
  let r := foldl (Lifecycle.auto_step shutil_move write_registry now) (n, m) sgs in
  dom (Lifecycle.projects (Lifecycle.project_registry (snd r)))
  = dom (Lifecycle.projects (Lifecycle.project_registry m))
  ∧ (n ≤ fst r ≤ n + length (filter (λ sg, Lifecycle.auto_eligible sg = true) sgs))%nat.
Proof.
  revert n m. induction sgs as [|sg sgs IH]; intros n m Hall; simpl.
  { split; [done|lia]. }
  apply Forall_cons in Hall as [Hsg Hall].
  destruct (Lifecycle.auto_eligible sg) eqn:Hel.
  - rewrite filter_cons_True by done.
    assert (Lifecycle.auto_step shutil_move write_registry now (n, m) sg
            = ((if fst (Lifecycle.execute_lifecycle_action shutil_move
                          write_registry now m sg)
                then S n else n),
               snd (Lifecycle.execute_lifecycle_action shutil_move
                      write_registry now m sg)))
      as -> by (unfold Lifecycle.auto_step; by rewrite Hel).
    assert (Lifecycle.sg_action sg ≠ "remove_registry_entry") as Hact
      by (by apply Hsg).
    destruct (execute_keeps_entries shutil_move write_registry now m sg Hact)
      as [Hdom _].
    destruct (Lifecycle.execute_lifecycle_action shutil_move write_registry
                now m sg) as [ok m1]. simpl in Hdom. cbn [fst snd].
    destruct (IH (if ok then S n else n) m1 Hall) as [Hdom' Hcount].
    split; [congruence|]. rewrite length_cons. destruct ok; lia.
  - rewrite filter_cons_False by (by rewrite Hel).
    assert (Lifecycle.auto_step shutil_move write_registry now (n, m) sg
            = (n, m)) as ->
      by (unfold Lifecycle.auto_step; by rewrite Hel).
    by apply IH.
Qed.

(** X15. The [--auto] mode of [execute] never removes a registry entry,
    whatever [shutil.move] and the writing of the registry file do, and the
    count it prints is at most the number of eligible suggestions. It ends
    with an exception only when producing the suggestions does, before
    anything is executed. *)
Theorem auto_mode_keeps_every_entry
    (shutil_move : FS → Path → Path → Lifecycle.MoveOutcome)
    (write_registry : Lifecycle.Manager → Lifecycle.SaveOutcome)
    (now : Z) (m : Lifecycle.Manager) :
  match Lifecycle.auto_execute shutil_move write_registry now m with
  | Some r =>
      dom (Lifecycle.projects (Lifecycle.project_registry (snd r)))
      = dom (Lifecycle.projects (Lifecycle.project_registry m))
      ∧ ∃ sgs,
          Lifecycle.suggest_lifecycle_actions now m = Some sgs
          ∧ (fst r ≤ length (filter (λ sg, Lifecycle.auto_eligible sg = true)
                               sgs))%nat
  | None => Lifecycle.suggest_lifecycle_actions now m = None
  end.
Proof.
  unfold Lifecycle.auto_execute.
  destruct (Lifecycle.suggest_lifecycle_actions now m) as [sgs|] eqn:Hrun;
    simpl; [|done].
  destruct (auto_fold shutil_move write_registry now sgs 0 m)
    as [Hdom Hcount].
  - apply Forall_forall. intros sg Hsg Hel.
    by apply (eligible_suggestion_keeps_entry now m sgs).
  - split; [done|]. exists sgs. split; [done|]. simpl in Hcount. lia.
Qed.

Lemma auto_mode_keeps_every_entry_witness :
  ∃ r,
    Lifecycle.auto_execute Samples.rename_tree Samples.always_saved 90000
      Samples.sample_manager = Some r
    ∧ dom (Lifecycle.projects (Lifecycle.project_registry (snd r)))
      = dom (Lifecycle.projects
               (Lifecycle.project_registry Samples.sample_manager)).
Proof.
  generalize (auto_mode_keeps_every_entry Samples.rename_tree
                Samples.always_saved 90000 Samples.sample_manager).
  destruct (Lifecycle.auto_execute Samples.rename_tree Samples.always_saved
              90000 Samples.sample_manager) as [r|] eqn:Hrun.
  - intros [Hdom _]. exists r. split; [reflexivity|exact Hdom].
  - vm_compute in Hrun. discriminate Hrun.
Defined.

(** ** Reports *)

Lemma total_count_bump (key : string) (counts : gmap string nat) :
  total_count (Lifecycle.bump key counts) = S (total_count counts).
Proof.
  unfold total_count, Lifecycle.bump.
  destruct (counts !! key) as [n|] eqn:Hk; simpl.
  - rewrite <-insert_delete_eq.
    rewrite map_fold_insert_L; [|intros; lia|by rewrite lookup_delete_eq].
    rewrite (map_fold_delete_L _ _ key n counts); [done|intros; lia|done].
  - rewrite map_fold_insert_L; [done|intros; lia|done].
Qed.

Lemma count_lookup_bump (key k : string) (counts : gmap string nat) :
  default 0%nat (Lifecycle.bump key counts !! k)
  = ((if bool_decide (key = k) then 1 else 0) + default 0%nat (counts !! k))%nat.
Proof.
  unfold Lifecycle.bump. case_bool_decide as Hk.
  - subst. by rewrite lookup_insert_eq.
  - by rewrite lookup_insert_ne.
Qed.

Lemma histogram_fold {A : Type} (key : A → string) (l : list A)
    (acc : gmap string nat) :
  let counts := foldl (λ counts x, Lifecycle.bump (key x) counts) acc l in
  total_count counts = (total_count acc + length l)%nat
  ∧ ∀ k, default 0%nat (counts !! k)
         = (default 0%nat (acc !! k) + length (filter (λ x, key x = k) l))%nat.
Proof.
  revert acc. induction l as [|x l IH]; intros acc; simpl.
  { split; [lia|]. intros k. lia. }
  destruct (IH (Lifecycle.bump (key x) acc)) as [Htotal Hkey].
  split.
  - rewrite Htotal, total_count_bump. lia.
  - intros k. rewrite Hkey, count_lookup_bump.
    case_bool_decide as Hk.
    + rewrite filter_cons_True by done. simpl. lia.
    + rewrite filter_cons_False by done. lia.
Qed.

Lemma stage_histogram_fold (l : list Lifecycle.ProjectInfo) :
  ∀ acc counts,
    foldlM (fun counts info =>
              stage ← Lifecycle.pi_lifecycle_stage info;
              Some (Lifecycle.bump stage counts)) acc l = Some counts →
    total_count counts = (total_count acc + length l)%nat
    ∧ ∀ k, default 0%nat (counts !! k)
           = (default 0%nat (acc !! k)
              + length (filter (λ info, Lifecycle.pi_lifecycle_stage info
                                        = Some k) l))%nat.
Proof.
  induction l as [|info l IH]; intros acc counts.
  { simpl. intros [= <-]. split; [lia|]. intros k. simpl. lia. }
  rewrite foldlM_cons.
  destruct (Lifecycle.pi_lifecycle_stage info) as [stage|] eqn:Hstage;
    [|done].
  simpl. intros Hrest. destruct (IH _ _ Hrest) as [Htotal Hkey].
  split.
  - rewrite Htotal, total_count_bump. simpl. lia.
  - intros k. rewrite Hkey, count_lookup_bump.
    case_bool_decide as Hk.
    + subst k. rewrite filter_cons_True by done. simpl. lia.
    + rewrite filter_cons_False by congruence. lia.
Qed.

Lemma total_count_empty : total_count ∅ = 0%nat.
Proof. unfold total_count. by rewrite map_fold_empty. Qed.

Lemma old_archive_length (cutoff_date : Z)
    (entries : list (string * Lifecycle.ProjectInfo))
    (per_entry : list (list string)) :
  Forall2 (fun e l => Lifecycle.old_archive cutoff_date e = Some l)
          entries per_entry →
  (length (concat per_entry)
   ≤ length (filter (λ info, Lifecycle.pi_lifecycle_stage info = Some "archived")
               (map snd entries)))%nat.
Proof.
  induction 1 as [|[k info] l rest ls Hl _ IH]; [done|].
  cbn [concat map snd]. rewrite length_app.
  unfold Lifecycle.old_archive in Hl. simpl in Hl.
  destruct (Lifecycle.pi_lifecycle_stage info) as [stage|] eqn:Hstage; [|done].
  simpl in Hl.
  destruct (String.eqb_spec stage "archived") as [->|Hne].
  - rewrite filter_cons_True by done.
    destruct (Lifecycle.pi_last_modified info) as [last_modified|]; [|done].
    simpl in Hl. injection Hl as <-.
    destruct (last_modified <? cutoff_date); simpl; lia.
  - injection Hl as <-. rewrite filter_cons_False by congruence. simpl. lia.
Qed.

Lemma old_archives_are_archived (now days_old : Z) (m : Lifecycle.Manager)
    (ids : list string) :
  Lifecycle.cleanup_old_archives now m days_old = Some ids →
  (length ids
   ≤ length (filter (λ info, Lifecycle.pi_lifecycle_stage info = Some "archived")
               (map snd (map_to_list
                  (Lifecycle.projects (Lifecycle.project_registry m))))))%nat.
Proof.
  unfold Lifecycle.cleanup_old_archives.
  destruct (mapM _ _) as [per_entry|] eqn:Hrun; [|done].
  simpl. intros [= <-]. apply mapM_Some in Hrun.
  by eapply old_archive_length.
Qed.

Lemma all_keys_complete (m : Lifecycle.Manager) : AllKeys m → Complete m.
Proof.
  intros [Hsettings Hall] k info Hk _.
  destruct (Hall k info Hk) as (? & ? & ?). by repeat split.
Qed.

Lemma stage_histogram_returned (l : list Lifecycle.ProjectInfo) :
  Forall (λ info, is_Some (Lifecycle.pi_lifecycle_stage info)) l →
  ∀ acc,
    is_Some (foldlM (fun counts info =>
                       stage ← Lifecycle.pi_lifecycle_stage info;
                       Some (Lifecycle.bump stage counts)) acc l).
Proof.
  induction 1 as [|info l [stage Hstage] _ IH]; intros acc.
  { by eexists. }
  rewrite foldlM_cons, Hstage. simpl. apply IH.
Qed.

Lemma report_returned (now : Z) (m : Lifecycle.Manager) :
  AllKeys m → is_Some (Lifecycle.generate_lifecycle_report now m).
Proof.
  intros Hall. unfold Lifecycle.generate_lifecycle_report.
  destruct (proj2 (suggestions_returned now m) (all_keys_complete m Hall))
    as [sgs ->]. simpl.
  destruct Hall as [_ Hall].
  assert (is_Some (Lifecycle.cleanup_old_archives now m 365)) as [ids ->].
  { unfold Lifecycle.cleanup_old_archives.
    destruct (mapM _ _) as [per_entry|] eqn:Hrun; [by eexists|].
    exfalso. apply eq_None_not_Some in Hrun. apply Hrun, mapM_is_Some.
    apply Forall_forall. intros [k info] Hk%elem_of_map_to_list.
    destruct (Hall k info Hk) as ([stage Hstage] & [modified Hmodified] & _).
    unfold Lifecycle.old_archive. simpl. rewrite Hstage. simpl.
    destruct (String.eqb stage "archived"); [|by eexists].
    rewrite Hmodified. by eexists. }
  simpl.
  set (infos := map snd (map_to_list _)).
  destruct (stage_histogram_returned infos) with (acc := (∅ : gmap string nat))
    as [by_stage ->]; [|by eexists].
  apply Forall_forall. intros info Hin.
  apply list_elem_of_fmap in Hin as ([k info'] & -> & Hk%elem_of_map_to_list).
  by destruct (Hall k info' Hk) as (? & _).
Qed.

(** X16. In a lifecycle report the counts by stage and the counts by type
    each add up to [total_projects]; the count under a stage or a type is
    the number of records that carry it; and [old_archives] never lists
    more ids than [by_stage] counts as archived. The report is produced
    whenever the registry holds its settings and every record carries
    [lifecycle_stage], [last_modified] and [size_mb]. *)
Theorem report_counts_add_up (now : Z) (m : Lifecycle.Manager) :
  let infos :=
    map snd (map_to_list (Lifecycle.projects (Lifecycle.project_registry m))) in
  match Lifecycle.generate_lifecycle_report now m with
  | Some r =>
      total_count (Lifecycle.rp_by_stage r) = Lifecycle.rp_total_projects r
      ∧ total_count (Lifecycle.rp_by_type r) = Lifecycle.rp_total_projects r
      ∧ (∀ stage, default 0%nat (Lifecycle.rp_by_stage r !! stage)
                  = length (filter (λ info, Lifecycle.pi_lifecycle_stage info
                                            = Some stage) infos))
      ∧ (∀ type, default 0%nat (Lifecycle.rp_by_type r !! type)
                 = length (filter (λ info, Lifecycle.pi_type info = type) infos))
      ∧ (length (Lifecycle.rp_old_archives r)
         ≤ default 0%nat (Lifecycle.rp_by_stage r !! "archived"))%nat
  | None => ¬ AllKeys m
  end.
Proof.
  intros infos.
  destruct (Lifecycle.generate_lifecycle_report now m) as [r|] eqn:Hrun.
  2: { intros [r Hr]%(report_returned now). congruence. }
  unfold Lifecycle.generate_lifecycle_report in Hrun.
  destruct (Lifecycle.suggest_lifecycle_actions now m) as [sgs|]; [|done].
  simpl in Hrun.
  destruct (Lifecycle.cleanup_old_archives now m 365) as [ids|] eqn:Hids;
    [|done].
  simpl in Hrun. fold infos in Hrun.
  destruct (foldlM _ ∅ infos) as [by_stage|] eqn:Hfold; [|done].
  simpl in Hrun. injection Hrun as <-. simpl.
  destruct (stage_histogram_fold infos ∅ by_stage Hfold) as [Hstages Hstage].
  destruct (histogram_fold Lifecycle.pi_type infos ∅) as [Htypes Htype].
  assert (length infos
          = size (Lifecycle.projects (Lifecycle.project_registry m))) as Hlen.
  { unfold infos. by rewrite length_map, length_map_to_list. }
  rewrite total_count_empty in Hstages, Htypes. simpl in *.
  split; [by rewrite Hstages, Hlen|]. split; [by rewrite Htypes, Hlen|].
  split; [intros stage; by rewrite Hstage, lookup_empty|].
  split; [intros type; by rewrite Htype, lookup_empty|].
  rewrite Hstage, lookup_empty. simpl.
  by apply (old_archives_are_archived now 365 m).
Qed.

Lemma report_counts_add_up_witness :
  ∃ r,
    Lifecycle.generate_lifecycle_report 90000 Samples.sample_manager = Some r
    ∧ total_count (Lifecycle.rp_by_stage r) = Lifecycle.rp_total_projects r
    ∧ Lifecycle.rp_total_projects r = 3%nat.
Proof.
  generalize (report_counts_add_up 90000 Samples.sample_manager).
  destruct (Lifecycle.generate_lifecycle_report 90000 Samples.sample_manager)
    as [r|] eqn:Hrun.
  - intros (Hstages & _). exists r. split; [reflexivity|].
    split; [exact Hstages|].
    vm_compute in Hrun. injection Hrun as <-. reflexivity.
  - vm_compute in Hrun. discriminate Hrun.
Defined.

(** ** From a queued change to the dashboard *)

Lemma queue_sync_pending (now : Z) (s : Discovery.State)
    (info : Discovery.ProjectInfo) :
  Discovery.dashboard_sync_file s ≠ Garbled →
  let s' := Discovery.queue_dashboard_sync now s info in
  Discovery.dashboard_sync_file s' ≠ Garbled
  ∧ ∃ entry,
      Discovery.se_data entry = info
      ∧ pending_of s' = pending_of s ++ [entry].
Proof.
  intros Hfile. unfold Discovery.queue_dashboard_sync, pending_of.
  destruct (Discovery.dashboard_sync_file s) as [| |sync_data] eqn:Hsync;
    simpl; [|done|].
  - split; [done|]. eexists. split; [|reflexivity]. done.
  - split; [done|]. eexists. split; [|reflexivity]. done.
Qed.

Lemma refresh_project_pending (now : Z) (s s' : Discovery.State)
    (project_id : string) :
  Discovery.refresh_project now s project_id = Some s' →
  Keyed s →
  Discovery.dashboard_sync_file s ≠ Garbled →
  Discovery.dashboard_sync_file s' ≠ Garbled
  ∧ Discovery.base_path s' = Discovery.base_path s
  ∧ (∀ e, e ∈ pending_of s → e ∈ pending_of s')
  ∧ (∀ r, Discovery.projects (Discovery.registry s) !! project_id = Some r →
          path_exists (Discovery.fs s) (Discovery.pi_path r) = true →
          ∃ e, e ∈ pending_of s'
               ∧ Discovery.pi_id (Discovery.se_data e) = project_id).
Proof.
  unfold Discovery.refresh_project. intros Hrun Hkeyed Hfile.
  destruct (Discovery.projects (Discovery.registry s) !! project_id)
    as [old|] eqn:Hold.
  2: { injection Hrun as <-. by repeat split. }
  destruct (path_exists _ _) eqn:Hex.
  2: { injection Hrun as <-. split; [done|]. split; [done|]. split; [done|].
       intros r [= <-]. congruence. }
  destruct (Discovery.analyze_project_quick now (Discovery.fs s)
              (Discovery.pi_path old)) as [info|] eqn:Ha; [|done].
  simpl in Hrun. injection Hrun as <-.
  set (s1 := Discovery.with_registry_projects s _).
  destruct (queue_sync_pending now s1 (Discovery.refreshed old info now) Hfile)
    as (Hfile' & entry & Hdata & Hpending).
  destruct (queue_sync_fields now s1 (Discovery.refreshed old info now))
    as (_ & _ & _ & _ & _ & Hbase).
  split; [done|]. split; [done|].
  change (pending_of s1) with (pending_of s) in Hpending.
  rewrite Hpending. split.
  - intros e He. apply elem_of_app. by left.
  - intros r [= <-] _. exists entry. split.
    + apply elem_of_app. right. by left.
    + rewrite Hdata. simpl.
      apply analyze_quick_keyed in Ha as (-> & _).
      by destruct (Hkeyed _ _ Hold) as (_ & _ & -> & _).
Qed.

Lemma refresh_all_pending (now : Z) (ids : list string) :
  ∀ s, Statable s → Keyed s →
       Discovery.dashboard_sync_file s ≠ Garbled →
       ∃ s', foldlM (Discovery.refresh_project now) s ids = Some s'
             ∧ Discovery.dashboard_sync_file s' ≠ Garbled
             ∧ Discovery.base_path s' = Discovery.base_path s
             ∧ Discovery.fs s' = Discovery.fs s
             ∧ (∀ e, e ∈ pending_of s → e ∈ pending_of s')
             ∧ (∀ k r, k ∈ ids →
                  Discovery.projects (Discovery.registry s) !! k = Some r →
                  path_exists (Discovery.fs s) (Discovery.pi_path r) = true →
                  ∃ e, e ∈ pending_of s'
                       ∧ Discovery.pi_id (Discovery.se_data e) = k).
Proof.
  induction ids as [|project_id rest IH]; intros s Hst Hkeyed Hfile.
  - exists s. split; [done|]. repeat (split; [done|]).
    by intros k r ?%elem_of_nil.
  - destruct (refresh_project_returns now s project_id Hst) as [s1 H1].
    destruct (refresh_project_frame _ _ _ _ H1)
      as (Hfs1 & _ & _ & _ & _ & Hpath1).
    destruct (refresh_project_pending _ _ _ _ H1 Hkeyed Hfile)
      as (Hfile1 & Hbase1 & Hmono1 & Hnew1).
    destruct (IH s1 (refresh_project_statable _ _ _ _ H1 Hst)
                (refresh_project_keyed _ _ _ _ H1 Hkeyed) Hfile1)
      as (s' & Hrest & Hfile' & Hbase & Hfs & Hmono & Hnew).
    exists s'. rewrite foldlM_cons, H1. simpl.
    split; [done|]. split; [done|]. split; [congruence|].
    split; [congruence|]. split; [by intros e He; apply Hmono, Hmono1|].
    intros k r [->|Hk]%elem_of_cons Hr Hex.
    + destruct (Hnew1 r Hr Hex) as (e & He & Hid). exists e.
      split; [by apply Hmono|done].
    + specialize (Hpath1 k). rewrite Hr in Hpath1. simpl in Hpath1.
      destruct (Discovery.projects (Discovery.registry s1) !! k)
        as [r1|] eqn:Hr1; [|done].
      injection Hpath1 as Hp.
      apply (Hnew k r1 Hk Hr1). by rewrite Hfs1, Hp.
Qed.

Lemma process_queue_pending (now : Z) (s : Discovery.State) :
  Statable s → Keyed s →
  Discovery.dashboard_sync_file s ≠ Garbled →
  ∃ s', Discovery.process_update_queue now s = Some s'
        ∧ Discovery.update_queue s' = ∅
        ∧ Discovery.dashboard_sync_file s' ≠ Garbled
        ∧ Discovery.base_path s' = Discovery.base_path s
        ∧ Discovery.fs s' = Discovery.fs s
        ∧ (∀ e, e ∈ pending_of s → e ∈ pending_of s')
        ∧ (∀ k r, k ∈ Discovery.update_queue s →
             Discovery.projects (Discovery.registry s) !! k = Some r →
             path_exists (Discovery.fs s) (Discovery.pi_path r) = true →
             ∃ e, e ∈ pending_of s'
                  ∧ Discovery.pi_id (Discovery.se_data e) = k).
Proof.
  intros Hst Hkeyed Hfile. unfold Discovery.process_update_queue.
  destruct (decide (Discovery.update_queue s = ∅)) as [Hempty|Hfull].
  - rewrite bool_decide_eq_true_2 by done. exists s.
    split; [done|]. repeat (split; [done|]).
    intros k r Hk. rewrite Hempty in Hk. by apply elem_of_empty in Hk.
  - rewrite bool_decide_eq_false_2 by done.
    destruct (refresh_all_pending now (elements (Discovery.update_queue s)) s
                Hst Hkeyed Hfile)
      as (s1 & Hrun & Hfile1 & Hbase & Hfs & Hmono & Hnew).
    rewrite Hrun. simpl. eexists. split; [done|]. simpl.
    repeat (split; [done|]).
    intros k r Hk. apply Hnew. by apply elem_of_elements.
Qed.

(** X18. [manual_sync], when every registered path that exists can be
    [stat]ed, the registry is keyed by directory name, the dashboard queue
    file is not unreadable, a dashboard directory exists and no backlog
    file is unreadable, returns with an empty update queue and no pending
    dashboard update. Every queued project whose directory exists, and
    every project whose update was already pending, is listed afterwards in
    a backlog file at one of the expected places. *)
Theorem manual_sync_mirrors_queued_projects (now : Z) (s : Discovery.State)
    (backlogs : Discovery.Backlogs) (location : Path) :
  Statable s → Keyed s →
  Discovery.dashboard_sync_file s ≠ Garbled →
  location ∈ Discovery.dashboard_locations s →
  path_exists (Discovery.fs s) location = true →
  (∀ p, backlogs !! p ≠ Some None) →
  ∃ s' backlogs',
    Discovery.manual_sync now s backlogs = Some (s', backlogs')
    ∧ Discovery.update_queue s' = ∅
    ∧ pending_of s' = []
    ∧ (∀ k r, k ∈ Discovery.update_queue s →
         Discovery.projects (Discovery.registry s) !! k = Some r →
         path_exists (Discovery.fs s) (Discovery.pi_path r) = true →
         ∃ p, p ∈ Discovery.backlog_locations s
              ∧ k ∈ map Discovery.idea_id (ideas_at backlogs' p))
    ∧ (∀ e, e ∈ pending_of s →
         ∃ p, p ∈ Discovery.backlog_locations s
              ∧ Discovery.pi_id (Discovery.se_data e)
                ∈ map Discovery.idea_id (ideas_at backlogs' p)).
Proof.
  intros Hst Hkeyed Hfile Hloc Hex Hparse. unfold Discovery.manual_sync.
  destruct (process_queue_pending now s Hst Hkeyed Hfile)
    as (s1 & Hrun & Hqueue & Hfile1 & Hbase & Hfs & Hmono & Hnew).
  rewrite Hrun. simpl.
  assert (Discovery.backlog_locations s1 = Discovery.backlog_locations s)
    as Hlocs by (unfold Discovery.backlog_locations; by rewrite Hbase).
  assert (location ∈ Discovery.dashboard_locations s1) as Hloc1
    by (unfold Discovery.dashboard_locations in *; by rewrite Hbase).
  assert (path_exists (Discovery.fs s1) location = true) as Hex1
    by (by rewrite Hfs).
  unfold Discovery.sync_with_dashboard.
  assert (pending_of s1 = [] →
          ∃ s' backlogs',
            Some (s1, backlogs) = Some (s', backlogs')
            ∧ Discovery.update_queue s' = ∅
            ∧ pending_of s' = []
            ∧ (∀ k r, k ∈ Discovery.update_queue s →
                 Discovery.projects (Discovery.registry s) !! k = Some r →
                 path_exists (Discovery.fs s) (Discovery.pi_path r) = true →
                 ∃ p, p ∈ Discovery.backlog_locations s
                      ∧ k ∈ map Discovery.idea_id (ideas_at backlogs' p))
            ∧ (∀ e, e ∈ pending_of s →
                 ∃ p, p ∈ Discovery.backlog_locations s
                      ∧ Discovery.pi_id (Discovery.se_data e)
                        ∈ map Discovery.idea_id (ideas_at backlogs' p)))
    as Hnothing.
  { intros Hnone. exists s1, backlogs. split; [done|]. split; [done|].
    split; [done|]. split.
    - intros k r Hk Hr Hp. destruct (Hnew k r Hk Hr Hp) as (e & He & _).
      rewrite Hnone in He. by apply elem_of_nil in He.
    - intros e He. apply Hmono in He. rewrite Hnone in He.
      by apply elem_of_nil in He. }
  destruct (Discovery.dashboard_sync_file s1) as [| |sync_data] eqn:Hsync.
  - apply Hnothing. unfold pending_of. by rewrite Hsync.
  - done.
  - destruct (Discovery.pending_updates sync_data) as [|update rest] eqn:Hpend.
    { apply Hnothing. unfold pending_of. by rewrite Hsync. }
    destruct (update_dashboard_writes s1 backlogs (update :: rest) location
                Hloc1 Hex1 Hparse) as (p & Hp & _ & Hwrite).
    rewrite Hwrite.
    assert (pending_of s1 = update :: rest) as Hpending
      by (unfold pending_of; by rewrite Hsync).
    destruct (merged_keeps (update :: rest) (ideas_at backlogs p))
      as [_ Hall].
    eexists _, _. split; [done|]. simpl. split; [done|]. split; [done|].
    assert (∀ e, e ∈ pending_of s1 →
                 ∃ p0, p0 ∈ Discovery.backlog_locations s
                       ∧ Discovery.pi_id (Discovery.se_data e)
                         ∈ map Discovery.idea_id
                             (ideas_at
                                (<[p := Some (merged (ideas_at backlogs p)
                                                (update :: rest))]> backlogs)
                                p0)) as Hlisted.
    { intros e He. exists p. split; [by rewrite <- Hlocs|].
      unfold ideas_at at 1. rewrite lookup_insert_eq.
      apply Hall. by rewrite <- Hpending. }
    split.
    + intros k r Hk Hr Hpath. destruct (Hnew k r Hk Hr Hpath) as (e & He & <-).
      by apply Hlisted.
    + intros e He. by apply Hlisted, Hmono.
Qed.

Lemma manual_sync_mirrors_queued_projects_witness :
  ∃ s' backlogs',
    Discovery.manual_sync 20 Samples.syncing_service Samples.one_backlog
    = Some (s', backlogs')
    ∧ pending_of s' = []
    ∧ ∃ p, p ∈ Discovery.backlog_locations Samples.syncing_service
           ∧ "bar" ∈ map Discovery.idea_id (ideas_at backlogs' p).
Proof.
  assert (∀ k r,
            Discovery.projects (Discovery.registry Samples.syncing_service)
              !! k = Some r →
            k = "bar" ∧ r = Samples.bar_record) as Hone.
  { intros k r Hk.
    cbv [Samples.syncing_service Samples.dashboard_service
         Samples.idle_service Samples.bar_registry Discovery.with_queue
         Discovery.with_fs Discovery.registry Discovery.projects] in Hk.
    apply lookup_singleton_Some in Hk as [<- <-]. by split. }
  destruct (manual_sync_mirrors_queued_projects 20 Samples.syncing_service
              Samples.one_backlog
              ("dashboard" :: "Project Management" :: Samples.home))
    as (s' & backlogs' & Hrun & _ & Hpending & Hqueued & _).
  - intros k r [-> ->]%Hone _. by eexists.
  - intros k r [-> ->]%Hone. by repeat split.
  - discriminate.
  - by left.
  - reflexivity.
  - intros p Hp. unfold Samples.one_backlog in Hp.
    apply lookup_singleton_Some in Hp as [_ Hp]. discriminate Hp.
  - exists s', backlogs'. split; [exact Hrun|]. split; [exact Hpending|].
    apply (Hqueued "bar" Samples.bar_record).
    + vm_compute. reflexivity.
    + reflexivity.
    + reflexivity.
Defined.

(** ** After a move *)



